(** * mic2key: the audio capture engine and the session state machine

    A shallow embedding of [audio_recorder.py], [hotkey_listener.py],
    [voice_input.py] and the constructors of [file_manager.py], with the
    properties of the specification stated over it.

    Conventions of the embedding.
    - A Python object is a record; a method is a function from the state
      it may touch to the new state and the returned value.
    - What the operating system decides (whether a thread starts, what
      the sound device delivers, what the event loop clock shows) is read
      from an environment record of oracles; the code is a deterministic
      function of the environment.
    - A Python exception is the [Raise] case of [result]; a [try/except]
      is the [match] that handles it.
    - [logging] calls append to a list of records kept next to the
      objects, so that "logs a warning" is a statement about that list.
    - Python floats are taken through the interface [PyFloat]; it has an
      exact instance on [Q], over which the general theorems are proved,
      and a binary64 instance on Rocq's primitive floats, on which the
      concrete runs are replayed. *)

From Stdlib Require Import ZArith QArith Qminmax Lqa Floats Uint63 List Sorted Ascii String DecimalString Bool Lia.
From stdpp Require Import gmap strings list.
Import ListNotations.

Local Open Scope string_scope.
Local Open Scope list_scope.
Local Open Scope Z_scope.

(** ** Python values the code relies on *)

Module Py.

(** An exception is known by the name of its class. *)
Inductive exn :=
| TypeError | ValueError | AttributeError | RuntimeError
| FileNotFoundError | FileExistsError | PermissionError
| PortAudioError | OtherError (name : string).

Inductive result (A : Type) :=
| Ok (a : A)
| Raise (e : exn).
Arguments Ok {A} a.
Arguments Raise {A} e.

Definition is_ok {A} (r : result A) : bool :=
  match r with Ok _ => true | Raise _ => false end.

(** [logging] levels used by the program, and one emitted record.
    Interpolated values of f-strings are left out of the message. *)
Inductive level := INFO | WARNING | ERROR.
Definition log_record : Type := level * string.

(** Truth value of a [str]: the empty string is falsy. *)
Definition str_truthy (s : string) : bool :=
  match s with EmptyString => false | _ => true end.

(** The float operations the recorder uses. *)
Class PyFloat (T : Type) := {
  of_int : Z -> T;              (* int operand promoted to float *)
  lit_0_1 : T;                  (* the literal 0.1 *)
  lit_1_0 : T;                  (* the literal 1.0 *)
  fmul : T -> T -> T;
  fsub : T -> T -> T;
  fdiv : T -> T -> T;           (* only called on a truthy divisor *)
  fge : T -> T -> bool;         (* a >= b *)
  flt : T -> T -> bool;         (* a < b *)
  truthy : T -> bool;           (* bool(x): x != 0 *)
  to_int : T -> option Z        (* int(x): truncation; None if it raises *)
}.

(** [min(a, b)] of two arguments: [b] when [b < a], else [a]. *)
Definition py_min {T} `{PyFloat T} (a b : T) : T :=
  if flt b a then b else a.

(** Exact arithmetic. *)
#[export] Instance Q_float : PyFloat Q := {
  of_int := inject_Z;
  lit_0_1 := 1 # 10;
  lit_1_0 := 1 # 1;
  fmul := Qmult;
  fsub := Qminus;
  fdiv := Qdiv;
  fge a b := Qle_bool b a;
  flt a b := negb (Qle_bool b a);
  truthy a := negb (Qeq_bool a (0 # 1));
  to_int a := Some (Z.quot (Qnum a) (Zpos (Qden a)))
}.

(** Truncation of a binary64 value, as [int()] does it. *)
Definition float_to_int (x : float) : option Z :=
  match Prim2SF x with
  | S754_zero _ => Some 0
  | S754_finite s m e =>
      let v := if 0 <=? e then Zpos m * 2 ^ e else Zpos m / 2 ^ (- e) in
      Some (if s then - v else v)
  | S754_infinity _ | S754_nan => None
  end.

(** IEEE 754 binary64, as CPython has it. [of_int] is exact on the
    integers the program meets (below 2^53). *)
#[export] Instance binary64_float : PyFloat float := {
  of_int z := PrimFloat.of_uint63 (Uint63.of_Z z);
  lit_0_1 := 0x1.999999999999ap-4%float;
  lit_1_0 := 1%float;
  fmul := PrimFloat.mul;
  fsub := PrimFloat.sub;
  fdiv := PrimFloat.div;
  fge a b := PrimFloat.leb b a;
  flt a b := PrimFloat.ltb a b;
  truthy a := negb (PrimFloat.eqb a 0%float);
  to_int := float_to_int
}.

End Py.
Import Py.

(** ** numpy arrays of samples *)

Module Np.

(** A sample is a float32 value, carried in a binary64 float. *)
Definition sample : Type := float.

(** A one-dimensional array, or a two-dimensional one of shape
    [(length rows, cols)]: one row per frame, one column per channel. *)
Inductive ndarray :=
| A1 (data : list sample)
| A2 (cols : nat) (rows : list (list sample)).

(** [len(a)]: the size of the first axis. *)
Definition len (a : ndarray) : nat :=
  match a with
  | A1 d => length d
  | A2 _ rows => length rows
  end.

Fixpoint concat_1d (acc : list sample) (rest : list ndarray) : result ndarray :=
  match rest with
  | [] => Ok (A1 acc)
  | A1 d :: rest' => concat_1d (acc ++ d) rest'
  | A2 _ _ :: _ => Raise ValueError
  end.

Fixpoint concat_2d (c : nat) (acc : list (list sample)) (rest : list ndarray)
  : result ndarray :=
  match rest with
  | [] => Ok (A2 c acc)
  | A2 c' rows :: rest' =>
      if Nat.eqb c c' then concat_2d c (acc ++ rows) rest' else Raise ValueError
  | A1 _ :: _ => Raise ValueError
  end.

(** [np.concatenate(arrays, axis=0)]: needs one array at least, all of
    the same dimension and of the same size on the other axis. *)
Definition concatenate (arrays : list ndarray) : result ndarray :=
  match arrays with
  | [] => Raise ValueError
  | A1 d :: rest => concat_1d d rest
  | A2 c rows :: rest => concat_2d c rows rest
  end.

(** [a.flatten()]: the entries in row-major order. *)
Definition flatten (a : ndarray) : ndarray :=
  match a with
  | A1 d => A1 d
  | A2 _ rows => A1 (List.concat rows)
  end.

(** The rows of an array, in order: the frames of a chunk. A
    one-dimensional array has one entry per row. *)
Definition rows_of (a : ndarray) : list (list sample) :=
  match a with
  | A1 d => map (fun x => [x]) d
  | A2 _ rows => rows
  end.

(** The entries of an array in row-major order. *)
Definition entries (a : ndarray) : list sample :=
  match a with
  | A1 d => d
  | A2 _ rows => List.concat rows
  end.

End Np.
Import Np.

(** ** file_manager.py: the storage interface *)

Module Storage.

(** The abstract class [FileManager], over the state [F] of a manager and
    of the files it owns: the two operations the recorder calls,
    [create_temp_file(suffix, prefix)] and [write_audio_data(file_path,
    audio_data, sample_rate, channels)]. Each call may raise. *)
Class FileManager (F : Type) := {
  create_temp_file : string -> string -> F -> F * result string;
  write_audio_data : string -> ndarray -> Z -> Z -> F -> F * result bool
}.

End Storage.
Import Storage.

(** ** audio_recorder.py: class AudioRecorder *)

Module Recorder.

(** Where the function [_record_continuously] of a thread stands. The
    thread is created, then started; it opens the input stream, and then
    alternates between the test of the [while] and the body of the loop. *)
Inductive worker_pc :=
| PcCreated     (* Thread object built, start() not yet called *)
| PcOpen        (* started: about to enter the [with sd.InputStream] *)
| PcLoopHead    (* about to test [not self._stop_event.is_set()] *)
| PcRead        (* inside the body: about to call [stream.read] *)
| PcDone.       (* the function has returned *)

(** A [threading.Thread] running [_record_continuously]: the session it
    belongs to, its position, and how many chunks it has read. *)
Record Thread := mkThread {
  t_session : nat;
  t_pc : worker_pc;
  t_reads : nat
}.

(** What the operating system and the sound device do, per session:
    whether [Thread.start] succeeds, whether the stream opens (called with
    sample rate, channels and block size), and what the [i]-th
    [stream.read(frames)] returns: a chunk and the overflow flag. *)
Record Env := mkEnv {
  thread_start : nat -> result unit;
  stream_open : nat -> Z -> Z -> Z -> result unit;
  stream_read : nat -> nat -> Z -> result (ndarray * bool)
}.

Section WithFloatAndStorage.

Context {T : Type} {PF : PyFloat T} {F : Type} {FM : FileManager F}.

(** The fields set by [AudioRecorder.__init__] (the logger apart). *)
Record AudioRecorder := mkRecorder {
  sample_rate : Z;
  channels : Z;
  file_manager : option F;
  max_duration : option T;
  _is_recording : bool;
  _recording_thread : option Thread;
  _audio_data : option (list ndarray);
  _stop_event : bool
}.

(** The recorder, the number of sessions launched so far (the index into
    the environment), and the log. *)
Record World := mkWorld {
  recorder : AudioRecorder;
  session_no : nat;
  logs : list log_record
}.

Definition __init__ (sample_rate : Z) (channels : Z) (file_manager : option F)
    (max_duration : option T) : AudioRecorder :=
  {| sample_rate := sample_rate;
     channels := channels;
     file_manager := file_manager;
     max_duration := max_duration;
     _is_recording := false;
     _recording_thread := None;
     _audio_data := None;
     _stop_event := false |}.

Definition boot (r : AudioRecorder) : World :=
  {| recorder := r; session_no := 0%nat; logs := [] |}.

(** Field assignments. *)
Definition set_file_manager (fm : option F) (r : AudioRecorder) : AudioRecorder :=
  mkRecorder (sample_rate r) (channels r) fm (max_duration r)
    (_is_recording r) (_recording_thread r) (_audio_data r) (_stop_event r).

Definition set_is_recording (b : bool) (r : AudioRecorder) : AudioRecorder :=
  mkRecorder (sample_rate r) (channels r) (file_manager r) (max_duration r)
    b (_recording_thread r) (_audio_data r) (_stop_event r).

Definition set_recording_thread (t : option Thread) (r : AudioRecorder) : AudioRecorder :=
  mkRecorder (sample_rate r) (channels r) (file_manager r) (max_duration r)
    (_is_recording r) t (_audio_data r) (_stop_event r).

Definition set_audio_data (d : option (list ndarray)) (r : AudioRecorder) : AudioRecorder :=
  mkRecorder (sample_rate r) (channels r) (file_manager r) (max_duration r)
    (_is_recording r) (_recording_thread r) d (_stop_event r).

Definition set_stop_event (b : bool) (r : AudioRecorder) : AudioRecorder :=
  mkRecorder (sample_rate r) (channels r) (file_manager r) (max_duration r)
    (_is_recording r) (_recording_thread r) (_audio_data r) b.

Definition with_recorder (f : AudioRecorder -> AudioRecorder) (w : World) : World :=
  mkWorld (f (recorder w)) (session_no w) (logs w).

Definition emit (l : level) (msg : string) (w : World) : World :=
  mkWorld (recorder w) (session_no w) (logs w ++ [(l, msg)]).

Definition next_session (w : World) : World :=
  mkWorld (recorder w) (S (session_no w)) (logs w).

Definition set_pc (pc : worker_pc) (th : Thread) : Thread :=
  mkThread (t_session th) pc (t_reads th).

Definition count_read (th : Thread) : Thread :=
  mkThread (t_session th) (t_pc th) (S (t_reads th)).

(** [chunk_duration = 0.1] and [chunk_frames = int(chunk_duration *
    self.sample_rate)]. *)
Definition chunk_duration : T := lit_0_1.

Definition chunk_frames (r : AudioRecorder) : option Z :=
  to_int (fmul chunk_duration (of_int (sample_rate r))).

(** [total_duration = len(self._audio_data) * chunk_duration]. *)
Definition total_duration (data : list ndarray) : T :=
  fmul (of_int (Z.of_nat (length data))) chunk_duration.

(** The test [self.max_duration and total_duration >= self.max_duration]:
    [None] and a zero are falsy, and then the comparison is not made. *)
Definition cap_reached (max_duration : option T) (data : list ndarray) : bool :=
  match max_duration with
  | None => false
  | Some d => truthy d && fge (total_duration data) d
  end.

(** The [except Exception] clause of [_record_continuously]. *)
Definition worker_failed (th : Thread) (w : World) : World :=
  with_recorder (set_is_recording false)
    (with_recorder (set_recording_thread (Some (set_pc PcDone th)))
       (emit ERROR "Error in continuous recording" w)).

(** One step of the thread that runs [_record_continuously]. *)
Definition worker_step (env : Env) (w : World) : World :=
  let r := recorder w in
  match _recording_thread r with
  | None => w
  | Some th =>
      let goto pc w' := with_recorder (set_recording_thread (Some (set_pc pc th))) w' in
      match t_pc th with
      | PcCreated | PcDone => w
      | PcOpen =>
          match chunk_frames r with
          | None => goto PcDone w      (* int() raised before the [try] *)
          | Some frames =>
              match stream_open env (t_session th) (sample_rate r) (channels r) frames with
              | Ok _ => goto PcLoopHead w
              | Raise _ => worker_failed th w
              end
          end
      | PcLoopHead =>
          if _stop_event r then goto PcDone w else goto PcRead w
      | PcRead =>
          match chunk_frames r with
          | None => goto PcDone w
          | Some frames =>
              match stream_read env (t_session th) (t_reads th) frames with
              | Raise _ => worker_failed th w
              | Ok (audio_chunk, overflowed) =>
                  let th := count_read th in
                  let w := if overflowed
                           then emit WARNING "Audio input overflow detected" w
                           else w in
                  match _audio_data r with
                  | None => worker_failed th w        (* len(None) *)
                  | Some data =>
                      if cap_reached (max_duration r) data
                      then with_recorder (set_recording_thread (Some (set_pc PcDone th)))
                             (emit WARNING "Maximum duration reached" w)
                      else with_recorder (set_recording_thread (Some (set_pc PcLoopHead th)))
                             (with_recorder (set_audio_data (Some (data ++ [audio_chunk]))) w)
                  end
              end
          end
      end
  end.

Definition thread_alive (r : AudioRecorder) : bool :=
  match _recording_thread r with
  | Some th => match t_pc th with PcCreated | PcDone => false | _ => true end
  | None => false
  end.

(** [Thread.join()]: the caller waits while the thread runs. With the stop
    event set the thread returns within three steps: at most the read it
    is in, the test of the loop, and the return. *)
Fixpoint run_worker (fuel : nat) (env : Env) (w : World) : World :=
  match fuel with
  | O => w
  | S fuel' =>
      if thread_alive (recorder w) then run_worker fuel' env (worker_step env w) else w
  end.

Definition join (env : Env) (w : World) : World := run_worker 3 env w.

(** [AudioRecorder._save_audio_data]. *)
Definition _save_audio_data (audio_data : ndarray) (w : World) : World * option string :=
  let r := recorder w in
  match file_manager r with
  | None => (emit ERROR "Failed to save audio data" w, None)   (* None has no methods *)
  | Some fm =>
      match create_temp_file ".wav" "audio_" fm with
      | (fm, Raise _) =>
          (emit ERROR "Failed to save audio data"
             (with_recorder (set_file_manager (Some fm)) w), None)
      | (fm, Ok file_path) =>
          match write_audio_data file_path audio_data (sample_rate r) (channels r) fm with
          | (fm, Raise _) =>
              (emit ERROR "Failed to save audio data"
                 (with_recorder (set_file_manager (Some fm)) w), None)
          | (fm, Ok true) =>
              (emit INFO "Audio saved"
                 (with_recorder (set_file_manager (Some fm)) w), Some file_path)
          | (fm, Ok false) =>
              (emit ERROR "Failed to write audio data"
                 (with_recorder (set_file_manager (Some fm)) w), None)
          end
      end
  end.

(** [AudioRecorder.start_recording]. *)
Definition start_recording (env : Env) (w : World) : World * bool :=
  if _is_recording (recorder w) then
    (emit WARNING "Recording already in progress" w, false)
  else
    let k := session_no w in
    let w := emit INFO "Starting recording" w in
    let w := with_recorder (set_is_recording true) w in
    let w := with_recorder (set_stop_event false) w in
    let w := with_recorder (set_audio_data (Some [])) w in
    let w := with_recorder (set_recording_thread (Some (mkThread k PcCreated 0))) w in
    let w := next_session w in
    match thread_start env k with
    | Ok _ =>
        (with_recorder (set_recording_thread (Some (mkThread k PcOpen 0))) w, true)
    | Raise _ =>
        (with_recorder (set_is_recording false)
           (emit ERROR "Failed to start recording" w), false)
    end.

(** The array [stop_recording] builds from the chunks: concatenated, and
    flattened when the recorder is mono. *)
Definition assemble (r : AudioRecorder) (data : list ndarray) : result ndarray :=
  match concatenate data with
  | Raise e => Raise e
  | Ok audio_data => Ok (if channels r =? 1 then flatten audio_data else audio_data)
  end.

(** The first statements of the [try] of [stop_recording]: the event is
    set, the flag cleared and the thread joined. *)
Definition halt (env : Env) (w : World) : World :=
  let w := emit INFO "Stopping recording" w in
  let w := with_recorder (set_stop_event true) w in
  let w := with_recorder (set_is_recording false) w in
  match _recording_thread (recorder w) with
  | Some _ => join env w
  | None => w
  end.

(** [AudioRecorder.stop_recording]. *)
Definition stop_recording (env : Env) (w : World) : World * option string :=
  if negb (_is_recording (recorder w)) then
    (emit WARNING "No recording in progress" w, None)
  else
    let w := halt env w in
    match _audio_data (recorder w) with
    | Some ((_ :: _) as data) =>
        match assemble (recorder w) data with
        | Ok audio_data => _save_audio_data audio_data w
        | Raise _ => (emit ERROR "Failed to stop recording" w, None)
        end
    | Some [] | None =>
        (emit WARNING "No audio data recorded" w, None)
    end.

(** What can happen to a recorder: a call from the controlling thread, or
    one step of the capture thread. A schedule is a list of these. *)
Inductive action := DoStart | DoStop | DoWork.

Definition act (env : Env) (a : action) (w : World) : World :=
  match a with
  | DoStart => fst (start_recording env w)
  | DoStop => fst (stop_recording env w)
  | DoWork => worker_step env w
  end.

Definition run (env : Env) (schedule : list action) (w : World) : World :=
  fold_left (fun w a => act env a w) schedule w.

(** The chunks in the buffer. *)
Definition captured (w : World) : list ndarray :=
  match _audio_data (recorder w) with
  | Some data => data
  | None => []
  end.

End WithFloatAndStorage.

Arguments AudioRecorder : clear implicits.
Arguments World : clear implicits.

End Recorder.

(** ** audio_recorder.py: class AsyncAudioRecorder *)

Module AsyncRecorder.
Import Recorder.

(** Where the coroutine [_record_continuously_async] of a task stands:
    created and not yet run, suspended at [await asyncio.sleep(0)],
    returned, or ended by an exception raised outside its [try]. *)
Inductive task_pc := TkNew | TkSuspended | TkDone | TkCrashed.

Section WithFloatAndStorage.

Context {T : Type} {PF : PyFloat T} {F : Type} {FM : FileManager F}.

(** An [asyncio.Task]: session, position, chunks read, and the local
    variable [start_time]. *)
Record Task := mkTask {
  k_session : nat;
  k_pc : task_pc;
  k_reads : nat;
  k_start_time : option T
}.

(** The environment of the cooperative recorder: whether
    [asyncio.create_task] succeeds, the sound device, and the successive
    readings of the event loop's clock. *)
Record AEnv := mkAEnv {
  create_task : nat -> result unit;
  device : Env;
  loop_time : nat -> T
}.

(** A call of [stop_recording] that is suspended: at
    [await self._async_task] it waits for the end of the task it found in
    the field (named here by its session), at
    [await loop.run_in_executor(...)] for the worker thread that saves the
    samples it assembled. *)
Inductive suspended_stop :=
| AwaitsTask (session : nat)
| AwaitsSave (audio_data : ndarray).

(** The fields inherited from [AudioRecorder] (with the session count and
    the log), the two fields [AsyncAudioRecorder.__init__] adds, the
    number of clock readings made, and the values the progress callback
    has been called with. Then what the event loop holds besides the
    object: the tasks of earlier sessions, which [start_recording] took
    out of the field [_async_task] without ending them, the calls of
    [stop_recording] that are suspended, and what the calls that
    completed have returned. *)
Record AWorld := mkAWorld {
  inherited : World T F;
  _async_task : option Task;
  _progress_callback : option (T -> result unit);
  time_reads : nat;
  progress_calls : list T;
  earlier_tasks : list Task;
  suspended_stops : list suspended_stop;
  stop_returns : list (option string)
}.

Definition a__init__ (sample_rate : Z) (channels : Z) (file_manager : option F)
    (max_duration : option T) : AWorld :=
  {| inherited := boot (__init__ sample_rate channels file_manager max_duration);
     _async_task := None;
     _progress_callback := None;
     time_reads := 0%nat;
     progress_calls := [];
     earlier_tasks := [];
     suspended_stops := [];
     stop_returns := [] |}.

Definition with_inherited (f : World T F -> World T F) (a : AWorld) : AWorld :=
  mkAWorld (f (inherited a)) (_async_task a) (_progress_callback a)
    (time_reads a) (progress_calls a)
    (earlier_tasks a) (suspended_stops a) (stop_returns a).

Definition set_async_task (t : option Task) (a : AWorld) : AWorld :=
  mkAWorld (inherited a) t (_progress_callback a) (time_reads a) (progress_calls a)
    (earlier_tasks a) (suspended_stops a) (stop_returns a).

Definition set_progress_callback (cb : option (T -> result unit)) (a : AWorld) : AWorld :=
  mkAWorld (inherited a) (_async_task a) cb (time_reads a) (progress_calls a)
    (earlier_tasks a) (suspended_stops a) (stop_returns a).

Definition tick_clock (a : AWorld) : AWorld :=
  mkAWorld (inherited a) (_async_task a) (_progress_callback a)
    (S (time_reads a)) (progress_calls a)
    (earlier_tasks a) (suspended_stops a) (stop_returns a).

Definition called_with (v : T) (a : AWorld) : AWorld :=
  mkAWorld (inherited a) (_async_task a) (_progress_callback a)
    (time_reads a) (progress_calls a ++ [v])
    (earlier_tasks a) (suspended_stops a) (stop_returns a).

Definition set_earlier_tasks (tasks : list Task) (a : AWorld) : AWorld :=
  mkAWorld (inherited a) (_async_task a) (_progress_callback a)
    (time_reads a) (progress_calls a)
    tasks (suspended_stops a) (stop_returns a).

Definition set_suspended_stops (stops : list suspended_stop) (a : AWorld) : AWorld :=
  mkAWorld (inherited a) (_async_task a) (_progress_callback a)
    (time_reads a) (progress_calls a)
    (earlier_tasks a) stops (stop_returns a).

(** A call of [stop_recording] returns [v]. *)
Definition stop_returned (v : option string) (a : AWorld) : AWorld :=
  mkAWorld (inherited a) (_async_task a) (_progress_callback a)
    (time_reads a) (progress_calls a)
    (earlier_tasks a) (suspended_stops a) (stop_returns a ++ [v]).

(** A call of [stop_recording] is suspended. *)
Definition suspend_stop (s : suspended_stop) (a : AWorld) : AWorld :=
  set_suspended_stops (suspended_stops a ++ [s]) a.

(** The assignment [self._async_task = asyncio.create_task(...)]: the
    task the field referred to stays with the event loop. *)
Definition replace_task (tk : Task) (a : AWorld) : AWorld :=
  let a := match _async_task a with
           | Some old => set_earlier_tasks (earlier_tasks a ++ [old]) a
           | None => a
           end in
  set_async_task (Some tk) a.

Definition set_kpc (pc : task_pc) (tk : Task) : Task :=
  mkTask (k_session tk) pc (k_reads tk) (k_start_time tk).

Definition count_kread (tk : Task) : Task :=
  mkTask (k_session tk) (k_pc tk) (S (k_reads tk)) (k_start_time tk).

Definition set_start_time (t : T) (tk : Task) : Task :=
  mkTask (k_session tk) (k_pc tk) (k_reads tk) (Some t).

Definition rec_of (a : AWorld) : AudioRecorder T F := recorder (inherited a).

(** The [except Exception] clause of [_record_continuously_async]. *)
Definition task_failed (tk : Task) (a : AWorld) : AWorld :=
  with_inherited (with_recorder (set_is_recording false))
    (set_async_task (Some (set_kpc TkDone tk))
       (with_inherited (emit ERROR "Error in async continuous recording") a)).

(** The value handed to the progress callback. *)
Definition progress_value (max_duration : option T) (elapsed : T) : T :=
  match max_duration with
  | Some d => if truthy d then py_min (fdiv elapsed d) lit_1_0 else elapsed
  | None => elapsed
  end.

(** From the test of the [while] to the next suspension or to the end. *)
Definition loop_iteration (env : AEnv) (tk : Task) (a : AWorld) : AWorld :=
  let r := rec_of a in
  if _stop_event r then set_async_task (Some (set_kpc TkDone tk)) a
  else
    match chunk_frames r with
    | None => set_async_task (Some (set_kpc TkCrashed tk)) a
    | Some frames =>
        match stream_read (device env) (k_session tk) (k_reads tk) frames with
        | Raise _ => task_failed tk a
        | Ok (audio_chunk, overflowed) =>
            let tk := count_kread tk in
            let a := if overflowed
                     then with_inherited (emit WARNING "Audio input overflow detected") a
                     else a in
            match _audio_data r with
            | None => task_failed tk a
            | Some data =>
                if cap_reached (max_duration r) data then
                  set_async_task (Some (set_kpc TkDone tk))
                    (with_inherited (emit WARNING "Maximum duration reached") a)
                else
                  let a := with_inherited
                             (with_recorder (set_audio_data (Some (data ++ [audio_chunk])))) a in
                  match _progress_callback a with
                  | None => set_async_task (Some (set_kpc TkSuspended tk)) a
                  | Some callback =>
                      let current_time := loop_time env (time_reads a) in
                      let a := tick_clock a in
                      match k_start_time tk with
                      | None => task_failed tk a
                      | Some start_time =>
                          let elapsed := fsub current_time start_time in
                          let progress := progress_value (max_duration r) elapsed in
                          let a := called_with progress a in
                          match callback progress with
                          | Ok _ => set_async_task (Some (set_kpc TkSuspended tk)) a
                          | Raise _ => task_failed tk a
                          end
                      end
                  end
            end
        end
    end.

(** One scheduling slice of the task: it runs until it yields or ends. *)
Definition task_step (env : AEnv) (a : AWorld) : AWorld :=
  match _async_task a with
  | None => a
  | Some tk =>
      match k_pc tk with
      | TkDone | TkCrashed => a
      | TkSuspended => loop_iteration env tk a
      | TkNew =>
          let r := rec_of a in
          match chunk_frames r with
          | None => set_async_task (Some (set_kpc TkCrashed tk)) a
          | Some frames =>
              let tk := set_start_time (loop_time env (time_reads a)) tk in
              let a := tick_clock a in
              match stream_open (device env) (k_session tk)
                      (sample_rate r) (channels r) frames with
              | Raise _ => task_failed tk a
              | Ok _ => loop_iteration env tk a
              end
          end
      end
  end.

Definition task_pending (a : AWorld) : bool :=
  match _async_task a with
  | Some tk => match k_pc tk with TkNew | TkSuspended => true | _ => false end
  | None => false
  end.

(** [AsyncAudioRecorder.start_recording]. *)
Definition start_recording_async (env : AEnv)
    (progress_callback : option (T -> result unit)) (a : AWorld) : AWorld * bool :=
  if _is_recording (rec_of a) then
    (with_inherited (emit WARNING "Recording already in progress") a, false)
  else
    let k := session_no (inherited a) in
    let a := with_inherited (emit INFO "Starting async recording") a in
    let a := with_inherited (with_recorder (set_is_recording true)) a in
    let a := with_inherited (with_recorder (set_stop_event false)) a in
    let a := with_inherited (with_recorder (set_audio_data (Some []))) a in
    let a := set_progress_callback progress_callback a in
    let a := with_inherited next_session a in
    match create_task env k with
    | Ok _ => (replace_task (mkTask k TkNew 0 None) a, true)
    | Raise _ =>
        (with_inherited (with_recorder (set_is_recording false))
           (with_inherited (emit ERROR "Failed to start async recording") a), false)
    end.

(** The task of session [k], in the field or among the earlier ones. *)
Definition find_task (k : nat) (a : AWorld) : option Task :=
  match _async_task a with
  | Some tk =>
      if Nat.eqb (k_session tk) k then Some tk
      else List.find (fun tk => Nat.eqb (k_session tk) k) (earlier_tasks a)
  | None => List.find (fun tk => Nat.eqb (k_session tk) k) (earlier_tasks a)
  end.

(** The [except Exception] clause of the asynchronous [stop_recording]. *)
Definition stop_failed (a : AWorld) : AWorld :=
  stop_returned None (with_inherited (emit ERROR "Failed to stop async recording") a).

(** [stop_recording] from the statement after [await self._async_task]
    to [await loop.run_in_executor(...)], where the call is suspended
    while a worker thread saves the samples, or to its [return None]. *)
Definition after_task (a : AWorld) : AWorld :=
  match _audio_data (rec_of a) with
  | Some ((_ :: _) as data) =>
      match assemble (rec_of a) data with
      | Ok audio_data => suspend_stop (AwaitsSave audio_data) a
      | Raise _ => stop_failed a
      end
  | Some [] | None =>
      stop_returned None (with_inherited (emit WARNING "No audio data recorded") a)
  end.

(** [await self._async_task] on the task [tk]: a task that has returned
    lets the call go on at once, one that ended by an exception raises it
    in the call, a task still running suspends the call. *)
Definition await_task (tk : Task) (a : AWorld) : AWorld :=
  match k_pc tk with
  | TkDone => after_task a
  | TkCrashed => stop_failed a
  | TkNew | TkSuspended => suspend_stop (AwaitsTask (k_session tk)) a
  end.

(** A call of [AsyncAudioRecorder.stop_recording], up to the point where
    it returns or is suspended for the first time. *)
Definition stop_recording_async (a : AWorld) : AWorld :=
  if negb (_is_recording (rec_of a)) then
    stop_returned None (with_inherited (emit WARNING "No recording in progress") a)
  else
    let a := with_inherited (emit INFO "Stopping async recording") a in
    let a := with_inherited (with_recorder (set_stop_event true)) a in
    let a := with_inherited (with_recorder (set_is_recording false)) a in
    match _async_task a with
    | Some tk => await_task tk a
    | None => after_task a
    end.

(** The event loop resumes the [i]-th suspended call of [stop_recording],
    which goes on when what it awaits is over and stays suspended
    otherwise. The run of [_save_audio_data] in the worker thread is
    placed here, at the moment the call receives its result: it works on
    the samples handed to it, the file manager and the log, and on
    nothing the coroutines of the loop write. *)
Definition resume_stop (i : nat) (a : AWorld) : AWorld :=
  match suspended_stops a !! i with
  | None => a
  | Some (AwaitsTask k) =>
      match find_task k a with
      | Some tk =>
          match k_pc tk with
          | TkNew | TkSuspended => a
          | TkDone | TkCrashed =>
              await_task tk (set_suspended_stops (delete i (suspended_stops a)) a)
          end
      | None => a
      end
  | Some (AwaitsSave audio_data) =>
      let a := set_suspended_stops (delete i (suspended_stops a)) a in
      let (w, path) := _save_audio_data audio_data (inherited a) in
      stop_returned path (with_inherited (fun _ => w) a)
  end.

(** One scheduling slice of the [i]-th earlier task. It runs the same
    coroutine on the same object as the task of the field, so the field
    is lent to it for the slice. *)
Definition earlier_task_step (env : AEnv) (i : nat) (a : AWorld) : AWorld :=
  match earlier_tasks a !! i with
  | None => a
  | Some tk =>
      let a' := task_step env (set_async_task (Some tk) a) in
      let tk' := match _async_task a' with Some tk' => tk' | None => tk end in
      set_earlier_tasks (<[i := tk']> (earlier_tasks a')) (set_async_task (_async_task a) a')
  end.

(** What the event loop runs next: a call of [start_recording], which
    never suspends; a call of [stop_recording] up to its first
    suspension; a slice of the task of the field or of an earlier task;
    the resumption of a suspended call of [stop_recording]. *)
Inductive a_action :=
| ADoStart (progress_callback : option (T -> result unit))
| ADoStop
| ADoSlice
| ADoEarlierSlice (i : nat)
| ADoResume (i : nat).

Definition a_act (env : AEnv) (x : a_action) (a : AWorld) : AWorld :=
  match x with
  | ADoStart cb => fst (start_recording_async env cb a)
  | ADoStop => stop_recording_async a
  | ADoSlice => task_step env a
  | ADoEarlierSlice i => earlier_task_step env i a
  | ADoResume i => resume_stop i a
  end.

Definition a_run (env : AEnv) (schedule : list a_action) (a : AWorld) : AWorld :=
  fold_left (fun a x => a_act env x a) schedule a.

End WithFloatAndStorage.

Arguments Task : clear implicits.
Arguments AEnv : clear implicits.
Arguments AWorld : clear implicits.
Arguments a_action : clear implicits.

End AsyncRecorder.

(** ** hotkey_listener.py *)

Module Hotkey.

(** The keys of [pynput.keyboard] the listener tells apart; every other
    key is [other_key] with its code. *)
Inductive Key :=
| ctrl_l | ctrl_r | shift_l | shift_r | space
| other_key (code : nat).

#[export] Instance Key_eq_dec : EqDecision Key.
Proof. solve_decision. Defined.

Definition key_code (k : Key) : nat :=
  match k with
  | ctrl_l => 0 | ctrl_r => 1 | shift_l => 2 | shift_r => 3 | space => 4
  | other_key n => 5 + n
  end.

Definition key_of_code (n : nat) : Key :=
  match n with
  | 0%nat => ctrl_l | 1%nat => ctrl_r | 2%nat => shift_l | 3%nat => shift_r
  | 4%nat => space
  | S (S (S (S (S m)))) => other_key m
  end.

#[export] Instance Key_countable : Countable Key.
Proof.
  apply (inj_countable' key_code key_of_code).
  intros []; reflexivity.
Defined.

(** What the operating system reports to the listener. *)
Inductive key_event :=
| Press (k : Key)
| Release (k : Key).

Section WithApplication.

(** The state the callback acts on. The callback may raise after having
    changed it. *)
Context {A : Type}.

Record HotkeyListener := mkListener {
  hotkey_callback : A -> A * result unit;
  pressed_keys : gset Key;
  target_keys : gset Key;
  alt_target_keys : gset Key
}.

(** The listener, the application behind the callback, and the log. *)
Record HWorld := mkHWorld {
  listener : HotkeyListener;
  app : A;
  hlogs : list log_record
}.

Definition h__init__ (hotkey_callback : A -> A * result unit) : HotkeyListener :=
  {| hotkey_callback := hotkey_callback;
     pressed_keys := ∅;
     target_keys := {[ ctrl_l; shift_l; space ]};
     alt_target_keys := {[ ctrl_r; shift_r; space ]} |}.

Definition set_pressed_keys (s : gset Key) (l : HotkeyListener) : HotkeyListener :=
  mkListener (hotkey_callback l) s (target_keys l) (alt_target_keys l).

Definition _mixed_modifier_combination (l : HotkeyListener) : bool :=
  let has_ctrl := bool_decide (ctrl_l ∈ pressed_keys l) || bool_decide (ctrl_r ∈ pressed_keys l) in
  let has_shift := bool_decide (shift_l ∈ pressed_keys l) || bool_decide (shift_r ∈ pressed_keys l) in
  let has_space := bool_decide (space ∈ pressed_keys l) in
  has_ctrl && has_shift && has_space.

Definition _is_hotkey_pressed (l : HotkeyListener) : bool :=
  bool_decide (target_keys l ⊆ pressed_keys l)
  || bool_decide (alt_target_keys l ⊆ pressed_keys l)
  || _mixed_modifier_combination l.

Definition _on_key_press (key : Key) (w : HWorld) : HWorld :=
  let l := set_pressed_keys ({[ key ]} ∪ pressed_keys (listener w)) (listener w) in
  if _is_hotkey_pressed l then
    let logs := hlogs w ++ [(INFO, "Hotkey combination detected")] in
    match hotkey_callback l (app w) with
    | (app', Ok _) => mkHWorld l app' logs
    | (app', Raise _) => mkHWorld l app' (logs ++ [(ERROR, "Error in hotkey callback")])
    end
  else mkHWorld l (app w) (hlogs w).

Definition _on_key_release (key : Key) (w : HWorld) : HWorld :=
  mkHWorld (set_pressed_keys (pressed_keys (listener w) ∖ {[ key ]}) (listener w))
    (app w) (hlogs w).

(** The listener thread delivers the events one after the other. *)
Definition deliver (e : key_event) (w : HWorld) : HWorld :=
  match e with
  | Press k => _on_key_press k w
  | Release k => _on_key_release k w
  end.

Definition deliver_all (events : list key_event) (w : HWorld) : HWorld :=
  fold_left (fun w e => deliver e w) events w.

End WithApplication.

Arguments HotkeyListener : clear implicits.
Arguments HWorld : clear implicits.

(** The listener still has the two key sets [__init__] gave it. *)
Definition targets_set {A : Type} (l : HotkeyListener A) : Prop :=
  target_keys l = {[ ctrl_l; shift_l; space ]}
  /\ alt_target_keys l = {[ ctrl_r; shift_r; space ]}.

(** *** The specification's reading of the listener *)

(** Ctrl+Shift+Space is fully pressed: a Ctrl key, a Shift key and Space
    are down. *)
Definition combination_down (down : gset Key) : bool :=
  bool_decide ((ctrl_l ∈ down ∨ ctrl_r ∈ down)
               ∧ (shift_l ∈ down ∨ shift_r ∈ down)
               ∧ space ∈ down).

(** The keys held down after an event. *)
Definition keys_after (e : key_event) (down : gset Key) : gset Key :=
  match e with
  | Press k => {[ k ]} ∪ down
  | Release k => down ∖ {[ k ]}
  end.

(** The number of edges in a sequence of events: the events at which the
    combination, not fully pressed before, becomes fully pressed. *)
Fixpoint edges (events : list key_event) (down : gset Key) : nat :=
  match events with
  | [] => 0
  | e :: rest =>
      let down' := keys_after e down in
      (if negb (combination_down down) && combination_down down' then 1 else 0)%nat
      + edges rest down'
  end.

(** The number of press events after which the combination is fully
    pressed, whether or not it was before. *)
Fixpoint presses_while_down (events : list key_event) (down : gset Key) : nat :=
  match events with
  | [] => 0
  | e :: rest =>
      let down' := keys_after e down in
      (match e with
       | Press _ => if combination_down down' then 1 else 0
       | Release _ => 0
       end)%nat
      + presses_while_down rest down'
  end.

(** No press event arrives while the combination is already fully
    pressed: no auto-repeat of a held key, no other key struck. *)
Fixpoint no_press_while_down (events : list key_event) (down : gset Key) : bool :=
  match events with
  | [] => true
  | e :: rest =>
      (match e with
       | Press _ => negb (combination_down down)
       | Release _ => true
       end)
      && no_press_while_down rest (keys_after e down)
  end.

(** A callback that counts its invocations. *)
Definition counting_callback (n : nat) : nat * result unit := (S n, Ok tt).

Definition invocations (events : list key_event) : nat :=
  app (deliver_all events (mkHWorld (h__init__ counting_callback) 0%nat [])).

End Hotkey.

(** ** voice_input.py: the session state machine *)

Module VoiceInput.
Import Recorder.

Inductive SystemState := IDLE | RECORDING | PROCESSING.

(** The two collaborators the controller calls after a capture, over
    their joint state [C]. [TranscriptionHandler.transcribe_audio] returns
    the text or [None]; it looks for the audio file, and removes it, in
    the file system the file manager of the recorder wrote it to, which
    the model keeps with that manager. [KeyboardController.type_text]
    returns a [bool]. Both handle their exceptions themselves. *)
Class Collaborators (F C : Type) := {
  transcribe_audio : string -> option F -> C -> option F * C * option string;
  type_text : string -> C -> C * bool
}.

Section WithComponents.

Context {T : Type} {PF : PyFloat T} {F : Type} {FM : FileManager F}
        {C : Type} {CO : Collaborators F C}.

(** The controller: its state, the recorder it owns, its collaborators,
    its own log, and the standard output: what it holds, and whether it
    takes a further text or the [print] raises ([UnicodeEncodeError] on a
    text its encoding lacks, [OSError] on a closed pipe).
    [state_writes] is a history variable: the values assigned to
    [self.state], in order. *)
Record VoiceInputSystem := mkSystem {
  state : SystemState;
  audio_recorder : World T F;
  services : C;
  vlogs : list log_record;
  stdout : list string;
  sys_stdout : list string -> string -> result unit;
  state_writes : list SystemState
}.

(** [VoiceInputSystem.__init__]: the recorder is built with the default
    sample rate and channel count and the given cap. *)
Definition v__init__ (max_recording_duration : Z) (file_manager : F) (services : C)
    (sys_stdout : list string -> string -> result unit) : VoiceInputSystem :=
  {| state := IDLE;
     audio_recorder :=
       boot (__init__ 16000 1 (Some file_manager) (Some (of_int max_recording_duration)));
     services := services;
     vlogs := [];
     stdout := [];
     sys_stdout := sys_stdout;
     state_writes := [IDLE] |}.

Definition assign_state (s : SystemState) (v : VoiceInputSystem) : VoiceInputSystem :=
  mkSystem s (audio_recorder v) (services v) (vlogs v) (stdout v) (sys_stdout v)
    (state_writes v ++ [s]).

Definition set_audio_recorder (w : World T F) (v : VoiceInputSystem) : VoiceInputSystem :=
  mkSystem (state v) w (services v) (vlogs v) (stdout v) (sys_stdout v) (state_writes v).

Definition set_services (c : C) (v : VoiceInputSystem) : VoiceInputSystem :=
  mkSystem (state v) (audio_recorder v) c (vlogs v) (stdout v) (sys_stdout v)
    (state_writes v).

Definition vlog (l : level) (msg : string) (v : VoiceInputSystem) : VoiceInputSystem :=
  mkSystem (state v) (audio_recorder v) (services v) (vlogs v ++ [(l, msg)])
    (stdout v) (sys_stdout v) (state_writes v).

(** A method of the controller: the new state, and whether the method
    returned or an exception left it. *)
Definition Method : Type := VoiceInputSystem -> VoiceInputSystem * result unit.

(** A statement that cannot raise. *)
Definition always (f : VoiceInputSystem -> VoiceInputSystem) : Method :=
  fun v => (f v, Ok tt).

(** Statements in sequence: an exception skips those that follow. *)
Fixpoint block (statements : list Method) : Method :=
  fun v =>
    match statements with
    | [] => (v, Ok tt)
    | statement :: rest =>
        match statement v with
        | (v', Ok _) => block rest v'
        | (v', Raise e) => (v', Raise e)
        end
    end.

(** [print(msg)]. *)
Definition print (msg : string) : Method :=
  fun v =>
    match sys_stdout v (stdout v) msg with
    | Ok _ =>
        (mkSystem (state v) (audio_recorder v) (services v) (vlogs v)
           (stdout v ++ [msg]) (sys_stdout v) (state_writes v), Ok tt)
    | Raise e => (v, Raise e)
    end.

(** Truth value of an [Optional[str]]. *)
Definition truthy_str (o : option string) : option string :=
  match o with
  | Some s => if str_truthy s then Some s else None
  | None => None
  end.

(** The file manager the recorder holds, shared with the controller. *)
Definition shared_file_manager (v : VoiceInputSystem) : option F :=
  file_manager (recorder (audio_recorder v)).

Definition set_shared_file_manager (fm : option F) (v : VoiceInputSystem)
  : VoiceInputSystem :=
  set_audio_recorder (with_recorder (set_file_manager fm) (audio_recorder v)) v.

Definition _start_recording (env : Env) : Method :=
  block
    [ always (vlog INFO "Recording started...");
      print "Recording started...";
      fun v =>
        let (w, started) := start_recording env (audio_recorder v) in
        let v := set_audio_recorder w v in
        if started then always (assign_state RECORDING) v
        else block [ always (vlog ERROR "Failed to start recording");
                     print "Failed to start recording" ] v ].

(** The statements of [_stop_recording_and_process] once the audio file
    is there. *)
Definition transcribe_and_type (audio_file : string) : Method :=
  fun v =>
    let '(fm, c, transcribed_text) :=
      transcribe_audio audio_file (shared_file_manager v) (services v) in
    let v := set_services c (set_shared_file_manager fm v) in
    block
      [ match truthy_str transcribed_text with
        | Some transcribed_text =>
            block
              [ always (vlog INFO "Transcribed");
                print ("Transcribed: '" ++ transcribed_text ++ "'")%string;
                fun v =>
                  let (c, typed) := type_text transcribed_text (services v) in
                  let v := set_services c v in
                  if typed then always (vlog INFO "Text typed successfully") v
                  else block [ always (vlog ERROR "Failed to type text");
                               print "Failed to type text" ] v ]
        | None =>
            block
              [ always (vlog WARNING "Transcription failed or resulted in empty text");
                print "Could not transcribe audio" ]
        end;
        always (assign_state IDLE);
        always (vlog INFO "Ready for next recording") ] v.

Definition _stop_recording_and_process (env : Env) : Method :=
  block
    [ always (vlog INFO "Processing...");
      print "Processing...";
      always (assign_state PROCESSING);
      fun v =>
        let (w, audio_file) := stop_recording env (audio_recorder v) in
        let v := set_audio_recorder w v in
        match truthy_str audio_file with
        | None =>
            block [ always (vlog WARNING "No audio file generated");
                    print "No audio recorded";
                    always (assign_state IDLE) ] v
        | Some audio_file => transcribe_and_type audio_file v
        end ].

Definition _on_hotkey_pressed (env : Env) : Method :=
  fun v =>
    match state v with
    | IDLE => _start_recording env v
    | RECORDING => _stop_recording_and_process env v
    | PROCESSING =>
        always (vlog WARNING "Hotkey pressed while in processing state - ignoring") v
    end.

(** [n] hotkeys in a row, each handled to its end. The listener calls
    [_on_hotkey_pressed] inside a [try] and logs what it raises, so the
    controller goes on from the state an exception left. *)
Definition presses (env : Env) (n : nat) (v : VoiceInputSystem) : VoiceInputSystem :=
  Nat.iter n (fun v => fst (_on_hotkey_pressed env v)) v.

End WithComponents.

Arguments VoiceInputSystem : clear implicits.
Arguments Method : clear implicits.

End VoiceInput.

(** ** file_manager.py: TempFileManager and CustomDirFileManager *)

Module FileManagers.

(** *** Calling a Python function *)

(** Binding the arguments of a call to the parameters of a function whose
    parameters (after [self]) are all positional-or-keyword and without
    default. A surplus positional argument, a keyword that names no
    parameter, a parameter given twice or a parameter left unbound raise
    [TypeError]; the body does not run. Values are strings here. *)
Fixpoint bind_positional (params : list string) (args : list string)
  : result (list (string * string) * list string) :=
  match args, params with
  | [], _ => Ok ([], params)
  | _ :: _, [] => Raise TypeError
  | a :: args', p :: params' =>
      match bind_positional params' args' with
      | Ok (bound, unbound) => Ok ((p, a) :: bound, unbound)
      | Raise e => Raise e
      end
  end.

Fixpoint bind_keywords (unbound : list string) (kwargs : list (string * string))
  : result (list (string * string) * list string) :=
  match kwargs with
  | [] => Ok ([], unbound)
  | (k, v) :: kwargs' =>
      if bool_decide (k ∈ unbound) then
        match bind_keywords (List.filter (fun p => negb (String.eqb p k)) unbound) kwargs' with
        | Ok (bound, unbound') => Ok ((k, v) :: bound, unbound')
        | Raise e => Raise e
        end
      else Raise TypeError
  end.

Definition bind_arguments (params : list string) (args : list string)
    (kwargs : list (string * string)) : result (list (string * string)) :=
  match bind_positional params args with
  | Raise e => Raise e
  | Ok (bound, unbound) =>
      match bind_keywords unbound kwargs with
      | Raise e => Raise e
      | Ok (bound', []) => Ok (bound ++ bound')
      | Ok (_, _ :: _) => Raise TypeError
      end
  end.

Definition argument (name : string) (bound : list (string * string)) : string :=
  match List.find (fun b => String.eqb (fst b) name) bound with
  | Some (_, v) => v
  | None => ""
  end.

(** *** The machine the managers run on *)

(** What a written audio file holds: nothing yet, what [soundfile.write]
    was given, what the [wave] fallback was given, or what a write that
    raised has left, which is no recording. *)
Inductive wav :=
| EmptyFile
| SoundfileWav (data : ndarray) (rate : Z)
| WaveInt16 (data : ndarray) (channels rate : Z)
| Garbage.

(** What becomes of a write: [soundfile] is there and writes; it cannot
    be imported and the [wave] fallback writes; [soundfile.write] raises;
    or the import fails and the fallback raises. A write that raises
    leaves the file as it was ([None]) or with some content. *)
Inductive soundfile_status :=
| SfWorks
| SfMissing
| SfFails (leftover : option wav)
| SfMissingWaveFails (leftover : option wav).

(** Directories and files, the system's temporary directory, a counter
    standing for the random names of [uuid4] and [mkstemp], whether
    [soundfile] can be imported and works, and the error, if any, with
    which the system refuses to create a directory. *)
Record Host := mkHost {
  dirs : gset string;
  disk : gmap string wav;
  tempdir : string;
  entropy : nat;
  soundfile : soundfile_status;
  refuses : string -> option exn
}.

Definition set_dirs (d : gset string) (h : Host) : Host :=
  mkHost d (disk h) (tempdir h) (entropy h) (soundfile h) (refuses h).

Definition set_disk (f : gmap string wav) (h : Host) : Host :=
  mkHost (dirs h) f (tempdir h) (entropy h) (soundfile h) (refuses h).

Definition draw (h : Host) : Host * string :=
  (mkHost (dirs h) (disk h) (tempdir h) (S (entropy h)) (soundfile h) (refuses h),
   NilEmpty.string_of_uint (Nat.to_uint (entropy h))).

Definition path_exists (path : string) (h : Host) : bool :=
  bool_decide (path ∈ dirs h) || bool_decide (is_Some (disk h !! path)).

(** [os.makedirs(name, exist_ok=...)]. The empty path names nothing. *)
Definition makedirs (name : string) (exist_ok : bool) (h : Host) : result Host :=
  if String.eqb name "" then Raise FileNotFoundError
  else if path_exists name h then
    (if exist_ok && bool_decide (name ∈ dirs h) then Ok h else Raise FileExistsError)
  else
    match refuses h name with
    | Some e => Raise e
    | None => Ok (set_dirs ({[ name ]} ∪ dirs h) h)
    end.

Definition path_join (a b : string) : string := (a ++ "/" ++ b)%string.

(** *** The two classes *)

Record TempFileManager := mkTempFileManager { temp_dir : string }.

(** [def __init__(self)] of [TempFileManager]: no parameter after [self]. *)
Definition TempFileManager_params : list string := [].

Definition TempFileManager__init__ (args : list string) (kwargs : list (string * string))
    (h : Host) : Host * result TempFileManager :=
  match bind_arguments TempFileManager_params args kwargs with
  | Raise e => (h, Raise e)
  | Ok _ =>
      let base_temp_dir := tempdir h in
      let (h, hex) := draw h in
      let random_subdir := ("mic_to_keyboard_" ++ hex)%string in
      let temp_dir := path_join base_temp_dir random_subdir in
      match makedirs temp_dir true h with
      | Raise e => (h, Raise e)
      | Ok h => (h, Ok (mkTempFileManager temp_dir))
      end
  end.

(** [def __init__(self, directory)] of [CustomDirFileManager]. *)
Definition CustomDirFileManager_params : list string := ["directory"].

Definition CustomDirFileManager__init__ (args : list string)
    (kwargs : list (string * string)) (h : Host) : Host * result TempFileManager :=
  match bind_arguments CustomDirFileManager_params args kwargs with
  | Raise e => (h, Raise e)
  | Ok bound =>
      let directory := argument "directory" bound in
      let created :=
        if negb (path_exists directory h) then makedirs directory false h else Ok h in
      match created with
      | Raise e => (h, Raise e)
      | Ok h => TempFileManager__init__ [] [("temp_dir", directory)] h   (* super().__init__ *)
      end
  end.

(** [CustomDirFileManager(directory)]. *)
Definition CustomDirFileManager (directory : string) (h : Host)
  : Host * result TempFileManager :=
  CustomDirFileManager__init__ [directory] [] h.

(** A manager with the machine it writes to. *)
Record TempStore := mkTempStore {
  manager : TempFileManager;
  host : Host
}.

(** [TempFileManager.create_temp_file]: [mkstemp] makes an empty file with
    a fresh name in [temp_dir], which has to exist. *)
Definition create_temp_file_impl (suffix prefix : string) (s : TempStore)
  : TempStore * result string :=
  let dir := temp_dir (manager s) in
  if bool_decide (dir ∈ dirs (host s)) then
    let (h, name) := draw (host s) in
    let temp_path := path_join dir (prefix ++ name ++ suffix)%string in
    (mkTempStore (manager s) (set_disk (<[ temp_path := EmptyFile ]> (disk h)) h),
     Ok temp_path)
  else (s, Raise FileNotFoundError).

(** [TempFileManager.write_audio_data]: through [soundfile], through
    [wave] when the import fails; an exception of either write gives
    [False]. *)
Definition write_audio_data_impl (file_path : string) (audio_data : ndarray)
    (sample_rate channels : Z) (s : TempStore) : TempStore * result bool :=
  let h := host s in
  match soundfile h with
  | SfWorks =>
      (mkTempStore (manager s)
         (set_disk (<[ file_path := SoundfileWav audio_data sample_rate ]> (disk h)) h),
       Ok true)
  | SfMissing =>
      (mkTempStore (manager s)
         (set_disk (<[ file_path := WaveInt16 audio_data channels sample_rate ]> (disk h)) h),
       Ok true)
  | SfFails leftover | SfMissingWaveFails leftover =>
      (mkTempStore (manager s)
         (set_disk (match leftover with
                    | Some content => <[ file_path := content ]> (disk h)
                    | None => disk h
                    end) h),
       Ok false)
  end.

(** Of the four operations of the abstract class the recorder calls these
    two. *)
#[export] Instance temp_store_manager : Storage.FileManager TempStore := {
  Storage.create_temp_file := create_temp_file_impl;
  Storage.write_audio_data := write_audio_data_impl
}.

End FileManagers.

(** ** transcription_handler.py and keyboard_controller.py *)

Module Services.
Import VoiceInput FileManagers.

(** *** White space *)

(** A [str] is carried as its UTF-8 bytes. The code points for which
    [str.isspace()] holds, which are those [str.strip()] removes:
    U+0009 to U+000D, U+001C to U+001F, U+0020, U+0085, U+00A0, U+1680,
    U+2000 to U+200A, U+2028, U+2029, U+202F, U+205F and U+3000. *)
Definition white_space_code_points : list N :=
  [9; 10; 11; 12; 13; 28; 29; 30; 31; 32; 133; 160; 5760;
   8192; 8193; 8194; 8195; 8196; 8197; 8198; 8199; 8200; 8201; 8202;
   8232; 8233; 8239; 8287; 12288]%N.

(** UTF-8 of a code point below U+10000. *)
Definition utf8 (n : N) : list ascii :=
  if (n <? 128)%N then [ascii_of_N n]
  else if (n <? 2048)%N then
    [ascii_of_N (192 + n / 64); ascii_of_N (128 + n mod 64)]
  else
    [ascii_of_N (224 + n / 4096); ascii_of_N (128 + (n / 64) mod 64);
     ascii_of_N (128 + n mod 64)].

Definition white_space : list (list ascii) := map utf8 white_space_code_points.

(** [s] without the prefix [p], when it has it. *)
Fixpoint drop_prefix (p s : list ascii) : option (list ascii) :=
  match p, s with
  | [], _ => Some s
  | c :: p', d :: s' => if Ascii.eqb c d then drop_prefix p' s' else None
  | _ :: _, [] => None
  end.

(** [s] without one leading character of the table, when it starts with
    one. *)
Fixpoint drop_one (table : list (list ascii)) (s : list ascii) : option (list ascii) :=
  match table with
  | [] => None
  | w :: table' =>
      match drop_prefix w s with
      | Some rest => Some rest
      | None => drop_one table' s
      end
  end.

(** Leading characters of the table are dropped while there is one; the
    length of the text is fuel enough. *)
Fixpoint lstrip_with (table : list (list ascii)) (fuel : nat) (s : list ascii)
  : list ascii :=
  match fuel with
  | O => s
  | S fuel' =>
      match drop_one table s with
      | Some rest => lstrip_with table fuel' rest
      | None => s
      end
  end.

Definition lstrip (s : list ascii) : list ascii :=
  lstrip_with white_space (length s) s.

(** At the end of the text a character is met with its bytes in reverse:
    in UTF-8 an encoded character that ends a text is its last
    character. *)
Definition rstrip (s : list ascii) : list ascii :=
  rev (lstrip_with (map (@rev ascii) white_space) (length s) (rev s)).

(** [str.strip()]. *)
Definition strip (s : string) : string :=
  string_of_list_ascii (rstrip (lstrip (list_ascii_of_string s))).

(** *** The two objects *)

(** What [Controller.type(text)] does: the whole text is typed, or the
    call raises after a part of it was typed (pynput types character by
    character). *)
Inductive keystrokes :=
| AllTyped
| RaisedAfter (typed_part : string).

(** The Whisper model once loaded (what [transcribe] returns under
    ["text"] for a path, or that it raises), whether the system lets a
    file be removed, the keyboard (what [Controller.type] does with a
    text, and all that was typed so far), and the log of both objects. *)
Record Services := mkServices {
  model : option (string -> result string);
  os_remove : string -> result unit;
  controller_type : string -> keystrokes;
  typed : string;
  slogs : list log_record
}.

Definition slog (l : level) (msg : string) (s : Services) : Services :=
  mkServices (model s) (os_remove s) (controller_type s) (typed s) (slogs s ++ [(l, msg)]).

Definition record_typed (text : string) (s : Services) : Services :=
  mkServices (model s) (os_remove s) (controller_type s) (typed s ++ text)%string (slogs s).

(** The [finally] clause of [transcribe_audio]: [os.remove] raises on a
    directory, or when the system refuses, and the exception is
    logged. *)
Definition delete_for_privacy (audio_file_path : string) (h : Host) (s : Services)
  : Host * Services :=
  if path_exists audio_file_path h then
    match disk h !! audio_file_path with
    | None => (h, slog ERROR "Failed to delete audio file" s)
    | Some _ =>
        match os_remove s audio_file_path with
        | Raise _ => (h, slog ERROR "Failed to delete audio file" s)
        | Ok _ =>
            (set_disk (delete audio_file_path (disk h)) h,
             slog INFO "Audio file deleted for privacy" s)
        end
    end
  else (h, s).

(** [TranscriptionHandler.transcribe_audio], on the file system [h]. *)
Definition transcribe_audio_impl (audio_file_path : string) (h : Host) (s : Services)
  : Host * Services * option string :=
  match model s with
  | None => (h, slog ERROR "Whisper model not loaded" s, None)
  | Some whisper =>
      if negb (path_exists audio_file_path h) then
        (h, slog ERROR "Audio file not found" s, None)
      else
        let s := slog INFO "Starting transcription" s in
        match whisper audio_file_path with
        | Raise _ =>
            (delete_for_privacy audio_file_path h (slog ERROR "Transcription failed" s),
             None)
        | Ok text =>
            let transcribed_text := strip text in
            if negb (str_truthy transcribed_text) then
              (delete_for_privacy audio_file_path h
                 (slog WARNING "Transcription resulted in empty text" s), None)
            else
              (delete_for_privacy audio_file_path h
                 (slog INFO "Transcription completed" s), Some transcribed_text)
        end
  end.

(** [KeyboardController.type_text]. *)
Definition type_text_impl (text : string) (s : Services) : Services * bool :=
  if negb (str_truthy text) || negb (str_truthy (strip text)) then
    (slog WARNING "Empty text provided for typing" s, false)
  else
    let cleaned_text := strip text in
    match controller_type s cleaned_text with
    | RaisedAfter part => (slog ERROR "Failed to type text" (record_typed part s), false)
    | AllTyped =>
        let s := record_typed cleaned_text s in
        match controller_type s " " with
        | RaisedAfter part => (slog ERROR "Failed to type text" (record_typed part s), false)
        | AllTyped => (slog INFO "Successfully typed text" (record_typed " " s), true)
        end
    end.

(** The collaborators of the program: the file system is the one the
    [TempFileManager] of the recorder writes to. Without a file manager
    the recorder returns no path and [transcribe_audio] is not called. *)
Definition transcribe_audio_shared (audio_file_path : string) (fm : option TempStore)
    (s : Services) : option TempStore * Services * option string :=
  match fm with
  | Some store =>
      let '(h, s, text) := transcribe_audio_impl audio_file_path (host store) s in
      (Some (mkTempStore (manager store) h), s, text)
  | None => (None, s, None)
  end.

#[export] Instance services_collaborators : Collaborators TempStore Services := {
  transcribe_audio := transcribe_audio_shared;
  type_text := type_text_impl
}.

End Services.

(** ** Concrete environments on which the model is run *)

Module Fixtures.
Import Recorder AsyncRecorder FileManagers VoiceInput Services Hotkey.

(** A chunk of [frames] frames of silence on [channels] channels. *)
Definition silence (frames : Z) (channels : nat) : ndarray :=
  A2 channels (repeat (repeat 0%float channels) (Z.to_nat frames)).

(** A device that always opens and delivers the frames asked for; the
    mono one is the default configuration of the program. *)
Definition steady (channels : nat) : Env :=
  {| thread_start := fun _ => Ok tt;
     stream_open := fun _ _ _ _ => Ok tt;
     stream_read := fun _ _ frames => Ok (silence frames channels, false) |}.

(** A device whose reads raise from the [n]-th on. *)
Definition breaks_at (n : nat) (channels : nat) : Env :=
  {| thread_start := fun _ => Ok tt;
     stream_open := fun _ _ _ _ => Ok tt;
     stream_read := fun _ i frames =>
       if (i <? n)%nat then Ok (silence frames channels, false)
       else Raise PortAudioError |}.

(** A device that cannot be opened. *)
Definition unplugged : Env :=
  {| thread_start := fun _ => Ok tt;
     stream_open := fun _ _ _ _ => Raise PortAudioError;
     stream_read := fun _ _ _ => Raise PortAudioError |}.

(** A machine with a temporary directory and a working [soundfile]. *)
Definition laptop : Host :=
  {| dirs := {[ "/tmp" ]};
     disk := ∅;
     tempdir := "/tmp";
     entropy := 0;
     soundfile := SfWorks;
     refuses := fun _ => None |}.

(** [TempFileManager()] on that machine. *)
Definition temp_store : TempStore :=
  match TempFileManager__init__ [] [] laptop with
  | (h, Ok m) => mkTempStore m h
  | (h, Raise _) => mkTempStore (mkTempFileManager "") h
  end.

(** A recorder as [VoiceInputSystem] builds it, with the cap given as a
    rational number of seconds, and one on binary64 floats. *)
Definition recorder_Q (max_duration : option Q) : World Q TempStore :=
  boot (__init__ 16000 1 (Some temp_store) max_duration).

Definition recorder_b64 (max_duration : option float) : World float TempStore :=
  boot (__init__ 16000 1 (Some temp_store) max_duration).

(** An event loop whose clock shows [t0 + i * period] at its [i]-th
    reading, over a given device. *)
Definition paced (dev : Env) (t0 period : Q) : AEnv Q :=
  {| create_task := fun _ => Ok tt;
     device := dev;
     loop_time := fun i => (t0 + inject_Z (Z.of_nat i) * period)%Q |}.

Definition async_recorder_Q (max_duration : option Q) : AWorld Q TempStore :=
  a__init__ 16000 1 (Some temp_store) max_duration.

(** A callback that accepts every value. *)
Definition quiet_callback : Q -> result unit := fun _ => Ok tt.

(** The number of samples of the flat array that [soundfile] wrote at
    [path], read back from the disk of the recorder's file manager. *)
Definition saved_samples {T : Type} (w : World T TempStore) (path : string) : option nat :=
  match file_manager (recorder w) with
  | Some store =>
      match disk (host store) !! path with
      | Some (SoundfileWav (A1 samples) _) => Some (length samples)
      | _ => None
      end
  | None => None
  end.

(** The first file the temporary manager of [laptop] creates. *)
Definition first_audio_file : string := "/tmp/mic_to_keyboard_0/audio_1.wav".

(** Collaborators: a loaded model that hears the same words in every
    file, a system that lets files be removed, and a keyboard that
    works. *)
Definition attentive : Services :=
  {| model := Some (fun _ => Ok " hello world ");
     os_remove := fun _ => Ok tt;
     controller_type := fun _ => AllTyped;
     typed := "";
     slogs := [] |}.

(** A standard output that takes every text. *)
Definition terminal : list string -> string -> result unit := fun _ _ => Ok tt.

(** The controller with its default cap of 30 seconds, after a first
    hotkey and three steps of the capture thread: it is recording. *)
Definition recording_system : VoiceInputSystem Q TempStore Services :=
  let v := fst (_on_hotkey_pressed (steady 1) (v__init__ 30 temp_store attentive terminal)) in
  set_audio_recorder (run (steady 1) (repeat DoWork 3) (audio_recorder v)) v.

(** A standard output with the ASCII encoding: [print] raises
    [UnicodeEncodeError] on a text with a character outside it. *)
Definition ascii_terminal : list string -> string -> result unit :=
  fun _ msg =>
    if forallb (fun c => (N_of_ascii c <? 128)%N) (list_ascii_of_string msg)
    then Ok tt
    else Raise (OtherError "UnicodeEncodeError").

(** The word "cafe" with an acute accent on its last letter, in UTF-8. *)
Definition accented_word : string :=
  String "c" (String "a" (String "f" (String (ascii_of_nat 195)
    (String (ascii_of_nat 169) EmptyString)))).

(** Collaborators whose model hears that word in every file. *)
Definition francophone : Services :=
  {| model := Some (fun _ => Ok accented_word);
     os_remove := fun _ => Ok tt;
     controller_type := fun _ => AllTyped;
     typed := "";
     slogs := [] |}.

(** The controller with these collaborators on the ASCII output, after a
    first hotkey and three steps of the capture thread: it is
    recording. *)
Definition recording_abroad : VoiceInputSystem Q TempStore Services :=
  let v := fst (_on_hotkey_pressed (steady 1)
                  (v__init__ 30 temp_store francophone ascii_terminal)) in
  set_audio_recorder (run (steady 1) (repeat DoWork 3) (audio_recorder v)) v.

(** Ctrl, Shift and Space pressed in turn, and Space repeating once while
    held. *)
Definition held_space : list key_event :=
  [Press ctrl_l; Press shift_l; Press space; Press space].

(** The combination struck twice, Space released in between. *)
Definition struck_twice : list key_event :=
  [Press ctrl_l; Press shift_l; Press space; Release space; Press space].

End Fixtures.

(** ** What the capture thread may do to the buffer *)

Module Observation.
Import Recorder.

Section WithFloatAndStorage.

Context {T : Type} {PF : PyFloat T} {F : Type} {FM : FileManager F}.

(** The three ways in which the buffer of a recorder changes: not at all,
    by being emptied, or by one chunk that the device delivered, appended
    while the cap was not reached. *)
Inductive buffer_change (env : Env) (r : AudioRecorder T F)
  : option (list ndarray) -> option (list ndarray) -> Prop :=
| kept d : buffer_change env r d d
| emptied d : buffer_change env r d (Some [])
| appended data k i frames chunk overflowed :
    chunk_frames r = Some frames ->
    stream_read env k i frames = Ok (chunk, overflowed) ->
    cap_reached (max_duration r) data = false ->
    buffer_change env r (Some data) (Some (data ++ [chunk])).

(** One move of a recorder: the configuration stays, the buffer changes in
    one of the three ways. *)
Definition evolves (env : Env) (r r' : AudioRecorder T F) : Prop :=
  sample_rate r' = sample_rate r
  /\ channels r' = channels r
  /\ max_duration r' = max_duration r
  /\ buffer_change env r (_audio_data r) (_audio_data r').

(** A chunk of [L] frames on [cols] channels. *)
Definition uniform (L cols : nat) (chunk : ndarray) : Prop :=
  exists rows, chunk = A2 cols rows /\ length rows = L
               /\ Forall (fun row => length row = cols) rows.

(** The device answers a read of [frames] frames with that many frames,
    on [cols] channels. *)
Definition delivers (env : Env) (cols : nat) : Prop :=
  forall k i frames chunk overflowed,
    stream_read env k i frames = Ok (chunk, overflowed) ->
    uniform (Z.to_nat frames) cols chunk.

(** The thread of the recorder has returned (or there is none). *)
Definition thread_done (r : AudioRecorder T F) : Prop :=
  match _recording_thread r with
  | Some th => t_pc th = PcDone
  | None => True
  end.

End WithFloatAndStorage.

End Observation.

(** ** Durations, in exact arithmetic *)

Module Timing.
Import Recorder.
Local Open Scope Q_scope.

(** The duration the thread attributes to a number of chunks:
    chunk-count times chunk-duration. *)
Definition seconds (chunks : nat) : Q := inject_Z (Z.of_nat chunks) * (1 # 10).

(** Every chunk of the buffer was appended while the chunks before it
    amounted to less than [D] seconds. *)
Definition within_cap {F : Type} (D : Q) (r : AudioRecorder Q F) : Prop :=
  forall data n, _audio_data r = Some data -> length data = S n -> seconds n < D.

(** Every chunk of the buffer has the frames the thread asks for, on
    [cols] channels. *)
Definition chunked {F : Type} (cols : nat) (r : AudioRecorder Q F) : Prop :=
  forall data frames,
    _audio_data r = Some data -> chunk_frames r = Some frames ->
    Forall (Observation.uniform (Z.to_nat frames) cols) data.

(** A clock that never goes back. *)
Definition monotonic (clock : nat -> Q) : Prop :=
  forall i j, (i <= j)%nat -> clock i <= clock j.

(** A clock read once at the start and then once after each chunk, when
    no chunk arrives sooner than the audio it holds was played: at its
    [j]-th reading after the start, [j] chunk durations at least have
    passed. *)
Definition real_time (clock : nat -> Q) : Prop :=
  forall j, seconds j <= clock j - clock 0%nat.

End Timing.

(** ** Comparing a recorder with its uncapped twin *)

Module Twin.
Import Recorder AsyncRecorder.

Section WithFloatAndStorage.

Context {T : Type} {PF : PyFloat T} {F : Type} {FM : FileManager F}.

(** The same recorder with another value of [max_duration]. *)
Definition set_max_duration (d : option T) (r : AudioRecorder T F) : AudioRecorder T F :=
  mkRecorder (sample_rate r) (channels r) (file_manager r) d
    (_is_recording r) (_recording_thread r) (_audio_data r) (_stop_event r).

Definition recap (d : option T) (w : World T F) : World T F :=
  with_recorder (set_max_duration d) w.

Definition a_recap (d : option T) (a : AWorld T F) : AWorld T F :=
  with_inherited (recap d) a.

(** No cap is configured. *)
Definition uncapped (w : World T F) : Prop := max_duration (recorder w) = None.

Definition a_uncapped (a : AWorld T F) : Prop := max_duration (rec_of a) = None.

(** A device without failure: threads start, streams open and every read
    delivers a chunk. *)
Definition healthy (env : Env) : Prop :=
  (forall k, thread_start env k = Ok tt)
  /\ (forall k sr ch frames, stream_open env k sr ch frames = Ok tt)
  /\ (forall k i frames, is_ok (stream_read env k i frames) = true).

Definition a_healthy (env : AEnv T) : Prop :=
  (forall k, create_task env k = Ok tt) /\ healthy (device env).

(** A callback that never raises. *)
Definition accepting (callback : T -> result unit) : Prop :=
  forall v, callback v = Ok tt.

End WithFloatAndStorage.

End Twin.

(** ** One session of the cooperative recorder *)

Module Progress.
Import Recorder AsyncRecorder.
Local Open Scope Q_scope.

Section WithStorage.

Context {F : Type} {FM : FileManager F}.

(** The value the callback receives after the [j]-th chunk of a session
    whose task read the clock for the first time at its reading number
    [t0], and then once after each chunk. *)
Definition report (env : AEnv Q) (max_duration : option Q) (t0 j : nat) : Q :=
  progress_value max_duration (loop_time env (t0 + j) - loop_time env t0).

(** A schedule that starts no further session. *)
Definition no_restart (schedule : list (a_action Q)) : Prop :=
  Forall (fun x => match x with ADoStart _ => False | _ => True end) schedule.

(** The task has ended although nobody stopped the session and nothing
    failed: the loop was left by its [break]. *)
Definition ended_by_cap (a : AWorld Q F) : Prop :=
  _is_recording (rec_of a) = true
  /\ exists tk, _async_task a = Some tk /\ k_pc tk = TkDone.

(** The task has ended, by returning or by an exception. *)
Definition ended (tk : Task Q) : Prop := k_pc tk = TkDone \/ k_pc tk = TkCrashed.

(** No task of an earlier session is still running: neither the one
    the field [_async_task] refers to nor one that [start_recording] took
    out of it. *)
Definition tasks_ended (a : AWorld Q F) : Prop :=
  task_pending a = false /\ Forall ended (earlier_tasks a).

(** What holds all along a session started with a progress callback,
    when the clock had been read [t0] times before and the callback had
    received the values [earlier] in the sessions before. *)
Definition in_session (env : AEnv Q) (t0 : nat) (earlier : list Q) (a : AWorld Q F)
  : Prop :=
  let r := rec_of a in
  let data := captured (inherited a) in
  (_stop_event r = true -> _is_recording r = false)
  /\ Forall ended (earlier_tasks a)
  /\ is_Some (_progress_callback a)
  /\ progress_calls a
     = earlier ++ map (report env (max_duration r) t0) (seq 1 (length data))
  /\ (data <> [] -> cap_reached (max_duration r) [] = false)
  /\ match _async_task a with
     | None => data = []
     | Some tk =>
         match k_pc tk with
         | TkNew => _audio_data r = Some [] /\ time_reads a = t0
         | TkSuspended =>
             k_start_time tk = Some (loop_time env t0)
             /\ time_reads a = (t0 + S (length data))%nat
         | TkDone => _is_recording r = true -> cap_reached (max_duration r) data = true
         | TkCrashed => True
         end
     end.

(** The clock as a session sees it that starts at the reading [t0]. *)
Definition clock_from (env : AEnv Q) (t0 : nat) : nat -> Q :=
  fun i => loop_time env (t0 + i).

End WithStorage.

End Progress.
(** ** The recorder over its whole life *)

Module Lifetime.
Import Recorder.

Section WithFloatAndStorage.

Context {T : Type} {PF : PyFloat T} {F : Type} {FM : FileManager F}.

(** The buffer holds, in order, the first chunks the device delivered to
    the thread of the current session: the chunk at index [i] is the
    answer to the [i]-th read. The thread has read as many chunks as the
    buffer holds, or one more when it has returned (the chunk read when
    the cap was found reached is not kept). Before the first start there
    is neither buffer nor thread. *)
Definition in_order (env : Env) (r : AudioRecorder T F) : Prop :=
  match _audio_data r with
  | None => _recording_thread r = None
  | Some data =>
      exists th,
        _recording_thread r = Some th
        /\ (t_reads th = length data
            \/ (t_pc th = PcDone /\ t_reads th = S (length data)))
        /\ forall i chunk,
             data !! i = Some chunk ->
             exists frames overflowed,
               chunk_frames r = Some frames
               /\ stream_read env (t_session th) i frames = Ok (chunk, overflowed)
  end.

(** While a capture thread runs the recorder says so, and nobody has
    asked it to stop. *)
Definition running_means_recording (r : AudioRecorder T F) : Prop :=
  thread_alive r = true -> _is_recording r = true /\ _stop_event r = false.

(** [create_recorder(sample_rate, channels, file_manager)]: no cap is
    passed on. *)
Definition create_recorder (sample_rate channels : Z) (file_manager : option F)
  : AudioRecorder T F :=
  __init__ sample_rate channels file_manager None.

(** The same device with its overflow reports silenced. *)
Definition without_overflow (env : Env) : Env :=
  {| thread_start := thread_start env;
     stream_open := stream_open env;
     stream_read := fun k i frames =>
       match stream_read env k i frames with
       | Ok (chunk, _) => Ok (chunk, false)
       | Raise e => Raise e
       end |}.

Definition is_overflow_warning (entry : log_record) : bool :=
  match entry with
  | (WARNING, msg) => String.eqb msg "Audio input overflow detected"
  | _ => false
  end.

(** The same world with the overflow warnings taken out of its log. *)
Definition without_overflow_warnings (w : World T F) : World T F :=
  mkWorld (recorder w) (session_no w)
    (List.filter (fun entry => negb (is_overflow_warning entry)) (logs w)).

End WithFloatAndStorage.

End Lifetime.

(** ** file_manager.py: removing a file *)

Module FileCleanup.
Import FileManagers.


(** [TempFileManager()]. *)
Definition TempFileManager_new (h : Host) : Host * result TempFileManager :=
  TempFileManager__init__ [] [] h.

(** The name [mkstemp] gives the next file of a store. *)
Definition next_temp_path (suffix prefix : string) (s : TempStore) : string :=
  path_join (temp_dir (manager s)) (prefix ++ snd (draw (host s)) ++ suffix)%string.

End FileCleanup.

(** ** The listener and the controller together *)

Module Together.
Import Recorder Hotkey VoiceInput Lifetime.

Section WithComponents.

Context {T : Type} {PF : PyFloat T} {F : Type} {FM : FileManager F}
        {C : Type} {CO : Collaborators F C}.

(** The callback [VoiceInputSystem.__init__] hands to its listener:
    [self._on_hotkey_pressed]. What it raises reaches the listener, which
    logs it. *)
Definition system_callback (env : Env) : Method T F C := _on_hotkey_pressed env.

(** What happens to the running program: the listener thread delivers a
    key event, whose handler runs to its end (it joins the capture
    thread when it stops the recorder), or the capture thread of the
    recorder makes a step. *)
Inductive happening :=
| KeyEvent (e : key_event)
| CaptureStep.

Definition capture_step (env : Env) (v : VoiceInputSystem T F C) : VoiceInputSystem T F C :=
  set_audio_recorder (worker_step env (audio_recorder v)) v.

Definition happen (env : Env) (x : happening) (w : HWorld (VoiceInputSystem T F C))
  : HWorld (VoiceInputSystem T F C) :=
  match x with
  | KeyEvent e => deliver e w
  | CaptureStep => mkHWorld (listener w) (capture_step env (app w)) (hlogs w)
  end.

Definition live (env : Env) (happenings : list happening)
    (w : HWorld (VoiceInputSystem T F C)) : HWorld (VoiceInputSystem T F C) :=
  fold_left (fun w x => happen env x w) happenings w.

(** The listener and the controller as [VoiceInputSystem.__init__] builds
    them, on a given standard output. *)
Definition power_on (env : Env) (max_recording_duration : Z) (file_manager : F)
    (services : C) (console : list string -> string -> result unit)
  : HWorld (VoiceInputSystem T F C) :=
  mkHWorld (h__init__ (system_callback env))
    (v__init__ max_recording_duration file_manager services console) [].

(** [n] complete sessions in the history of the state. *)
Definition cycles (n : nat) : list SystemState :=
  concat (replicate n [RECORDING; PROCESSING; IDLE]).

(** The history of a controller that has completed [n] sessions and is in
    state [s]: in state Recording a session is open, in state Processing
    a session was left there. *)
Definition history (n : nat) (s : SystemState) : list SystemState :=
  IDLE :: cycles n ++ match s with
                      | IDLE => []
                      | RECORDING => [RECORDING]
                      | PROCESSING => [RECORDING; PROCESSING]
                      end.

(** The standard output takes every text. *)
Definition never_raises (console : list string -> string -> result unit) : Prop :=
  forall out msg, console out msg = Ok tt.

(** The controller between two handlers, on the standard output
    [console]. *)
Definition at_rest (console : list string -> string -> result unit)
    (v : VoiceInputSystem T F C) : Prop :=
  sys_stdout v = console
  /\ (state v <> RECORDING -> _is_recording (recorder (audio_recorder v)) = false)
  /\ running_means_recording (recorder (audio_recorder v))
  /\ (never_raises console -> state v <> PROCESSING)
  /\ exists n, state_writes v = history n (state v).

End WithComponents.

End Together.

(** ** dummy_audio_recorder.py *)

Module Dummy.
Import Recorder AsyncRecorder.

Section WithFloatAndStorage.

Context {T : Type} {PF : PyFloat T} {F : Type} {FM : FileManager F}.

(** What numpy computes for the sample of index [i] of the test audio of
    a given frequency and duration: a tone, or noise when the frequency
    is not positive. *)
Variable synth : T -> T -> nat -> sample.

(** [generate_test_audio(frequency, duration)], the amplitude left at its
    default as both callers do: [int(self.sample_rate * duration)]
    samples. [int] raises on a value that is not finite and
    [np.linspace] on a negative number of samples. *)
Definition generate_test_audio (r : AudioRecorder T F) (frequency duration : T)
  : result ndarray :=
  match to_int (fmul (of_int (sample_rate r)) duration) with
  | None => Raise ValueError
  | Some samples =>
      if samples <? 0 then Raise ValueError
      else Ok (A1 (map (synth frequency duration) (seq 0 (Z.to_nat samples))))
  end.

(** [DummyAudioRecorder.record_test_audio]: nothing is caught here. *)
Definition record_test_audio (frequency duration : T) (w : World T F)
  : result (World T F * option string) :=
  match generate_test_audio (recorder w) frequency duration with
  | Raise e => Raise e
  | Ok audio_data => Ok (_save_audio_data audio_data w)
  end.

(** The loop [for i in range(steps + 1): progress_callback(i / steps)],
    over the values of [i] still to come. *)
Fixpoint simulate_progress (progress_callback : T -> result unit) (steps : Z)
    (indices : list nat) (a : AWorld T F) : AWorld T F * result unit :=
  match indices with
  | [] => (a, Ok tt)
  | i :: rest =>
      let progress := fdiv (of_int (Z.of_nat i)) (of_int steps) in
      let a := called_with progress a in
      match progress_callback progress with
      | Ok _ => simulate_progress progress_callback steps rest a
      | Raise e => (a, Raise e)
      end
  end.

(** [DummyAsyncAudioRecorder.record_test_audio_async], with no other task
    scheduled while it sleeps. *)
Definition record_test_audio_async (frequency duration : T)
    (progress_callback : option (T -> result unit)) (a : AWorld T F)
  : AWorld T F * option string :=
  let failed a :=
    (with_inherited (emit ERROR "Failed to record test audio async") a, None) in
  match generate_test_audio (rec_of a) frequency duration with
  | Raise _ => failed a
  | Ok audio_data =>
      let (a, simulated) :=
        match progress_callback with
        | Some callback => simulate_progress callback 10 (seq 0 11) a
        | None => (a, Ok tt)
        end in
      match simulated with
      | Raise _ => failed a
      | Ok _ =>
          let (w, path) := _save_audio_data audio_data (inherited a) in
          (with_inherited (fun _ => w) a, path)
      end
  end.

(** The values the loop goes through up to the index [n]. *)
Definition progress_steps (n : nat) : list T :=
  map (fun i => fdiv (of_int (Z.of_nat i)) (of_int 10)) (seq 0 n).

(** The first of the eleven values that the callback rejects, if any. *)
Definition first_rejected (callback : T -> result unit) : option nat :=
  List.find (fun i => negb (is_ok (callback (fdiv (of_int (Z.of_nat i)) (of_int 10)))))
    (seq 0 11).

End WithFloatAndStorage.

End Dummy.

(** ** file_manager.py: emptying the temporary directories *)

Module Housekeeping.
Import FileManagers.

(** [s] without the prefix [p], when it has it. *)
Fixpoint strip_prefix (p s : string) : option string :=
  match p with
  | EmptyString => Some s
  | String c p' =>
      match s with
      | String d s' => if Ascii.eqb c d then strip_prefix p' s' else None
      | EmptyString => None
      end
  end.

(** [s.startswith(p)]. *)
Definition startswith (p s : string) : bool :=
  match strip_prefix p s with Some _ => true | None => false end.

Fixpoint has_slash (s : string) : bool :=
  match s with
  | EmptyString => false
  | String c s' => Ascii.eqb c "/" || has_slash s'
  end.

(** The path lies strictly below the directory. *)
Definition under (dir path : string) : bool := startswith (dir ++ "/") path.

(** The path is the item or lies below it. *)
Definition within (item path : string) : bool := String.eqb path item || under item path.

(** The name under which [path] is an entry of [dir], if it is one. *)
Definition child_name (dir path : string) : option string :=
  match strip_prefix (dir ++ "/") path with
  | Some name => if String.eqb name "" || has_slash name then None else Some name
  | None => None
  end.

(** [os.listdir(dir)]: the names of the files and directories in [dir],
    in some order. *)
Definition listdir (dir : string) (h : Host) : result (list string) :=
  if bool_decide (dir ∈ dirs h) then
    Ok (remove_dups (omap (child_name dir)
          (elements (dirs h) ++ elements (dom (disk h)))))
  else Raise FileNotFoundError.

(** [shutil.rmtree(item)]: the directory goes with all that is below it. *)
Definition rmtree (item : string) (h : Host) : Host :=
  set_disk (filter (fun entry => negb (within item (fst entry))) (disk h))
    (set_dirs (filter (fun path => negb (within item path)) (dirs h)) h).

(** What the system answers when [os.remove] or [shutil.rmtree] is asked
    to remove an item: [None] when it removes it; otherwise the call
    raises, and [shutil.rmtree] may by then have removed, of what lies
    below the directory, the paths for which the function given holds. *)
Definition Removal : Type := string -> option (string -> bool).

(** A [shutil.rmtree(item)] that raises after it removed the paths of
    [gone] below the directory. *)
Definition rmtree_partly (gone : string -> bool) (item : string) (h : Host) : Host :=
  set_disk (filter (fun entry => negb (under item (fst entry) && gone (fst entry)))
              (disk h))
    (set_dirs (filter (fun path => negb (under item path && gone path)) (dirs h)) h).

(** The body of the loop of [cleanup_temp_files], for the names still to
    come. A removal that raises is caught inside the loop, and the item
    is then not counted. An item that is neither a file nor a directory
    is counted all the same. *)
Fixpoint cleanup_items (removal : Removal) (dir : string) (names : list string)
    (h : Host) (count : nat) : Host * nat :=
  match names with
  | [] => (h, count)
  | filename :: rest =>
      let item_path := path_join dir filename in
      if bool_decide (is_Some (disk h !! item_path)) then
        match removal item_path with
        | None =>
            cleanup_items removal dir rest (set_disk (delete item_path (disk h)) h)
              (S count)
        | Some _ => cleanup_items removal dir rest h count
        end
      else if bool_decide (item_path ∈ dirs h) then
        match removal item_path with
        | None => cleanup_items removal dir rest (rmtree item_path h) (S count)
        | Some gone =>
            cleanup_items removal dir rest (rmtree_partly gone item_path h) count
        end
      else cleanup_items removal dir rest h (S count)
  end.

(** [TempFileManager.cleanup_temp_files]. *)
Definition cleanup_temp_files_impl (removal : Removal) (s : TempStore) : TempStore * nat :=
  let dir := temp_dir (manager s) in
  match listdir dir (host s) with
  | Raise _ => (s, 0%nat)
  | Ok names =>
      let (h, count) := cleanup_items removal dir names (host s) 0 in
      (mkTempStore (manager s) h, count)
  end.

(** The entries of [names] the system lets be removed. *)
Definition removable (removal : Removal) (dir : string) (names : list string)
  : list string :=
  List.filter (fun name => match removal (path_join dir name) with
                           | None => true
                           | Some _ => false
                           end) names.



(** Nothing was created: what exists in [h'] existed in [h]. *)
Definition only_removals (h h' : Host) : Prop :=
  (forall path, path ∈ dirs h' -> path ∈ dirs h)
  /\ (forall path content, disk h' !! path = Some content -> disk h !! path = Some content).

(** What is not below [dir] is as it was. *)
Definition outside_kept (dir : string) (h h' : Host) : Prop :=
  forall path, under dir path = false ->
    (path ∈ dirs h' <-> path ∈ dirs h) /\ disk h' !! path = disk h !! path.

(** No path is both a directory and a file. *)
Definition tidy (h : Host) : Prop :=
  forall path, path ∈ dirs h -> disk h !! path = None.

End Housekeeping.

(** ** keyboard_controller.py: single keys *)

Module SingleKeys.

Section WithKeys.

Context {K : Type} `{Countable K}.

(** The [pynput] controller: what pressing and releasing a key does (it
    may raise), the keys it holds down, and the log. *)
Record Controller := mkController {
  press : K -> result unit;
  release : K -> result unit;
  held : gset K;
  klogs : list log_record
}.

Definition set_held (keys : gset K) (c : Controller) : Controller :=
  mkController (press c) (release c) keys (klogs c).

Definition klog (l : level) (msg : string) (c : Controller) : Controller :=
  mkController (press c) (release c) (held c) (klogs c ++ [(l, msg)]).

(** [KeyboardController.send_key]. *)
Definition send_key (key : K) (c : Controller) : Controller * bool :=
  match press c key with
  | Raise _ => (klog ERROR "Failed to send key" c, false)
  | Ok _ =>
      let c := set_held ({[ key ]} ∪ held c) c in
      match release c key with
      | Raise _ => (klog ERROR "Failed to send key" c, false)
      | Ok _ => (set_held (held c ∖ {[ key ]}) c, true)
      end
  end.

End WithKeys.

Arguments Controller K {_ _}.

End SingleKeys.

(** ** Getting ready: the model and the listener thread *)

Module Application.
Import Hotkey Services.

(** *** transcription_handler.py: loading the model *)

Definition set_model (m : option (string -> result string)) (s : Services) : Services :=
  mkServices m (os_remove s) (controller_type s) (typed s) (slogs s).

(** [TranscriptionHandler.load_model], given what [whisper.load_model]
    answers. *)
Definition load_model_impl (loaded : result (string -> result string)) (s : Services)
  : Services * bool :=
  let s := slog INFO "Loading Whisper model" s in
  match loaded with
  | Ok whisper =>
      (slog INFO "Whisper model loaded successfully" (set_model (Some whisper) s), true)
  | Raise _ => (slog ERROR "Failed to load Whisper model" s, false)
  end.

(** [TranscriptionHandler.is_model_loaded]. *)
Definition is_model_loaded (s : Services) : bool :=
  match model s with Some _ => true | None => false end.

(** *** hotkey_listener.py: the listener thread *)

(** [pynput]: whether the [n]-th [keyboard.Listener] can be constructed,
    and whether it starts. *)
Record Pynput := mkPynput {
  listener_new : nat -> result unit;
  listener_start : nat -> result unit
}.

Section WithApplication.

Context {A : Type}.

(** A [HotkeyListener] with its field [self.listener] (the number of the
    [keyboard.Listener] it holds), the listeners that run, and how many
    were constructed. *)
Record Listening := mkListening {
  hworld : HWorld A;
  keyboard_listener : option nat;
  started : list nat;
  made : nat
}.

Definition set_hworld (w : HWorld A) (l : Listening) : Listening :=
  mkListening w (keyboard_listener l) (started l) (made l).

Definition hlog (lv : level) (msg : string) (l : Listening) : Listening :=
  set_hworld (mkHWorld (listener (hworld l)) (app (hworld l))
                (hlogs (hworld l) ++ [(lv, msg)])) l.

(** [HotkeyListener.start_listening]. *)
Definition start_listening (env : Pynput) (l : Listening) : Listening * bool :=
  let n := made l in
  match listener_new env n with
  | Raise _ => (hlog ERROR "Failed to start hotkey listener" l, false)
  | Ok _ =>
      let l := mkListening (hworld l) (Some n) (started l) (S n) in
      match listener_start env n with
      | Raise _ => (hlog ERROR "Failed to start hotkey listener" l, false)
      | Ok _ =>
          (hlog INFO "Hotkey listener started (Ctrl+Shift+Space)"
             (mkListening (hworld l) (keyboard_listener l) (started l ++ [n]) (made l)),
           true)
      end
  end.

(** [HotkeyListener.stop_listening]. *)
Definition stop_listening (l : Listening) : Listening :=
  match keyboard_listener l with
  | Some n =>
      hlog INFO "Hotkey listener stopped"
        (mkListening (hworld l) None (List.filter (fun k => negb (k =? n)%nat) (started l))
           (made l))
  | None => l
  end.

End WithApplication.

Arguments Listening : clear implicits.

End Application.

(** ** Further concrete inputs *)

Module Samples.
Import Recorder AsyncRecorder FileManagers Services Hotkey Fixtures Housekeeping Application.

(** Collaborators whose model hears the words between a no-break space
    (U+00A0) and an ideographic space (U+3000), both in UTF-8. *)
Definition breathy : Services :=
  {| model := Some (fun _ =>
       Ok (String (ascii_of_nat 194) (String (ascii_of_nat 160)
             ("hello world"
              ++ String (ascii_of_nat 227) (String (ascii_of_nat 128)
                   (String (ascii_of_nat 128) EmptyString))))%string));
     os_remove := fun _ => Ok tt;
     controller_type := fun _ => AllTyped;
     typed := "";
     slogs := [] |}.

(** A listener with the right Ctrl, the left Shift and Space down. *)
Definition mixed_modifiers : HotkeyListener nat :=
  set_pressed_keys {[ ctrl_r; shift_l; space ]} (h__init__ counting_callback).

(** A tenth of a second of silence, flat. *)
Definition short_silence : ndarray := flatten (silence 1600 1).

(** A start and the first three steps of the capture thread: the stream
    is opened and one chunk is read. *)
Definition first_chunk : list action := DoStart :: repeat DoWork 3.

(** Test audio that is all zeros. *)
Definition flat_synth : Q -> Q -> nat -> sample := fun _ _ _ => 0%float.

(** The laptop's manager with one file in its directory, and with
    two. *)
Definition stocked : TempStore := fst (create_temp_file_impl ".wav" "audio_" temp_store).

Definition restocked : TempStore := fst (create_temp_file_impl ".wav" "audio_" stocked).

(** The second file the temporary manager of [laptop] creates. *)
Definition second_audio_file : string := "/tmp/mic_to_keyboard_0/audio_2.wav".

(** A system that refuses to remove the first audio file and nothing
    else. *)
Definition holds_first : Removal :=
  fun path => if String.eqb path first_audio_file then Some (fun _ => false) else None.

(** A [pynput] that works, and a listener object that was never
    started. *)
Definition willing : Pynput :=
  {| listener_new := fun _ => Ok tt; listener_start := fun _ => Ok tt |}.

Definition never_started : Listening nat :=
  mkListening (mkHWorld (h__init__ counting_callback) 0%nat []) None [] 0.

End Samples.
(** * Properties *)

Import Recorder.

(** ** The guards of start and stop *)

Section Guards.

Context {T : Type} {PF : PyFloat T} {F : Type} {FM : FileManager F}.

(** C7. [start_recording] on a recorder whose session is active returns
    [False] and changes nothing: the recorder, with its recording flag,
    buffer, stop event and thread, is the one it was, no session is
    launched, and the only trace is one warning in the log. *)
Theorem start_recording_while_active (env : Env) (w : World T F) :
  _is_recording (recorder w) = true ->
  let (w', started) := start_recording env w in
  started = false
  /\ recorder w' = recorder w
  /\ session_no w' = session_no w
  /\ logs w' = logs w ++ [(WARNING, "Recording already in progress")].
Proof.
  intros active. unfold start_recording. rewrite active. cbn. auto.
Qed.

(** C8. [stop_recording] on a recorder with no active session returns
    [None] and changes nothing: the recorder, with its recording flag,
    buffer and stop event, is the one it was, and the only trace is one
    warning in the log. *)
Theorem stop_recording_while_idle (env : Env) (w : World T F) :
  _is_recording (recorder w) = false ->
  let (w', path) := stop_recording env w in
  path = None
  /\ recorder w' = recorder w
  /\ _is_recording (recorder w') = false
  /\ session_no w' = session_no w
  /\ logs w' = logs w ++ [(WARNING, "No recording in progress")].
Proof.
  intros idle. unfold stop_recording. rewrite idle. cbn. auto.
Qed.

End Guards.

Import Observation.

(** ** The buffer has one writer *)

Section OneWriter.

Context {T : Type} {PF : PyFloat T} {F : Type} {FM : FileManager F}.

Implicit Types (env : Env) (w : World T F) (r : AudioRecorder T F).

Lemma evolves_refl env r : evolves env r r.
Proof. repeat split; constructor. Qed.

Lemma worker_step_evolves env w :
  evolves env (recorder w) (recorder (worker_step env w)).
Proof.
  unfold worker_step, worker_failed.
  repeat case_match; cbn; try apply evolves_refl.
  all: repeat split; try reflexivity.
  all: cbn;
       match goal with
       | H : _audio_data _ = _ |- _ => rewrite H
       | _ => idtac
       end; eauto using buffer_change.
Qed.

Lemma run_worker_evolves fuel env w :
  rtc (evolves env) (recorder w) (recorder (run_worker fuel env w)).
Proof.
  revert w. induction fuel as [|fuel IH]; intros w; cbn; [reflexivity|].
  case_match; [|reflexivity].
  eapply rtc_l; [apply worker_step_evolves | apply IH].
Qed.

Lemma save_keeps_recording a w :
  let r' := recorder (fst (_save_audio_data a w)) in
  sample_rate r' = sample_rate (recorder w)
  /\ channels r' = channels (recorder w)
  /\ max_duration r' = max_duration (recorder w)
  /\ _is_recording r' = _is_recording (recorder w)
  /\ _recording_thread r' = _recording_thread (recorder w)
  /\ _audio_data r' = _audio_data (recorder w)
  /\ _stop_event r' = _stop_event (recorder w).
Proof.
  unfold _save_audio_data. repeat case_match; cbn; auto 10.
Qed.

Lemma start_recording_evolves env w :
  evolves env (recorder w) (recorder (fst (start_recording env w))).
Proof.
  unfold start_recording.
  repeat case_match; cbn; try apply evolves_refl.
  all: repeat split; constructor.
Qed.

Lemma halt_evolves env w :
  rtc (evolves env) (recorder w) (recorder (halt env w)).
Proof.
  unfold halt, join. cbn -[run_worker].
  case_match; [|apply rtc_once; repeat split; constructor].
  eapply rtc_l; [|apply run_worker_evolves].
  cbn. repeat split; constructor.
Qed.

Lemma stop_recording_evolves env w :
  rtc (evolves env) (recorder w) (recorder (fst (stop_recording env w))).
Proof.
  unfold stop_recording.
  case_match; cbn; [reflexivity|].
  assert (rtc (evolves env) (recorder w) (recorder (halt env w))) as Hhalt
    by apply halt_evolves.
  repeat case_match; cbn; try exact Hhalt.
  eapply rtc_r; [exact Hhalt|].
  pose proof (save_keeps_recording a (halt env w)) as (?&?&?&?&?&Hd&?).
  cbn in *. repeat split; try assumption. rewrite Hd. constructor.
Qed.

Lemma act_evolves env a w :
  rtc (evolves env) (recorder w) (recorder (act env a w)).
Proof.
  destruct a; cbn.
  - apply rtc_once, start_recording_evolves.
  - apply stop_recording_evolves.
  - apply rtc_once, worker_step_evolves.
Qed.

Lemma run_evolves env schedule w :
  rtc (evolves env) (recorder w) (recorder (run env schedule w)).
Proof.
  revert w. induction schedule as [|a schedule IH]; intros w; cbn; [reflexivity|].
  etrans; [apply act_evolves | apply IH].
Qed.

(** What one step of the thread does to the buffer. *)
Lemma worker_step_buffer env w :
  _audio_data (recorder (worker_step env w)) = _audio_data (recorder w)
  \/ exists data chunk,
       _audio_data (recorder w) = Some data
       /\ cap_reached (max_duration (recorder w)) data = false
       /\ _audio_data (recorder (worker_step env w)) = Some (data ++ [chunk]).
Proof.
  unfold worker_step, worker_failed.
  repeat case_match; cbn;
    first [ left; reflexivity
          | right; do 2 eexists; repeat split; first [eassumption | reflexivity]
          | eauto 10 ].
Qed.

End OneWriter.

(** ** The join ends *)

Section Joining.

Context {T : Type} {PF : PyFloat T} {F : Type} {FM : FileManager F}.

Implicit Types (env : Env) (w : World T F).

(** Once the stop event is set, three steps are enough for the thread to
    return, wherever it stands and whatever the device answers. *)
Lemma join_completes env w :
  _stop_event (recorder w) = true ->
  thread_alive (recorder (join env w)) = false.
Proof.
  destruct w as [[sr ch fm md rec [[k pc i]|] data stop] sessions lg]; cbn;
    [|reflexivity].
  intros ->. unfold join.
  destruct pc; try reflexivity.
  all: cbn; unfold worker_step, worker_failed; cbn.
  all: repeat (case_match; cbn in *; try reflexivity; try discriminate).
Qed.

(** [halt] leaves no thread running: the buffer is read after its last
    writer has returned. *)
Lemma halt_joins_thread env w :
  thread_alive (recorder (halt env w)) = false.
Proof.
  unfold halt. cbn -[join].
  destruct (_recording_thread (recorder w)) eqn:Hth.
  - apply join_completes. reflexivity.
  - unfold thread_alive. cbn. rewrite Hth. reflexivity.
Qed.

End Joining.

(** ** Assembling the chunks *)

Section Assembling.

Lemma length_concat_uniform {A : Type} (rows : list (list A)) (c : nat) :
  Forall (fun row => length row = c) rows ->
  length (List.concat rows) = (length rows * c)%nat.
Proof.
  induction 1 as [|row rows Hrow _ IH]; cbn; [reflexivity|].
  rewrite length_app, IH, Hrow. reflexivity.
Qed.

Lemma concat_2d_uniform (L cols : nat) (rest : list ndarray) :
  Forall (uniform L cols) rest ->
  forall acc, exists rows,
    concat_2d cols acc rest = Ok (A2 cols rows)
    /\ length rows = (length acc + length rest * L)%nat
    /\ (Forall (fun row => length row = cols) acc ->
        Forall (fun row => length row = cols) rows)
    /\ rows = acc ++ List.concat (map rows_of rest).
Proof.
  induction 1 as [|chunk rest (rows0 & -> & Hlen & Hshape) _ IH]; intros acc; cbn.
  - exists acc. repeat split; [lia | auto | rewrite app_nil_r; reflexivity].
  - rewrite Nat.eqb_refl.
    destruct (IH (acc ++ rows0)) as (rows & Heq & Hrows & Hall & Hcontent).
    exists rows. repeat split; [exact Heq | | |].
    + rewrite Hrows, length_app. lia.
    + intros Hacc. apply Hall, Forall_app. split; assumption.
    + rewrite Hcontent, <- app_assoc. reflexivity.
Qed.

(** The entries of an array are those of its rows. *)
Lemma entries_rows_of (a : ndarray) : entries a = List.concat (rows_of a).
Proof.
  destruct a as [d|c rows]; cbn; [|reflexivity].
  induction d as [|x d IH]; cbn; [reflexivity|]. rewrite <- IH. reflexivity.
Qed.

Lemma concat_rows_entries (data : list ndarray) :
  List.concat (List.concat (map rows_of data)) = List.concat (map entries data).
Proof.
  induction data as [|chunk data IH]; cbn; [reflexivity|].
  rewrite concat_app, IH, entries_rows_of. reflexivity.
Qed.

Lemma concatenate_uniform (L cols : nat) (data : list ndarray) :
  data <> [] ->
  Forall (uniform L cols) data ->
  exists rows,
    concatenate data = Ok (A2 cols rows)
    /\ length rows = (length data * L)%nat
    /\ Forall (fun row => length row = cols) rows
    /\ rows = List.concat (map rows_of data).
Proof.
  intros Hne Hall. destruct data as [|chunk rest]; [congruence|].
  apply Forall_cons in Hall as [(rows0 & -> & Hlen & Hshape) Hrest].
  destruct (concat_2d_uniform L cols rest Hrest rows0)
    as (rows & Heq & Hrows & Hok & Hcontent).
  exists rows. cbn. repeat split; [exact Heq | lia | auto | exact Hcontent].
Qed.

End Assembling.

(** ** What stop_recording hands to the file manager *)

Section Finalizing.

Context {T : Type} {PF : PyFloat T} {F : Type} {FM : FileManager F}.

Implicit Types (env : Env) (w : World T F) (r : AudioRecorder T F).

Lemma evolves_config env r r' :
  rtc (evolves env) r r' ->
  sample_rate r' = sample_rate r
  /\ channels r' = channels r
  /\ max_duration r' = max_duration r.
Proof.
  induction 1 as [|r1 r2 r3 (Hs & Hc & Hm & _) _ (IHs & IHc & IHm)]; [auto|].
  repeat split; congruence.
Qed.

(** [stop_recording] on an active session is the guard passed, [halt],
    and then the assembly and the save of what the buffer holds. *)
Lemma stop_recording_active env w :
  _is_recording (recorder w) = true ->
  stop_recording env w =
    match captured (halt env w) with
    | [] => (emit WARNING "No audio data recorded" (halt env w), None)
    | (_ :: _) as data =>
        match assemble (recorder (halt env w)) data with
        | Ok audio_data => _save_audio_data audio_data (halt env w)
        | Raise _ => (emit ERROR "Failed to stop recording" (halt env w), None)
        end
    end.
Proof.
  intros active. unfold stop_recording, captured. rewrite active. cbn -[halt].
  destruct (_audio_data (recorder (halt env w))) as [[|chunk data]|]; reflexivity.
Qed.

(** The array built from [N] chunks of [L] frames. *)
Lemma assemble_uniform r (N L : nat) (data : list ndarray) :
  length data = S N ->
  Forall (uniform L (Z.to_nat (channels r))) data ->
  exists audio,
    assemble r data = Ok audio
    /\ len audio = (S N * L)%nat
    /\ (if channels r =? 1
        then exists samples, audio = A1 samples /\ length samples = (S N * L)%nat
                             /\ samples = List.concat (map entries data)
        else exists rows, audio = A2 (Z.to_nat (channels r)) rows
                          /\ length rows = (S N * L)%nat
                          /\ Forall (fun row => length row = Z.to_nat (channels r)) rows
                          /\ rows = List.concat (map rows_of data)).
Proof.
  intros Hlen Hall.
  destruct (concatenate_uniform L (Z.to_nat (channels r)) data)
    as (rows & Hcat & Hrows & Hshape & Hcontent);
    [destruct data; cbn in Hlen; congruence | exact Hall |].
  unfold assemble. rewrite Hcat. rewrite Hlen in Hrows.
  destruct (channels r =? 1) eqn:Hmono.
  - apply Z.eqb_eq in Hmono. rewrite Hmono in Hshape. cbn in Hshape.
    pose proof (length_concat_uniform rows 1 Hshape) as Hflat.
    exists (A1 (List.concat rows)). cbn [flatten len].
    repeat split; [lia|]. exists (List.concat rows).
    split; [reflexivity|]. split; [lia|].
    rewrite Hcontent. apply concat_rows_entries.
  - exists (A2 (Z.to_nat (channels r)) rows). cbn [len].
    repeat split; [exact Hrows|]. exists rows. auto.
Qed.


End Finalizing.

Import Observation Timing.

(** ** The duration cap *)

Section DurationCap.

Context {F : Type} {FM : FileManager F}.

Implicit Types (env : Env) (w : World Q F) (r : AudioRecorder Q F) (D : Q).

Local Open Scope Q_scope.

Lemma seconds_0 : seconds 0 == 0.
Proof. reflexivity. Qed.

Lemma seconds_succ (n : nat) : seconds (S n) == seconds n + (1 # 10).
Proof.
  unfold seconds. rewrite Nat2Z.inj_succ. unfold Z.succ.
  rewrite inject_Z_plus. ring.
Qed.

Lemma seconds_le (m n : nat) : (m <= n)%nat -> seconds m <= seconds n.
Proof.
  intros Hmn. unfold seconds.
  assert (inject_Z (Z.of_nat m) <= inject_Z (Z.of_nat n)) as H
    by (rewrite <- Zle_Qle; lia).
  lra.
Qed.

Lemma seconds_lt_inv (m n : nat) : seconds m < seconds n -> (m < n)%nat.
Proof.
  intros Hlt. destruct (Nat.lt_ge_cases m n) as [|Hge]; [assumption|].
  apply seconds_le in Hge. lra.
Qed.

Lemma cap_reached_iff D (data : list ndarray) :
  0 < D ->
  cap_reached (Some D) data = true <-> D <= seconds (length data).
Proof.
  intros HD. unfold cap_reached, total_duration, chunk_duration, seconds. cbn.
  destruct (Qeq_bool D (0 # 1)) eqn:Hz.
  - apply Qeq_bool_iff in Hz. lra.
  - cbn. apply Qle_bool_iff.
Qed.

Lemma chunk_frames_Q r : chunk_frames r = Some (Z.quot (sample_rate r) 10).
Proof.
  unfold chunk_frames, chunk_duration. cbn.
  destruct (sample_rate r); reflexivity.
Qed.

Lemma within_cap_step env D r r' :
  0 < D -> max_duration r = Some D ->
  evolves env r r' -> within_cap D r -> within_cap D r'.
Proof.
  intros HD Hmax (_ & _ & _ & Hbuf) Hin data n Hdata Hlen.
  remember (_audio_data r) as d eqn:Hd. remember (_audio_data r') as d' eqn:Hd'.
  destruct Hbuf as [d | d | data0 k i frames chunk ovf _ _ Hcap].
  - apply (Hin data n); congruence.
  - assert (data = []) as -> by congruence. discriminate.
  - assert (data = data0 ++ [chunk]) as -> by congruence.
    rewrite length_app in Hlen. cbn in Hlen.
    assert (length data0 = n) as <- by lia.
    rewrite Hmax in Hcap.
    destruct (Qlt_le_dec (seconds (length data0)) D) as [|Hge]; [assumption|].
    apply (cap_reached_iff D data0 HD) in Hge. congruence.
Qed.

Lemma within_cap_path env D r r' :
  0 < D -> rtc (evolves env) r r' ->
  max_duration r = Some D -> within_cap D r -> within_cap D r'.
Proof.
  intros HD path. induction path as [|r1 r2 r3 Hstep _ IH]; [auto|].
  intros Hmax Hin. apply IH.
  - destruct Hstep as (_ & _ & -> & _). exact Hmax.
  - eapply within_cap_step; eauto.
Qed.

Lemma chunked_step env (cols : nat) r r' :
  delivers env cols -> evolves env r r' -> chunked cols r -> chunked cols r'.
Proof.
  intros Hdev (Hsr & _ & _ & Hbuf) Hin data frames Hdata Hframes.
  assert (chunk_frames r = Some frames) as Hframes0
    by (rewrite chunk_frames_Q in *; congruence).
  remember (_audio_data r) as d eqn:Hd. remember (_audio_data r') as d' eqn:Hd'.
  destruct Hbuf as [d | d | data0 k i frames' chunk ovf Hf Hread _].
  - apply Hin; congruence.
  - assert (data = []) as -> by congruence. constructor.
  - assert (data = data0 ++ [chunk]) as -> by congruence.
    apply Forall_app. split; [apply Hin; auto|].
    constructor; [|constructor].
    assert (frames' = frames) as -> by congruence.
    eapply Hdev; eauto.
Qed.

Lemma chunked_path env (cols : nat) r r' :
  delivers env cols -> rtc (evolves env) r r' -> chunked cols r -> chunked cols r'.
Proof.
  intros Hdev path. induction path; eauto using chunked_step.
Qed.

(** The bound on the chunks of a buffer within the cap. *)
Lemma within_cap_bound D r (data : list ndarray) :
  0 < D -> within_cap D r -> _audio_data r = Some data ->
  seconds (length data) < D + (1 # 10)
  /\ forall k : nat, D == seconds k -> seconds (length data) <= D.
Proof.
  intros HD Hin Hdata. destruct (length data) as [|n] eqn:Hlen.
  - split; [|intros k _]; rewrite seconds_0; lra.
  - pose proof (Hin data n Hdata Hlen) as Hn.
    split; [rewrite seconds_succ; lra|].
    intros k Hk. rewrite Hk in Hn |- *. apply seconds_lt_inv in Hn.
    apply seconds_le. lia.
Qed.

(** From chunks to samples: [n] chunks of the frames asked for at sample
    rate [sr] last no longer than [seconds n]. *)
Lemma samples_of_chunks (sr : Z) (n : nat) :
  (0 < sr)%Z ->
  inject_Z (Z.of_nat (n * Z.to_nat (Z.quot sr 10))) <= seconds n * inject_Z sr.
Proof.
  intros Hsr. unfold seconds.
  rewrite Z.quot_div_nonneg by lia.
  pose proof (Z.mul_div_le sr 10 ltac:(lia)) as Hdiv.
  assert (0 <= sr / 10)%Z as Hq by (apply Z.div_pos; lia).
  rewrite Nat2Z.inj_mul, Z2Nat.id by assumption.
  unfold Qle, Qmult, inject_Z. cbn. nia.
Qed.

Lemma captured_some w (chunk : ndarray) (data : list ndarray) :
  captured w = chunk :: data -> _audio_data (recorder w) = Some (chunk :: data).
Proof.
  unfold captured. destruct (_audio_data (recorder w)); [congruence | discriminate].
Qed.

(** C1, amended. With a cap of [D > 0] seconds configured, whatever the
    device does and however start, stop and the steps of the thread are
    interleaved: once chunk-count times chunk-duration has reached [D]
    the thread appends nothing more; the buffer never holds [D] seconds
    plus one chunk period or more, and holds at most [D] seconds when [D]
    is a whole number of chunk periods; and the array [stop_recording]
    saves, when the device delivers the frames asked for, has fewer
    samples per channel than [D] plus one chunk period of audio at the
    sample rate (at most [D] seconds of it when [D] is a whole number of
    chunk periods). *)
Theorem duration_cap_is_soft env (schedule : list action) (sr ch : Z)
    (fm : option F) D :
  0 < D ->
  let w := run env schedule (boot (__init__ sr ch fm (Some D))) in
  let n := length (captured w) in
  (D <= seconds n -> captured (worker_step env w) = captured w)
  /\ seconds n < D + (1 # 10)
  /\ (forall k : nat, D == seconds k -> seconds n <= D)
  /\ (_is_recording (recorder w) = true -> (0 < sr)%Z -> delivers env (Z.to_nat ch) ->
      forall path, snd (stop_recording env w) = Some path ->
      exists audio,
        stop_recording env w = _save_audio_data audio (halt env w)
        /\ inject_Z (Z.of_nat (len audio)) < (D + (1 # 10)) * inject_Z sr
        /\ (forall k : nat, D == seconds k ->
            inject_Z (Z.of_nat (len audio)) <= D * inject_Z sr)).
Proof.
  intros HD w n.
  pose proof (run_evolves env schedule (boot (__init__ sr ch fm (Some D)))) as path.
  fold w in path.
  destruct (evolves_config env _ _ path) as (Hsr & Hch & Hmax). cbn in Hsr, Hch, Hmax.
  assert (within_cap D (recorder w)) as Hin.
  { eapply within_cap_path; [exact HD | exact path | reflexivity |].
    intros data m Hdata. discriminate. }
  assert (seconds n < D + (1 # 10) /\ forall k : nat, D == seconds k -> seconds n <= D)
    as [Hsoft Hexact].
  { subst n. unfold captured. destruct (_audio_data (recorder w)) as [data|] eqn:Hdata.
    - eapply within_cap_bound; eauto.
    - cbn [length]. split; [|intros k _]; rewrite seconds_0; lra. }
  repeat split; [| exact Hsoft | exact Hexact |].
  - intros Hfull. unfold captured.
    destruct (worker_step_buffer env w) as [-> | (data & chunk & Hdata & Hcap & _)];
      [reflexivity|].
    exfalso. subst n. unfold captured in Hfull. rewrite Hdata in Hfull.
    rewrite Hmax in Hcap. apply (cap_reached_iff D data HD) in Hfull. congruence.
  - intros active Hpos Hdev path0 Hsome.
    rewrite (stop_recording_active env w active) in Hsome |- *.
    pose proof (halt_evolves env w) as stop_path.
    destruct (evolves_config env _ _ stop_path) as (Hsr' & Hch' & Hmax').
    assert (within_cap D (recorder (halt env w))) as Hin'
      by (eapply within_cap_path; eauto).
    assert (chunked (Z.to_nat ch) (recorder (halt env w))) as Hshape.
    { eapply chunked_path; [exact Hdev | exact (transitivity path stop_path) |].
      intros data frames Hdata. discriminate. }
    destruct (captured (halt env w)) as [|chunk data] eqn:Hcap; [discriminate|].
    apply captured_some in Hcap.
    pose proof (Hshape _ _ Hcap (chunk_frames_Q _)) as Hall.
    rewrite Hsr', Hsr in Hall. rewrite <- Hch, <- Hch' in Hall.
    destruct (assemble_uniform (recorder (halt env w)) (length data) _ (chunk :: data)
                eq_refl Hall) as (audio & Hasm & Hl & _).
    exists audio. lazy beta iota zeta. rewrite Hasm. split; [reflexivity|].
    change (S (length data)) with (length (chunk :: data)) in Hl. rewrite Hl.
    pose proof (samples_of_chunks sr (length (chunk :: data)) Hpos) as Hsamples.
    destruct (within_cap_bound D _ _ HD Hin' Hcap) as [Hlt Hle].
    assert (0 < inject_Z sr) as Hrate by (change (inject_Z 0 < inject_Z sr); rewrite <- Zlt_Qlt; exact Hpos).
    split.
    + eapply Qle_lt_trans; [exact Hsamples|].
      apply Qmult_lt_compat_r; assumption.
    + intros k Hk. eapply Qle_trans; [exact Hsamples|].
      apply Qmult_le_compat_r; [apply (Hle k Hk) | apply Qlt_le_weak, Hrate].
Qed.

End DurationCap.

Import Twin.

(** ** A failure of the device *)

Section CaptureFailure.

Context {T : Type} {PF : PyFloat T} {F : Type} {FM : FileManager F}.

Implicit Types (env : Env) (w : World T F).

(** C3, amended. When opening the stream or reading a chunk raises, the
    thread logs the error and returns, leaving the buffer as it was and
    the recording flag cleared. A [stop_recording] that follows returns
    [None] whatever the buffer holds and leaves the recorder as it is;
    and the [start_recording] after it succeeds, on an emptied buffer, as
    soon as a thread can be started. *)
Theorem capture_failure_ends_session env w (th : Thread) (frames : Z) :
  _recording_thread (recorder w) = Some th ->
  chunk_frames (recorder w) = Some frames ->
  (t_pc th = PcOpen
   /\ is_ok (stream_open env (t_session th) (sample_rate (recorder w))
               (channels (recorder w)) frames) = false)
  \/ (t_pc th = PcRead
      /\ is_ok (stream_read env (t_session th) (t_reads th) frames) = false) ->
  let w' := worker_step env w in
  thread_done (recorder w')
  /\ _is_recording (recorder w') = false
  /\ _audio_data (recorder w') = _audio_data (recorder w)
  /\ logs w' = logs w ++ [(ERROR, "Error in continuous recording")]
  /\ snd (stop_recording env w') = None
  /\ recorder (fst (stop_recording env w')) = recorder w'
  /\ (is_ok (thread_start env (session_no w')) = true ->
      let (w'', started) := start_recording env (fst (stop_recording env w')) in
      started = true
      /\ _is_recording (recorder w'') = true
      /\ _audio_data (recorder w'') = Some []).
Proof.
  intros Hth Hframes Hfail w'.
  assert (w' = worker_failed th w) as Hw'.
  { subst w'. unfold worker_step. rewrite Hth, Hframes.
    destruct Hfail as [[-> Hfail] | [-> Hfail]].
    - destruct (stream_open _ _ _ _ _); [discriminate | reflexivity].
    - destruct (stream_read _ _ _ _); [discriminate | reflexivity]. }
  rewrite Hw'. unfold worker_failed, thread_done, stop_recording, start_recording.
  cbn. repeat split.
  intros Hstart. destruct (thread_start env (session_no w)); [|discriminate].
  cbn. auto.
Qed.

End CaptureFailure.

(** ** A cap of zero *)

Section ZeroCap.

Context {T : Type} {PF : PyFloat T} {F : Type} {FM : FileManager F}.

Implicit Types (env : Env) (w : World T F) (z : T).

Ltac open_world w :=
  destruct w as [[? ? ? md ? ? ? ?] ? ?]; unfold uncapped in *; cbn in *; subst md.

Lemma uncapped_path env w w' :
  rtc (evolves env) (recorder w) (recorder w') -> uncapped w -> uncapped w'.
Proof.
  intros path Hun. destruct (evolves_config env _ _ path) as (_ & _ & Hmax).
  unfold uncapped in *. congruence.
Qed.

Lemma worker_step_recap env z w :
  truthy z = false -> uncapped w ->
  worker_step env (recap (Some z) w) = recap (Some z) (worker_step env w).
Proof.
  intros Hz Hun. open_world w.
  unfold worker_step, recap, worker_failed, chunk_frames, cap_reached. cbn.
  rewrite Hz. cbn. repeat case_match; reflexivity.
Qed.

Lemma run_worker_recap fuel env z w :
  truthy z = false -> uncapped w ->
  run_worker fuel env (recap (Some z) w) = recap (Some z) (run_worker fuel env w).
Proof.
  intros Hz. revert w. induction fuel as [|fuel IH]; intros w Hun; cbn; [reflexivity|].
  change (thread_alive (set_max_duration (Some z) (recorder w)))
    with (thread_alive (recorder w)).
  case_match; [|reflexivity].
  rewrite worker_step_recap by assumption.
  apply IH. eapply uncapped_path; [apply rtc_once, worker_step_evolves | exact Hun].
Qed.

Lemma halt_recap env z w :
  truthy z = false -> uncapped w ->
  halt env (recap (Some z) w) = recap (Some z) (halt env w).
Proof.
  intros Hz Hun. unfold halt, join. cbn -[run_worker].
  case_match; [|reflexivity].
  rewrite <- (run_worker_recap 3 env z) by (try exact Hz; exact Hun).
  reflexivity.
Qed.

Lemma save_recap a (d : option T) w :
  _save_audio_data a (recap d w)
  = (recap d (fst (_save_audio_data a w)), snd (_save_audio_data a w)).
Proof.
  unfold _save_audio_data, recap. cbn. repeat case_match; reflexivity.
Qed.

Lemma stop_recording_recap env z w :
  truthy z = false -> uncapped w ->
  stop_recording env (recap (Some z) w)
  = (recap (Some z) (fst (stop_recording env w)), snd (stop_recording env w)).
Proof.
  intros Hz Hun. unfold stop_recording. cbn -[halt].
  case_match; [reflexivity|].
  rewrite halt_recap by assumption. cbn -[halt].
  change (assemble (set_max_duration (Some z) (recorder (halt env w))))
    with (assemble (recorder (halt env w))).
  repeat case_match; try reflexivity.
  apply save_recap.
Qed.

Lemma start_recording_recap env (d : option T) w :
  start_recording env (recap d w)
  = (recap d (fst (start_recording env w)), snd (start_recording env w)).
Proof.
  unfold start_recording. cbn. repeat case_match; reflexivity.
Qed.

Lemma act_recap env z a w :
  truthy z = false -> uncapped w ->
  act env a (recap (Some z) w) = recap (Some z) (act env a w).
Proof.
  intros Hz Hun. destruct a; cbn.
  - rewrite start_recording_recap. reflexivity.
  - rewrite stop_recording_recap by assumption. reflexivity.
  - apply worker_step_recap; assumption.
Qed.

Lemma run_recap env z schedule w :
  truthy z = false -> uncapped w ->
  run env schedule (recap (Some z) w) = recap (Some z) (run env schedule w).
Proof.
  intros Hz. revert w. induction schedule as [|a schedule IH]; intros w Hun; cbn;
    [reflexivity|].
  rewrite act_recap by assumption. apply IH.
  eapply uncapped_path; [apply act_evolves | exact Hun].
Qed.

Lemma run_app env (s1 s2 : list action) w :
  run env (s1 ++ s2) w = run env s2 (run env s1 w).
Proof. unfold run. apply fold_left_app. Qed.

(** One turn of the loop, without a cap, on a read that succeeds. *)
Lemma uncapped_loop_turn env z (sr ch : Z) (fm : option F) (frames : Z)
    (k i sessions : nat) (data : list ndarray) (lg : list log_record) :
  truthy z = false ->
  is_ok (stream_read env k i frames) = true ->
  to_int (fmul lit_0_1 (of_int sr)) = Some frames ->
  exists chunk lg',
    worker_step env (worker_step env
      (mkWorld (mkRecorder sr ch fm (Some z) true
                  (Some (mkThread k PcLoopHead i)) (Some data) false) sessions lg))
    = mkWorld (mkRecorder sr ch fm (Some z) true
                 (Some (mkThread k PcLoopHead (S i))) (Some (data ++ [chunk])) false)
        sessions lg'.
Proof.
  intros Hz Hread Hframes.
  unfold worker_step, chunk_frames, chunk_duration. cbn. rewrite Hframes.
  destruct (stream_read env k i frames) as [[chunk overflowed]|]; [|discriminate].
  exists chunk. destruct overflowed; cbn; rewrite Hz; cbn; eexists; reflexivity.
Qed.

(** Without a cap and on a device without failure the thread, left to
    itself, goes on reading: after the start, the opening of the stream
    and [n] turns of the loop it stands at the head of the loop with [n]
    chunks in the buffer. *)
Lemma uncapped_thread_keeps_reading env z (sr ch : Z) (fm : option F) (frames : Z)
    (n : nat) :
  truthy z = false -> healthy env ->
  to_int (fmul lit_0_1 (of_int sr)) = Some frames ->
  exists data lg,
    length data = n
    /\ run env (DoStart :: repeat DoWork (1 + 2 * n)) (boot (__init__ sr ch fm (Some z)))
       = mkWorld (mkRecorder sr ch fm (Some z) true
                    (Some (mkThread 0 PcLoopHead n)) (Some data) false) 1 lg.
Proof.
  intros Hz (Hstart & Hopen & Hread) Hframes.
  induction n as [|n (data & lg & Hlen & IH)].
  - exists [], [(INFO, "Starting recording")]. split; [reflexivity|].
    cbn. unfold start_recording. cbn. rewrite Hstart. cbn.
    unfold worker_step, chunk_frames, chunk_duration. cbn.
    rewrite Hframes, Hopen. reflexivity.
  - replace (1 + 2 * S n)%nat with ((1 + 2 * n) + 2)%nat by lia.
    rewrite repeat_app, app_comm_cons, run_app, IH.
    change (run env (repeat DoWork 2) ?w) with (worker_step env (worker_step env w)).
    destruct (uncapped_loop_turn env z sr ch fm frames 0 n 1 data lg Hz
                (Hread 0%nat n frames) Hframes) as (chunk & lg' & ->).
    exists (data ++ [chunk]), lg'. split; [rewrite length_app; cbn; lia | reflexivity].
Qed.

End ZeroCap.

Import AsyncRecorder.

(** ** The configuration of the cooperative recorder *)

Section AsyncConfiguration.

Context {T : Type} {PF : PyFloat T} {F : Type} {FM : FileManager F}.

Implicit Types (env : AEnv T) (a : AWorld T F).

(** The cap of a recorder is never reassigned. *)
Lemma task_step_max_duration env a :
  max_duration (rec_of (task_step env a)) = max_duration (rec_of a).
Proof.
  unfold task_step, loop_iteration, task_failed, rec_of.
  repeat case_match; reflexivity.
Qed.

Lemma after_task_max_duration a :
  max_duration (rec_of (after_task a)) = max_duration (rec_of a).
Proof. unfold after_task, stop_failed, rec_of. repeat case_match; reflexivity. Qed.

Lemma await_task_max_duration (tk : Task T) a :
  max_duration (rec_of (await_task tk a)) = max_duration (rec_of a).
Proof.
  unfold await_task. destruct (k_pc tk); try reflexivity.
  all: apply after_task_max_duration.
Qed.

Lemma resume_stop_max_duration i a :
  max_duration (rec_of (resume_stop i a)) = max_duration (rec_of a).
Proof.
  unfold resume_stop.
  destruct (suspended_stops a !! i) as [[k|audio]|]; [| |reflexivity].
  - destruct (find_task k a) as [tk|]; [|reflexivity].
    destruct (k_pc tk) eqn:Hpc; try reflexivity.
    all: rewrite await_task_max_duration; reflexivity.
  - cbn.
    pose proof (save_keeps_recording audio (inherited a)) as (_ & _ & Hmax & _).
    destruct (_save_audio_data audio (inherited a)) as [w path]. exact Hmax.
Qed.

Lemma a_act_max_duration env (x : a_action T) a :
  max_duration (rec_of (a_act env x a)) = max_duration (rec_of a).
Proof.
  destruct x; cbn.
  - unfold start_recording_async, replace_task, rec_of. repeat case_match; reflexivity.
  - unfold stop_recording_async.
    destruct (negb _); [reflexivity|]. cbn.
    destruct (_async_task a);
      [rewrite await_task_max_duration|rewrite after_task_max_duration]; reflexivity.
  - apply task_step_max_duration.
  - unfold earlier_task_step.
    destruct (earlier_tasks a !! i) as [tk|]; [|reflexivity].
    unfold rec_of. cbn. apply (task_step_max_duration env (set_async_task (Some tk) a)).
  - apply resume_stop_max_duration.
Qed.

Lemma a_run_max_duration env (schedule : list (a_action T)) a :
  max_duration (rec_of (a_run env schedule a)) = max_duration (rec_of a).
Proof.
  revert a. induction schedule as [|x schedule IH]; intros a; [reflexivity|].
  change (a_run env (x :: schedule) a) with (a_run env schedule (a_act env x a)).
  rewrite IH. apply a_act_max_duration.
Qed.

End AsyncConfiguration.

(** ** The await ends *)

Section Awaiting.

Context {T : Type} {PF : PyFloat T} {F : Type} {FM : FileManager F}.

Implicit Types (env : AEnv T) (a : AWorld T F).

(** Once the stop event is set, the task ends within its next slice, so
    that a call of [stop_recording] suspended on it can go on. *)
Lemma slice_after_stop_ends_task env a :
  _stop_event (rec_of a) = true ->
  task_pending (task_step env a) = false.
Proof.
  destruct a as [[[sr ch fm md rec th data stop] sessions lg] [[k pc i start]|] cb tr calls
                   earlier stops returns];
    unfold rec_of; cbn; [|reflexivity].
  intros ->.
  destruct pc; try reflexivity.
  all: cbn; unfold task_step, loop_iteration, task_failed, rec_of; cbn.
  all: repeat (case_match; cbn in *; try reflexivity; try discriminate).
Qed.

End Awaiting.
Import AsyncRecorder Progress.

(** ** The progress reports of the cooperative recorder *)

Section ProgressReports.

Context {F : Type} {FM : FileManager F}.

Implicit Types (env : AEnv Q) (a : AWorld Q F).

Local Open Scope Q_scope.

Lemma seq_snoc (n : nat) : seq 1 (S n) = seq 1 n ++ [S n].
Proof. rewrite seq_S. reflexivity. Qed.

Ltac open_aworld a :=
  destruct a as [[[sr ch fm md rec th data stop] sessions lg] task cb tr calls
                 earlier_tks stops returns].

Lemma loop_iteration_in_session env t0 earlier (tk : Task Q) a :
  k_start_time tk = Some (loop_time env t0) ->
  time_reads a = (t0 + S (length (captured (inherited a))))%nat ->
  (_stop_event (rec_of a) = true -> _is_recording (rec_of a) = false) ->
  Forall ended (earlier_tasks a) ->
  is_Some (_progress_callback a) ->
  progress_calls a
  = earlier ++ map (report env (max_duration (rec_of a)) t0)
                 (seq 1 (length (captured (inherited a)))) ->
  (captured (inherited a) <> [] -> cap_reached (max_duration (rec_of a)) [] = false) ->
  in_session env t0 earlier (loop_iteration env tk a).
Proof.
  open_aworld a. unfold rec_of, captured. cbn.
  intros Hstart Htr Hstop Hearlier [callback ->] Hcalls Hfirst.
  unfold loop_iteration, in_session, rec_of, captured, task_failed.
  cbn -[chunk_frames cap_reached].
  destruct stop.
  { cbn. repeat split; eauto. intros Hrec. specialize (Hstop eq_refl). congruence. }
  destruct (chunk_frames _) as [frames|]; [|cbn; repeat split; eauto].
  destruct (stream_read _ _ _ _) as [[chunk overflowed]|];
    [|cbn; repeat split; eauto; discriminate].
  destruct data as [data|];
    [|destruct overflowed; cbn; repeat split; eauto; discriminate].
  cbn in Htr, Hcalls, Hfirst.
  destruct (cap_reached md data) eqn:Hcap;
    [destruct overflowed; cbn -[cap_reached]; repeat split; eauto|].
  assert (calls ++ [progress_value md (loop_time env tr - loop_time env t0)]
          = earlier ++ map (report env md t0) (seq 1 (length (data ++ [chunk])))) as Hcalls'.
  { rewrite length_app. cbn [length]. rewrite Nat.add_1_r, seq_snoc, map_app, app_assoc.
    rewrite Hcalls, Htr. reflexivity. }
  assert (data ++ [chunk] <> [] -> cap_reached md [] = false) as Hfirst'.
  { intros _. destruct data; [exact Hcap | apply Hfirst; discriminate]. }
  assert (S tr = (t0 + S (length (data ++ [chunk])))%nat) as Htr'
    by (rewrite length_app; cbn [length]; lia).
  destruct overflowed; cbn -[cap_reached]; rewrite Hstart; cbn -[cap_reached];
    destruct (callback _); cbn -[cap_reached]; repeat split; eauto; discriminate.
Qed.

(** [in_session] reads these parts of the world only. *)
Lemma in_session_ext env t0 earlier a a' :
  _stop_event (rec_of a') = _stop_event (rec_of a) ->
  _is_recording (rec_of a') = _is_recording (rec_of a) ->
  max_duration (rec_of a') = max_duration (rec_of a) ->
  _audio_data (rec_of a') = _audio_data (rec_of a) ->
  _async_task a' = _async_task a ->
  _progress_callback a' = _progress_callback a ->
  time_reads a' = time_reads a ->
  progress_calls a' = progress_calls a ->
  earlier_tasks a' = earlier_tasks a ->
  in_session env t0 earlier a -> in_session env t0 earlier a'.
Proof.
  unfold in_session, captured, rec_of.
  intros -> -> -> -> -> -> -> -> ->. auto.
Qed.

Lemma task_failed_in_session env t0 earlier (tk : Task Q) a :
  (_stop_event (rec_of a) = true -> _is_recording (rec_of a) = false) ->
  Forall ended (earlier_tasks a) ->
  is_Some (_progress_callback a) ->
  progress_calls a
  = earlier ++ map (report env (max_duration (rec_of a)) t0)
                 (seq 1 (length (captured (inherited a)))) ->
  (captured (inherited a) <> [] -> cap_reached (max_duration (rec_of a)) [] = false) ->
  in_session env t0 earlier (task_failed tk a).
Proof.
  intros Hstop Hearlier Hcb Hcalls Hfirst.
  unfold in_session, task_failed, rec_of, captured in *. cbn.
  repeat split; auto; discriminate.
Qed.

Lemma task_step_in_session env t0 earlier a :
  in_session env t0 earlier a -> in_session env t0 earlier (task_step env a).
Proof.
  intros Hin. unfold task_step.
  destruct (_async_task a) as [tk|] eqn:Htask; [|exact Hin].
  destruct (k_pc tk) eqn:Hpc; try exact Hin.
  - (* the first slice *)
    pose proof Hin as (Hstop & Hearlier & Hcb & Hcalls & Hfirst & Hpos).
    rewrite Htask, Hpc in Hpos. destruct Hpos as [Hdata Htr].
    assert (captured (inherited a) = []) as Hnone
      by (unfold captured; fold (rec_of a); rewrite Hdata; reflexivity).
    destruct (chunk_frames (rec_of a)) as [frames|].
    + rewrite Htr.
      destruct (stream_open _ _ _ _ _).
      * apply loop_iteration_in_session; cbn; try assumption; try reflexivity.
        rewrite Htr, Hnone. cbn. lia.
      * apply task_failed_in_session; assumption.
    + unfold in_session, rec_of, captured in *. cbn. repeat split; auto.
  - (* a later slice *)
    destruct Hin as (Hstop & Hearlier & Hcb & Hcalls & Hfirst & Hpos).
    rewrite Htask, Hpc in Hpos. destruct Hpos as [Hstart Htr].
    apply loop_iteration_in_session; assumption.
Qed.

Lemma after_task_in_session env t0 earlier a :
  in_session env t0 earlier a -> in_session env t0 earlier (after_task a).
Proof.
  unfold after_task, stop_failed.
  repeat case_match; apply in_session_ext; reflexivity.
Qed.

Lemma await_task_in_session env t0 earlier (tk : Task Q) a :
  in_session env t0 earlier a -> in_session env t0 earlier (await_task tk a).
Proof.
  intros Hin. unfold await_task, stop_failed.
  destruct (k_pc tk); try (revert Hin; apply in_session_ext; reflexivity).
  apply after_task_in_session, Hin.
Qed.

Lemma stop_recording_async_in_session env t0 earlier a :
  in_session env t0 earlier a ->
  in_session env t0 earlier (stop_recording_async a).
Proof.
  intros Hin. unfold stop_recording_async.
  destruct (negb (_is_recording (rec_of a))).
  { revert Hin. apply in_session_ext; reflexivity. }
  destruct Hin as (Hstop & Hearlier & Hcb & Hcalls & Hfirst & Hpos).
  assert (in_session env t0 earlier
            (with_inherited (with_recorder (set_is_recording false))
               (with_inherited (with_recorder (set_stop_event true))
                  (with_inherited (emit INFO "Stopping async recording") a)))) as Hin.
  { unfold in_session, rec_of, captured in *. cbn. repeat split; auto.
    destruct (_async_task a) as [tk|]; [|exact Hpos].
    destruct (k_pc tk); auto. discriminate. }
  cbn. destruct (_async_task a);
    [apply await_task_in_session | apply after_task_in_session]; exact Hin.
Qed.

Lemma resume_stop_in_session env t0 earlier i a :
  in_session env t0 earlier a -> in_session env t0 earlier (resume_stop i a).
Proof.
  intros Hin. unfold resume_stop.
  destruct (suspended_stops a !! i) as [[k|audio]|]; [| |exact Hin].
  - destruct (find_task k a) as [tk|]; [|exact Hin].
    destruct (k_pc tk) eqn:Hpc; try exact Hin.
    all: apply await_task_in_session; revert Hin; apply in_session_ext; reflexivity.
  - cbn.
    pose proof (save_keeps_recording audio (inherited a))
      as (_ & _ & Hmax & Hrec & _ & Hdata & Hev).
    destruct (_save_audio_data audio (inherited a)) as [w path].
    cbn in *. revert Hin. apply in_session_ext; unfold rec_of; cbn; auto.
Qed.

(** A task that has ended does nothing when it is scheduled. *)
Lemma task_step_ended env (tk : Task Q) a :
  ended tk -> task_step env (set_async_task (Some tk) a) = set_async_task (Some tk) a.
Proof. intros [Hpc|Hpc]; unfold task_step; cbn; rewrite Hpc; reflexivity. Qed.

Lemma earlier_task_step_in_session env t0 earlier i a :
  in_session env t0 earlier a -> in_session env t0 earlier (earlier_task_step env i a).
Proof.
  intros Hin. unfold earlier_task_step.
  destruct (earlier_tasks a !! i) as [tk|] eqn:Htk; [|exact Hin].
  assert (ended tk) as Hended.
  { destruct Hin as (_ & Hearlier & _). rewrite Forall_lookup in Hearlier. eauto. }
  rewrite task_step_ended by exact Hended. cbn.
  revert Hin. apply in_session_ext; try reflexivity.
  cbn. apply list_insert_id, Htk.
Qed.

Lemma start_recording_async_in_session env (callback : Q -> result unit) a :
  snd (start_recording_async env (Some callback) a) = true ->
  tasks_ended a ->
  in_session env (time_reads a) (progress_calls a)
    (fst (start_recording_async env (Some callback) a)).
Proof.
  intros Hstarted [Hpending Hearlier]. revert Hstarted.
  unfold start_recording_async.
  destruct (_is_recording (rec_of a)); [discriminate|].
  destruct (create_task env _); cbn; [|discriminate].
  intros _. open_aworld a.
  unfold in_session, task_pending, replace_task, rec_of, captured in *. cbn in *.
  assert (forall old : Task Q, match k_pc old with TkNew | TkSuspended => true | _ => false end = false ->
            Forall ended (earlier_tks ++ [old])) as Hall.
  { intros old Hold. apply Forall_app. split; [exact Hearlier|].
    constructor; [|constructor].
    unfold ended. destruct (k_pc old); auto; discriminate. }
  destruct task as [old|]; cbn; rewrite app_nil_r; repeat split; eauto; done.
Qed.

Lemma a_run_in_session env t0 earlier (schedule : list (a_action Q)) a :
  no_restart schedule ->
  in_session env t0 earlier a -> in_session env t0 earlier (a_run env schedule a).
Proof.
  intros Hone. revert a.
  induction Hone as [|x schedule Hx _ IH]; intros a Hin; cbn; [exact Hin|].
  apply IH. destruct x; cbn.
  - destruct Hx.
  - apply stop_recording_async_in_session, Hin.
  - apply task_step_in_session, Hin.
  - apply earlier_task_step_in_session, Hin.
  - apply resume_stop_in_session, Hin.
Qed.

Lemma cap_reached_nonzero (D : Q) (data : list ndarray) :
  ~ D == 0 ->
  cap_reached (Some D) data = true <-> D <= seconds (length data).
Proof.
  intros HD. unfold cap_reached, total_duration, chunk_duration, seconds. cbn.
  destruct (Qeq_bool D (0 # 1)) eqn:Hz.
  - apply Qeq_bool_iff in Hz. contradiction.
  - cbn. apply Qle_bool_iff.
Qed.

(** The value reported, in closed form. *)
Lemma progress_value_capped (D e : Q) :
  ~ D == 0 -> progress_value (Some D) e == Qmin (e / D) 1.
Proof.
  intros HD. unfold progress_value, py_min. cbn.
  destruct (Qeq_bool D 0) eqn:Hz; [apply Qeq_bool_iff in Hz; contradiction|].
  cbn. destruct (Qle_bool (e / D) 1) eqn:Hle; cbn.
  - apply Qle_bool_iff in Hle. symmetry. apply Q.min_l, Hle.
  - assert (~ e / D <= 1) as Hgt by (rewrite <- Qle_bool_iff; congruence).
    symmetry. apply Q.min_r. lra.
Qed.

Lemma progress_value_uncapped (md : option Q) (e : Q) :
  md = None \/ (exists D, md = Some D /\ D == 0) -> progress_value md e = e.
Proof.
  intros [-> | (D & -> & HD)]; [reflexivity|].
  unfold progress_value. cbn.
  apply Qeq_bool_iff in HD. rewrite HD. reflexivity.
Qed.

(** Without a cap, with a cap of zero or with a positive cap, the value
    grows with the time elapsed. *)
Lemma progress_value_mono (md : option Q) (e1 e2 : Q) :
  cap_reached md [] = false -> e1 <= e2 ->
  progress_value md e1 <= progress_value md e2.
Proof.
  intros Hgood Hle. destruct md as [D|]; [|exact Hle].
  destruct (Qeq_dec D 0) as [Hz|Hnz].
  - rewrite !(progress_value_uncapped (Some D)) by eauto. exact Hle.
  - rewrite !progress_value_capped by assumption.
    assert (0 < D) as HD.
    { destruct (Qlt_le_dec 0 D) as [|Hneg]; [assumption|].
      rewrite <- seconds_0 in Hneg.
      apply (cap_reached_nonzero D [] Hnz) in Hneg. congruence. }
    assert (e1 / D <= e2 / D) as Hdiv.
    { unfold Qdiv. apply Qmult_le_compat_r; [exact Hle|].
      apply Qlt_le_weak, Qinv_lt_0_compat, HD. }
    apply Q.min_le_compat_r, Hdiv.
Qed.

Lemma map_seq_sorted (f : nat -> Q) (start n : nat) :
  (forall i j, (i <= j)%nat -> f i <= f j) ->
  StronglySorted Qle (map f (seq start n)).
Proof.
  intros Hf. revert start. induction n as [|n IH]; intros start; cbn; constructor.
  - apply IH.
  - apply Forall_map, Forall_forall. intros j Hj.
    apply elem_of_seq in Hj. apply Hf. lia.
Qed.

(** C6, amended. In every session of the cooperative recorder that starts
    with a progress callback while no task of an earlier session is still
    running, whatever the recorder went through before, the callback is
    called once per appended chunk, with [min(elapsed / max_duration, 1.0)]
    when [max_duration] is set and not zero and with the elapsed seconds
    otherwise, [elapsed] being the clock at that moment less the clock at
    the start of the task. On a clock that never goes back from the start
    of the task on, the values of the session never decrease. When the
    loop ends by reaching a cap [D > 0], on a clock on which no chunk
    arrives sooner than its duration, the last value is 1. *)
Theorem progress_reports env (callback : Q -> result unit)
    (schedule : list (a_action Q)) (a0 : AWorld Q F) :
  snd (start_recording_async env (Some callback) a0) = true ->
  tasks_ended a0 ->
  no_restart schedule ->
  let md := max_duration (rec_of a0) in
  let t0 := time_reads a0 in
  let a := a_run env (ADoStart (Some callback) :: schedule) a0 in
  let session_calls := map (report env md t0) (seq 1 (length (captured (inherited a)))) in
  progress_calls a = progress_calls a0 ++ session_calls
  /\ (forall D e, md = Some D -> ~ D == 0 -> progress_value md e == Qmin (e / D) 1)
  /\ (forall e, md = None \/ (exists D, md = Some D /\ D == 0) -> progress_value md e = e)
  /\ (monotonic (clock_from env t0) -> StronglySorted Qle session_calls)
  /\ (forall D, md = Some D -> 0 < D -> real_time (clock_from env t0) -> ended_by_cap a ->
      exists v, last (progress_calls a) = Some v /\ v == 1).
Proof.
  intros Hstarted Hended Hone md t0 a session_calls.
  assert (in_session env t0 (progress_calls a0) a)
    as (Hstop & Hearlier & Hcb & Hcalls & Hfirst & Hpos).
  { subst a. cbn. apply a_run_in_session; [exact Hone|].
    apply start_recording_async_in_session; assumption. }
  assert (max_duration (rec_of a) = md) as Hmd.
  { subst a. rewrite a_run_max_duration. reflexivity. }
  rewrite Hmd in *. fold session_calls in Hcalls.
  repeat split.
  - exact Hcalls.
  - intros D e -> HD. apply progress_value_capped, HD.
  - intros e. apply progress_value_uncapped.
  - intros Hclock. subst session_calls.
    destruct (captured (inherited a)) as [|chunk data] eqn:Hdata; [constructor|].
    apply map_seq_sorted. intros i j Hij. unfold report.
    apply progress_value_mono; [apply Hfirst; discriminate|].
    specialize (Hclock i j Hij). unfold clock_from in Hclock. lra.
  - intros D HD Hpos_D Hreal (Hrec & tk & Htask & Hpc).
    rewrite Htask, Hpc in Hpos. specialize (Hpos Hrec).
    rewrite HD in *.
    apply (cap_reached_iff D _ Hpos_D) in Hpos.
    subst session_calls.
    destruct (length (captured (inherited a))) as [|n] eqn:Hlen.
    { rewrite seconds_0 in Hpos. lra. }
    exists (report env (Some D) t0 (S n)). split.
    + rewrite Hcalls, seq_snoc, map_app, app_assoc. cbn [map].
      rewrite HD. apply last_snoc.
    + unfold report. rewrite progress_value_capped by lra.
      specialize (Hreal (S n)). unfold clock_from in Hreal.
      rewrite Nat.add_0_r in Hreal.
      apply Q.min_r. apply Qle_shift_div_l; [exact Hpos_D|]. lra.
Qed.

End ProgressReports.

(** ** A cap of zero, cooperative recorder *)

Section AsyncZeroCap.

Context {T : Type} {PF : PyFloat T} {F : Type} {FM : FileManager F}.

Implicit Types (env : AEnv T) (a : AWorld T F) (z : T).

Ltac open_aworld a :=
  destruct a as [[[sr ch fm md rec th data stop] sessions lg] task cb tr calls
                 earlier_tks stops returns];
  unfold a_uncapped, rec_of in *; cbn in *; subst md.

Lemma loop_iteration_recap env z (tk : Task T) a :
  truthy z = false -> a_uncapped a ->
  loop_iteration env tk (a_recap (Some z) a) = a_recap (Some z) (loop_iteration env tk a).
Proof.
  intros Hz Hun. open_aworld a.
  unfold loop_iteration, a_recap, recap, task_failed, rec_of, progress_value,
    cap_reached, chunk_frames. cbn.
  destruct stop; [reflexivity|].
  destruct (to_int _); [|reflexivity].
  destruct (stream_read _ _ _ _) as [[chunk [|]]|]; cbn; try reflexivity.
  all: destruct data as [data|]; cbn; try reflexivity.
  all: rewrite ?Hz; cbn.
  all: destruct cb as [callback|]; cbn; try reflexivity.
  all: destruct (k_start_time tk); cbn; try reflexivity.
  all: rewrite ?Hz; cbn; destruct (callback _); reflexivity.
Qed.

Lemma task_step_recap env z a :
  truthy z = false -> a_uncapped a ->
  task_step env (a_recap (Some z) a) = a_recap (Some z) (task_step env a).
Proof.
  intros Hz Hun. unfold task_step.
  change (_async_task (a_recap (Some z) a)) with (_async_task a).
  destruct (_async_task a) as [tk|]; [|reflexivity].
  destruct (k_pc tk); try reflexivity.
  - change (chunk_frames (rec_of (a_recap (Some z) a))) with (chunk_frames (rec_of a)).
    destruct (chunk_frames (rec_of a)); [|reflexivity].
    change (time_reads (a_recap (Some z) a)) with (time_reads a).
    change (stream_open (device env) _ (sample_rate (rec_of (a_recap (Some z) a)))
              (channels (rec_of (a_recap (Some z) a))) z0)
      with (stream_open (device env)
              (k_session (set_start_time (loop_time env (time_reads a)) tk))
              (sample_rate (rec_of a)) (channels (rec_of a)) z0).
    destruct (stream_open _ _ _ _ _); [|reflexivity].
    apply (loop_iteration_recap env z _ (tick_clock a)); assumption.
  - apply loop_iteration_recap; assumption.
Qed.

Lemma after_task_recap z a :
  after_task (a_recap (Some z) a) = a_recap (Some z) (after_task a).
Proof.
  unfold after_task.
  change (_audio_data (rec_of (a_recap (Some z) a))) with (_audio_data (rec_of a)).
  destruct (_audio_data (rec_of a)) as [[|chunk data]|]; try reflexivity.
  change (assemble (rec_of (a_recap (Some z) a))) with (assemble (rec_of a)).
  destruct (assemble (rec_of a) (chunk :: data)); reflexivity.
Qed.

Lemma await_task_recap z (tk : Task T) a :
  await_task tk (a_recap (Some z) a) = a_recap (Some z) (await_task tk a).
Proof.
  unfold await_task. destruct (k_pc tk); try reflexivity.
  apply after_task_recap.
Qed.

Lemma stop_recording_async_recap z a :
  stop_recording_async (a_recap (Some z) a) = a_recap (Some z) (stop_recording_async a).
Proof.
  unfold stop_recording_async.
  change (_is_recording (rec_of (a_recap (Some z) a))) with (_is_recording (rec_of a)).
  destruct (negb (_is_recording (rec_of a))); [reflexivity|].
  cbn. destruct (_async_task a) as [tk|].
  - apply (await_task_recap z tk
             (with_inherited (with_recorder (set_is_recording false))
                (with_inherited (with_recorder (set_stop_event true))
                   (with_inherited (emit INFO "Stopping async recording") a)))).
  - apply (after_task_recap z
             (with_inherited (with_recorder (set_is_recording false))
                (with_inherited (with_recorder (set_stop_event true))
                   (with_inherited (emit INFO "Stopping async recording") a)))).
Qed.

Lemma resume_stop_recap z i a :
  resume_stop i (a_recap (Some z) a) = a_recap (Some z) (resume_stop i a).
Proof.
  unfold resume_stop.
  change (suspended_stops (a_recap (Some z) a)) with (suspended_stops a).
  destruct (suspended_stops a !! i) as [[k|audio]|]; [| |reflexivity].
  - change (find_task k (a_recap (Some z) a)) with (find_task k a).
    destruct (find_task k a) as [tk|]; [|reflexivity].
    destruct (k_pc tk) eqn:Hpc; try reflexivity.
    all: apply (await_task_recap z tk
                  (set_suspended_stops (delete i (suspended_stops a)) a)).
  - cbn. rewrite save_recap.
    destruct (_save_audio_data audio (inherited a)); reflexivity.
Qed.

Lemma earlier_task_step_recap env z i a :
  truthy z = false -> a_uncapped a ->
  earlier_task_step env i (a_recap (Some z) a)
  = a_recap (Some z) (earlier_task_step env i a).
Proof.
  intros Hz Hun. unfold earlier_task_step.
  change (earlier_tasks (a_recap (Some z) a)) with (earlier_tasks a).
  destruct (earlier_tasks a !! i) as [tk|]; [|reflexivity].
  change (set_async_task (Some tk) (a_recap (Some z) a))
    with (a_recap (Some z) (set_async_task (Some tk) a)).
  rewrite task_step_recap by (try exact Hz; exact Hun).
  reflexivity.
Qed.

Lemma start_recording_async_recap env (d : option T) (cb : option (T -> result unit)) a :
  start_recording_async env cb (a_recap d a)
  = (a_recap d (fst (start_recording_async env cb a)),
     snd (start_recording_async env cb a)).
Proof.
  unfold start_recording_async.
  change (_is_recording (rec_of (a_recap d a))) with (_is_recording (rec_of a)).
  destruct (_is_recording (rec_of a)); [reflexivity|].
  cbn. destruct (create_task env _); [|reflexivity].
  unfold replace_task. cbn. destruct (_async_task a); reflexivity.
Qed.

Lemma a_act_recap env z (x : a_action T) a :
  truthy z = false -> a_uncapped a ->
  a_act env x (a_recap (Some z) a) = a_recap (Some z) (a_act env x a).
Proof.
  intros Hz Hun. destruct x; cbn.
  - rewrite start_recording_async_recap. reflexivity.
  - apply stop_recording_async_recap.
  - apply task_step_recap; assumption.
  - apply earlier_task_step_recap; assumption.
  - apply resume_stop_recap.
Qed.

Lemma a_run_recap env z (schedule : list (a_action T)) a :
  truthy z = false -> a_uncapped a ->
  a_run env schedule (a_recap (Some z) a) = a_recap (Some z) (a_run env schedule a).
Proof.
  intros Hz. revert a. induction schedule as [|x schedule IH]; intros a Hun;
    [reflexivity|].
  change (a_run env (x :: schedule) ?b) with (a_run env schedule (a_act env x b)).
  rewrite a_act_recap by assumption. apply IH.
  unfold a_uncapped in *. rewrite a_act_max_duration. exact Hun.
Qed.

(** One slice of the task without a cap, on a read that succeeds and a
    callback that accepts: one more chunk, one more report of the raw
    elapsed time. *)
Lemma uncapped_slice env z (callback : T -> result unit) (sr ch : Z) (fm : option F)
    (frames : Z) (k i sessions tr : nat) (start_time : T) (data : list ndarray)
    (lg : list log_record) (calls : list T) :
  truthy z = false ->
  accepting callback ->
  is_ok (stream_read (device env) k i frames) = true ->
  to_int (fmul lit_0_1 (of_int sr)) = Some frames ->
  exists chunk lg',
    task_step env
      (mkAWorld (mkWorld (mkRecorder sr ch fm (Some z) true None (Some data) false)
                   sessions lg)
         (Some (mkTask k TkSuspended i (Some start_time))) (Some callback) tr calls [] [] [])
    = mkAWorld (mkWorld (mkRecorder sr ch fm (Some z) true None (Some (data ++ [chunk]))
                           false) sessions lg')
        (Some (mkTask k TkSuspended (S i) (Some start_time))) (Some callback) (S tr)
        (calls ++ [fsub (loop_time env tr) start_time]) [] [] [].
Proof.
  intros Hz Hcb Hread Hframes.
  unfold task_step, loop_iteration, rec_of, chunk_frames, chunk_duration. cbn.
  rewrite Hframes.
  destruct (stream_read (device env) k i frames) as [[chunk overflowed]|]; [|discriminate].
  exists chunk.
  destruct overflowed; cbn; rewrite Hz; cbn; rewrite ?Hz, Hcb; eexists; reflexivity.
Qed.

Lemma a_run_app env (s1 s2 : list (a_action T)) a :
  a_run env (s1 ++ s2) a = a_run env s2 (a_run env s1 a).
Proof. unfold a_run. apply fold_left_app. Qed.

(** The start of a session and the first slice of its task, without a
    cap. *)
Lemma uncapped_start env (callback : T -> result unit) (sr ch : Z) (fm : option F)
    (md : option T) :
  create_task env 0%nat = Ok tt ->
  fst (start_recording_async env (Some callback) (a__init__ sr ch fm md))
  = mkAWorld (mkWorld (mkRecorder sr ch fm md true None (Some []) false) 1
                [(INFO, "Starting async recording")])
      (Some (mkTask 0 TkNew 0 None)) (Some callback) 0 [] [] [] [].
Proof.
  intros Hcreate. unfold start_recording_async, a__init__, rec_of.
  cbn [inherited recorder boot __init__ _is_recording session_no].
  rewrite Hcreate. reflexivity.
Qed.

Lemma uncapped_first_slice env z (callback : T -> result unit) (sr ch : Z)
    (fm : option F) (frames : Z) (sessions : nat) (lg : list log_record) :
  truthy z = false ->
  accepting callback ->
  stream_open (device env) 0 sr ch frames = Ok tt ->
  is_ok (stream_read (device env) 0 0 frames) = true ->
  to_int (fmul lit_0_1 (of_int sr)) = Some frames ->
  exists chunk lg',
    task_step env
      (mkAWorld (mkWorld (mkRecorder sr ch fm (Some z) true None (Some []) false)
                   sessions lg)
         (Some (mkTask 0 TkNew 0 None)) (Some callback) 0 [] [] [] [])
    = mkAWorld (mkWorld (mkRecorder sr ch fm (Some z) true None (Some [chunk]) false)
                  sessions lg')
        (Some (mkTask 0 TkSuspended 1 (Some (loop_time env 0%nat)))) (Some callback) 2
        [fsub (loop_time env 1%nat) (loop_time env 0%nat)] [] [] [].
Proof.
  intros Hz Hcb Hopen Hread Hframes.
  unfold task_step, loop_iteration, rec_of, chunk_frames, chunk_duration. cbn.
  rewrite Hframes, Hopen. cbn.
  destruct (stream_read (device env) 0 0 frames) as [[chunk overflowed]|]; [|discriminate].
  exists chunk.
  destruct overflowed; cbn; rewrite Hz; cbn; rewrite ?Hz, Hcb; eexists; reflexivity.
Qed.

(** Without a cap, on a device without failure and with a callback that
    accepts, the task goes on for as many slices as it is given: after
    [S n] slices it is suspended with [S n] chunks in the buffer, and the
    callback has received the raw elapsed time after each of them. *)
Lemma uncapped_task_keeps_reading env z (callback : T -> result unit)
    (sr ch : Z) (fm : option F) (frames : Z) (n : nat) :
  truthy z = false -> a_healthy env -> accepting callback ->
  to_int (fmul lit_0_1 (of_int sr)) = Some frames ->
  exists data lg,
    length data = S n
    /\ a_run env (ADoStart (Some callback) :: repeat ADoSlice (S n))
         (a__init__ sr ch fm (Some z))
       = mkAWorld (mkWorld (mkRecorder sr ch fm (Some z) true None (Some data) false)
                     1 lg)
           (Some (mkTask 0 TkSuspended (S n) (Some (loop_time env 0%nat))))
           (Some callback) (S (S n))
           (map (fun j => fsub (loop_time env j) (loop_time env 0%nat)) (seq 1 (S n)))
           [] [] [].
Proof.
  intros Hz (Hcreate & Hstart & Hopen & Hread) Hcb Hframes.
  induction n as [|n (data & lg & Hlen & IH)].
  - change (a_run env (ADoStart (Some callback) :: repeat ADoSlice 1)
              (a__init__ sr ch fm (Some z)))
      with (task_step env
              (fst (start_recording_async env (Some callback)
                      (a__init__ sr ch fm (Some z))))).
    rewrite (uncapped_start env callback sr ch fm (Some z) (Hcreate 0%nat)).
    destruct (uncapped_first_slice env z callback sr ch fm frames 1
                [(INFO, "Starting async recording")] Hz Hcb
                (Hopen 0%nat sr ch frames) (Hread 0%nat 0%nat frames) Hframes)
      as (chunk & lg' & ->).
    exists [chunk], lg'. split; reflexivity.
  - change (repeat ADoSlice (S (S n))) with (@ADoSlice T :: repeat ADoSlice (S n)).
    rewrite repeat_cons, app_comm_cons, a_run_app, IH.
    change (a_run env [ADoSlice] ?b) with (task_step env b).
    destruct (uncapped_slice env z callback sr ch fm frames 0 (S n) 1 (S (S n))
                (loop_time env 0%nat) data lg
                (map (fun j => fsub (loop_time env j) (loop_time env 0%nat)) (seq 1 (S n)))
                Hz Hcb (Hread 0%nat (S n) frames) Hframes) as (chunk & lg' & ->).
    exists (data ++ [chunk]), lg'. split; [rewrite length_app; cbn; lia|].
    rewrite (seq_S (S n) 1), map_app. reflexivity.
Qed.

(** C9. A [max_duration] of zero is falsy, and a recorder built with it,
    threaded or cooperative, does on every schedule and every device what
    the recorder built with no cap does. Left to itself on a device
    without failure, its capture loop never ends: after any number of
    turns the thread (the task) is still running and has appended one
    chunk per turn, and the progress callback of the cooperative recorder
    receives the raw elapsed time. *)
Theorem zero_cap_is_no_cap z :
  truthy z = false ->
  (forall (env : Env) schedule sr ch (fm : option F),
      run env schedule (boot (__init__ sr ch fm (Some z)))
      = recap (Some z) (run env schedule (boot (__init__ sr ch fm None))))
  /\ (forall (env : Env) sr ch (fm : option F) frames n,
         healthy env -> to_int (fmul lit_0_1 (of_int sr)) = Some frames ->
         let w := run env (DoStart :: repeat DoWork (1 + 2 * n))
                    (boot (__init__ sr ch fm (Some z))) in
         length (captured w) = n
         /\ thread_alive (recorder w) = true
         /\ _is_recording (recorder w) = true)
  /\ (forall env schedule sr ch (fm : option F),
         a_run env schedule (a__init__ sr ch fm (Some z))
         = a_recap (Some z) (a_run env schedule (a__init__ sr ch fm None)))
  /\ (forall env callback sr ch (fm : option F) frames n,
         a_healthy env -> accepting callback ->
         to_int (fmul lit_0_1 (of_int sr)) = Some frames ->
         let a := a_run env (ADoStart (Some callback) :: repeat ADoSlice (S n))
                    (a__init__ sr ch fm (Some z)) in
         length (captured (inherited a)) = S n
         /\ task_pending a = true
         /\ _is_recording (rec_of a) = true
         /\ progress_calls a
            = map (fun j => fsub (loop_time env j) (loop_time env 0%nat)) (seq 1 (S n))).
Proof.
  intros Hz. split; [|split; [|split]].
  - intros env schedule sr ch fm.
    rewrite <- (run_recap env z schedule) by (try exact Hz; reflexivity).
    reflexivity.
  - intros env sr ch fm frames n Hdev Hframes.
    destruct (uncapped_thread_keeps_reading env z sr ch fm frames n Hz Hdev Hframes)
      as (data & lg & Hlen & Hrun).
    cbv zeta. rewrite Hrun. repeat split. exact Hlen.
  - intros env schedule sr ch fm.
    rewrite <- (a_run_recap env z schedule) by (try exact Hz; reflexivity).
    reflexivity.
  - intros env callback sr ch fm frames n Hdev Hcb Hframes.
    destruct (uncapped_task_keeps_reading env z callback sr ch fm frames n
                Hz Hdev Hcb Hframes) as (data & lg & Hlen & Hrun).
    cbv zeta. rewrite Hrun. repeat split. exact Hlen.
Qed.

End AsyncZeroCap.

Import Hotkey.

(** ** The hotkey listener *)

Section HotkeyEdges.

Context {A : Type}.

Implicit Types (w : HWorld A) (l : HotkeyListener A) (down : gset Key).

(** The test of the code is the specification's "fully pressed". *)
Lemma is_hotkey_pressed_spec l :
  targets_set l -> _is_hotkey_pressed l = combination_down (pressed_keys l).
Proof.
  intros [Ht Ha]. unfold _is_hotkey_pressed, _mixed_modifier_combination, combination_down.
  rewrite Ht, Ha.
  destruct (bool_decide ((ctrl_l ∈ pressed_keys l ∨ ctrl_r ∈ pressed_keys l)
                         ∧ (shift_l ∈ pressed_keys l ∨ shift_r ∈ pressed_keys l)
                         ∧ space ∈ pressed_keys l)) eqn:Hdown.
  - apply bool_decide_eq_true in Hdown as (Hc & Hs & Hsp).
    apply orb_true_iff. right.
    rewrite !andb_true_iff, !orb_true_iff, !bool_decide_eq_true. auto.
  - apply bool_decide_eq_false in Hdown.
    rewrite !orb_false_iff, !andb_false_iff, !orb_false_iff, !bool_decide_eq_false.
    repeat split.
    + intros Hsub. apply Hdown.
      pose proof (Hsub ctrl_l) as Hc. pose proof (Hsub shift_l) as Hs.
      pose proof (Hsub space) as Hsp.
      rewrite !elem_of_union, !elem_of_singleton in Hc, Hs, Hsp. tauto.
    + intros Hsub. apply Hdown.
      pose proof (Hsub ctrl_r) as Hc. pose proof (Hsub shift_r) as Hs.
      pose proof (Hsub space) as Hsp.
      rewrite !elem_of_union, !elem_of_singleton in Hc, Hs, Hsp. tauto.
    + destruct (decide (space ∈ pressed_keys l)); [|auto].
      destruct (decide (ctrl_l ∈ pressed_keys l)), (decide (ctrl_r ∈ pressed_keys l)),
        (decide (shift_l ∈ pressed_keys l)), (decide (shift_r ∈ pressed_keys l));
        try (exfalso; apply Hdown; tauto); tauto.
Qed.

Lemma deliver_keys (e : key_event) w :
  pressed_keys (listener (deliver e w)) = keys_after e (pressed_keys (listener w))
  /\ target_keys (listener (deliver e w)) = target_keys (listener w)
  /\ alt_target_keys (listener (deliver e w)) = alt_target_keys (listener w)
  /\ hotkey_callback (listener (deliver e w)) = hotkey_callback (listener w).
Proof.
  destruct e; cbn; unfold _on_key_press, _on_key_release; repeat case_match; cbn; auto.
Qed.

(** What one event does to the application: a press after which the
    combination is fully pressed runs the callback once, any other event
    leaves the application alone. *)
Lemma deliver_app (e : key_event) w :
  targets_set (listener w) ->
  app (deliver e w)
  = match e with
    | Press _ =>
        if combination_down (keys_after e (pressed_keys (listener w)))
        then fst (hotkey_callback (listener w) (app w))
        else app w
    | Release _ => app w
    end.
Proof.
  intros Hset. destruct e as [k|k]; [|reflexivity].
  cbn. unfold _on_key_press.
  rewrite is_hotkey_pressed_spec by exact Hset. cbn.
  destruct (combination_down _); [|reflexivity].
  destruct (hotkey_callback (listener w) (app w)) as [a' []]; reflexivity.
Qed.

Lemma deliver_all_app (events : list key_event) w :
  targets_set (listener w) ->
  app (deliver_all events w)
  = Nat.iter (presses_while_down events (pressed_keys (listener w)))
      (fun a => fst (hotkey_callback (listener w) a)) (app w).
Proof.
  revert w. induction events as [|e events IH]; intros w Hset; [reflexivity|].
  change (deliver_all (e :: events) w) with (deliver_all events (deliver e w)).
  destruct (deliver_keys e w) as (Hkeys & Ht & Ha & Hcb).
  rewrite IH by (destruct Hset; split; congruence).
  rewrite Hkeys, Hcb, (deliver_app e w Hset). cbn [presses_while_down].
  set (f := fun a => fst (hotkey_callback (listener w) a)).
  destruct e as [k|k]; [|reflexivity].
  destruct (combination_down _); [|reflexivity].
  cbn [Nat.add]. rewrite Nat.iter_succ_r. reflexivity.
Qed.

End HotkeyEdges.

Lemma release_keeps_up (k : Key) (down : gset Key) :
  combination_down (down ∖ {[ k ]}) = true -> combination_down down = true.
Proof.
  unfold combination_down. rewrite !bool_decide_eq_true.
  rewrite !elem_of_difference. tauto.
Qed.

Lemma edges_le_presses (events : list key_event) (down : gset Key) :
  (edges events down <= presses_while_down events down)%nat.
Proof.
  revert down. induction events as [|e events IH]; intros down; cbn; [lia|].
  specialize (IH (keys_after e down)).
  destruct e as [k|k]; cbn in IH |- *.
  - destruct (combination_down down), (combination_down ({[k]} ∪ down)); cbn; lia.
  - destruct (combination_down down) eqn:Hd; cbn; [lia|].
    destruct (combination_down (down ∖ {[k]})) eqn:Hd'; cbn; [|lia].
    apply release_keeps_up in Hd'. congruence.
Qed.

Lemma presses_are_edges (events : list key_event) (down : gset Key) :
  no_press_while_down events down = true ->
  presses_while_down events down = edges events down.
Proof.
  revert down. induction events as [|e events IH]; intros down; cbn; [reflexivity|].
  intros [Hhere Hrest]%andb_true_iff. rewrite (IH _ Hrest).
  destruct e as [k|k]; cbn.
  - apply negb_true_iff in Hhere. rewrite Hhere. reflexivity.
  - destruct (combination_down down) eqn:Hd; cbn; [reflexivity|].
    destruct (combination_down (down ∖ {[k]})) eqn:Hd'; cbn; [|reflexivity].
    apply release_keeps_up in Hd'. congruence.
Qed.

Lemma iter_counting (n m : nat) :
  Nat.iter n (fun a => fst (counting_callback a)) m = (n + m)%nat.
Proof.
  induction n as [|n IH]; [reflexivity|].
  rewrite Nat.iter_succ, IH. reflexivity.
Qed.

(** C4, amended. The listener calls the callback once for every press
    event after which Ctrl+Shift+Space is fully pressed, whether or not
    the combination was already pressed before the event: at least once
    per edge, once more for each repetition of a held key and for each
    other key struck while the combination is held, and exactly once per
    edge when no press event arrives while the combination is held. *)
Theorem callback_per_press_while_down (events : list key_event) :
  invocations events = presses_while_down events ∅
  /\ (forall (A : Type) (callback : A -> A * result unit) (a : A),
        app (deliver_all events (mkHWorld (h__init__ callback) a []))
        = Nat.iter (presses_while_down events ∅) (fun a => fst (callback a)) a)
  /\ (edges events ∅ <= invocations events)%nat
  /\ (no_press_while_down events ∅ = true -> invocations events = edges events ∅).
Proof.
  assert (invocations events = presses_while_down events ∅) as Hcount.
  { unfold invocations. rewrite deliver_all_app by (split; reflexivity).
    unfold h__init__. cbn [listener app hotkey_callback pressed_keys].
    rewrite iter_counting. lia. }
  repeat split.
  - exact Hcount.
  - intros A callback a. rewrite deliver_all_app by (split; reflexivity). reflexivity.
  - rewrite Hcount. apply edges_le_presses.
  - intros Hquiet. rewrite Hcount. apply presses_are_edges, Hquiet.
Qed.

Import VoiceInput.

(** ** The session state machine *)

Section StopCycle.

Context {T : Type} {PF : PyFloat T} {F : Type} {FM : FileManager F}
        {C : Type} {CO : Collaborators F C}.

Implicit Types (env : Env) (v : VoiceInputSystem T F C).

Ltac case_print :=
  unfold print at 1; cbn [stdout sys_stdout set_services set_shared_file_manager
                          set_audio_recorder vlog assign_state];
  match goal with
  | |- context [sys_stdout ?v ?out ?msg] => destruct (sys_stdout v out msg) eqn:?
  end.

(** A [print] leaves the state and its history alone, whether it
    raises or not. *)
Lemma print_keeps_state (msg : string) v :
  state (fst (print msg v)) = state v
  /\ state_writes (fst (print msg v)) = state_writes v.
Proof. unfold print. destruct (sys_stdout v (stdout v) msg); split; reflexivity. Qed.

(** In state Processing the hotkey is ignored. *)
Lemma presses_in_processing env (n : nat) v :
  state v = PROCESSING -> state (presses env n v) = PROCESSING.
Proof.
  intros Hv. induction n as [|n IH]; [exact Hv|].
  change (presses env (S n) v) with (fst (_on_hotkey_pressed env (presses env n v))).
  unfold _on_hotkey_pressed. rewrite IH. cbn. exact IH.
Qed.

(** The statements of [_stop_recording_and_process] after the assignment
    of Processing: when they end without an exception the state is Idle;
    when a [print] among them raises, no assignment follows. The
    recorder is left as [stop_recording] left it, but for its file
    manager. *)
Lemma after_processing_assigned env v :
  let stopped := fst (stop_recording env (audio_recorder v)) in
  let (v', outcome) :=
    (let (w, audio_file) := stop_recording env (audio_recorder v) in
     let v := set_audio_recorder w v in
     match truthy_str audio_file with
     | None =>
         block [ always (vlog WARNING "No audio file generated");
                 print "No audio recorded";
                 always (assign_state IDLE) ] v
     | Some audio_file => transcribe_and_type audio_file v
     end) in
  sys_stdout v' = sys_stdout v
  /\ _is_recording (recorder (audio_recorder v')) = _is_recording (recorder stopped)
  /\ _recording_thread (recorder (audio_recorder v')) = _recording_thread (recorder stopped)
  /\ _stop_event (recorder (audio_recorder v')) = _stop_event (recorder stopped)
  /\ match outcome with
     | Ok _ => state v' = IDLE /\ state_writes v' = state_writes v ++ [IDLE]
     | Raise e =>
         state v' = state v /\ state_writes v' = state_writes v
         /\ exists out msg, sys_stdout v out msg = Raise e
     end.
Proof.
  destruct (stop_recording env (audio_recorder v)) as [w audio_file].
  destruct (truthy_str audio_file) as [path|]; cbn.
  - unfold transcribe_and_type. cbn.
    destruct (transcribe_audio path _ (services v)) as [[fm c] text]. cbn.
    destruct (truthy_str text) as [t|]; cbn.
    + case_print; cbn; [|repeat split; eauto].
      destruct (type_text t c) as [c' []]; cbn; [repeat split; reflexivity|].
      case_print; cbn; repeat split; eauto.
    + case_print; cbn; repeat split; eauto.
  - case_print; cbn; repeat split; eauto.
Qed.

(** C2, the code against the claim. A hotkey received in state Recording
    runs [_stop_recording_and_process]. When the method returns, it has
    assigned Processing and then Idle to the state, and nothing else.
    But its [print] calls stand between the two assignments with no
    [try] around them: when one of them raises, the exception leaves the
    method with the state Processing, and every later hotkey is ignored
    in that state, which is never left. (When it is the first [print]
    that raises, before the assignment of Processing, the state is still
    Recording.) *)
Theorem raising_print_strands_processing env v :
  state v = RECORDING ->
  let (v', outcome) := _on_hotkey_pressed env v in
  match outcome with
  | Ok _ =>
      state v' = IDLE
      /\ state_writes v' = state_writes v ++ [PROCESSING; IDLE]
  | Raise _ =>
      if is_ok (sys_stdout v (stdout v) "Processing...") then
        state v' = PROCESSING
        /\ state_writes v' = state_writes v ++ [PROCESSING]
        /\ forall n, state (presses env n v') = PROCESSING
      else v' = vlog INFO "Processing..." v
  end.
Proof.
  intros Hrec. unfold _on_hotkey_pressed. rewrite Hrec.
  unfold _stop_recording_and_process.
  cbn [block always]. unfold print at 1. cbn [vlog stdout sys_stdout].
  destruct (sys_stdout v (stdout v) "Processing...") as [[]|e]; cbn [is_ok];
    [|reflexivity].
  set (v1 := assign_state PROCESSING _).
  pose proof (after_processing_assigned env v1) as Hrest.
  cbn [block always] in *. cbv zeta in Hrest.
  match type of Hrest with
  | (let (_, _) := ?rest in _) => destruct rest as [v' [[]|e]]
  end.
  - destruct Hrest as (_ & _ & _ & _ & Hstate & Hwrites). split; [exact Hstate|].
    rewrite Hwrites. subst v1. cbn. rewrite <- app_assoc. reflexivity.
  - destruct Hrest as (_ & _ & _ & _ & Hstate & Hwrites & _). split; [exact Hstate|].
    split; [exact Hwrites|].
    intros n. apply presses_in_processing, Hstate.
Qed.

End StopCycle.
Import FileManagers.

(** ** The constructor of CustomDirFileManager *)

(** [TempFileManager.__init__] takes no argument: given one, positional
    or by keyword, the call raises [TypeError] before its body runs. *)
Lemma temp_manager_takes_no_argument (args : list string)
    (kwargs : list (string * string)) (h : Host) :
  args <> [] \/ kwargs <> [] ->
  TempFileManager__init__ args kwargs h = (h, Raise TypeError).
Proof.
  intros Hgiven. unfold TempFileManager__init__, bind_arguments, TempFileManager_params.
  destruct args as [|a args]; cbn; [|reflexivity].
  destruct kwargs as [|[k v] kwargs]; [destruct Hgiven; congruence|].
  cbn. rewrite bool_decide_eq_false_2 by apply not_elem_of_nil. reflexivity.
Qed.

(** C10, amended. [CustomDirFileManager(directory)] never returns a
    manager. When the directory exists the call raises [TypeError] and
    touches nothing; when it does not exist the directory is first
    created, and the call raises [TypeError] after that; when it cannot
    be created the error of [os.makedirs] is what the call raises. *)
Theorem custom_dir_manager_never_built (directory : string) (h : Host) :
  let (h', outcome) := CustomDirFileManager directory h in
  is_ok outcome = false
  /\ (if path_exists directory h then h' = h /\ outcome = Raise TypeError
      else match makedirs directory false h with
           | Ok created => h' = created /\ outcome = Raise TypeError
           | Raise e => h' = h /\ outcome = Raise e
           end).
Proof.
  unfold CustomDirFileManager, CustomDirFileManager__init__. cbn.
  destruct (path_exists directory h); cbn.
  - rewrite temp_manager_takes_no_argument by (right; discriminate). auto.
  - destruct (makedirs directory false h) as [created|e]; cbn; [|auto].
    rewrite temp_manager_takes_no_argument by (right; discriminate). auto.
Qed.

Import Services Fixtures.

(** ** The theorems at concrete inputs *)

Local Open Scope Q_scope.

Lemma silence_uniform (frames : Z) (cols : nat) :
  uniform (Z.to_nat frames) cols (silence frames cols).
Proof.
  exists (repeat (repeat 0%float cols) (Z.to_nat frames)).
  repeat split; [apply repeat_length|].
  apply Forall_forall. intros row Hrow%list_elem_of_In%repeat_spec. subst row.
  apply repeat_length.
Qed.

Lemma steady_delivers (cols : nat) : delivers (steady cols) cols.
Proof.
  intros k i frames chunk overflowed [= <- _]. apply silence_uniform.
Qed.

Lemma steady_healthy (cols : nat) : healthy (steady cols).
Proof. repeat split. Qed.

Lemma paced_monotonic (dev : Env) (t0 period : Q) (n : nat) :
  0 <= period -> monotonic (clock_from (paced dev t0 period) n).
Proof.
  intros Hp i j Hij. unfold clock_from. cbn [loop_time paced].
  assert (inject_Z (Z.of_nat (n + i)) <= inject_Z (Z.of_nat (n + j))) as H
    by (rewrite <- Zle_Qle; lia).
  apply Qplus_le_r, Qmult_le_compat_r; assumption.
Qed.

Lemma paced_real_time (dev : Env) (t0 : Q) (n : nat) :
  real_time (clock_from (paced dev t0 (1 # 10)) n).
Proof.
  intros j. unfold clock_from. cbn [loop_time paced]. unfold seconds.
  rewrite Nat.add_0_r, Nat2Z.inj_add, inject_Z_plus. lra.
Qed.

(** C7 at a concrete input: a second start during a capture from the
    steady device. *)
Lemma start_recording_while_active_witness :
  let env := steady 1 in
  let w := fst (start_recording env (recorder_Q None)) in
  _is_recording (recorder w) = true
  /\ (let (w', started) := start_recording env w in
      started = false
      /\ recorder w' = recorder w
      /\ session_no w' = session_no w
      /\ logs w' = logs w ++ [(WARNING, "Recording already in progress")]).
Proof.
  intros env w. split; [reflexivity|].
  apply (start_recording_while_active env w). reflexivity.
Defined.

(** C8 at a concrete input: a stop on a recorder that was never started. *)
Lemma stop_recording_while_idle_witness :
  let env := steady 1 in
  let w := recorder_Q None in
  _is_recording (recorder w) = false
  /\ (let (w', path) := stop_recording env w in
      path = None
      /\ recorder w' = recorder w
      /\ _is_recording (recorder w') = false
      /\ session_no w' = session_no w
      /\ logs w' = logs w ++ [(WARNING, "No recording in progress")]).
Proof.
  intros env w. split; [reflexivity|].
  apply (stop_recording_while_idle env w). reflexivity.
Defined.


(** C1 at a concrete input: the default cap of 30 seconds, five steps
    into a capture from the steady device. *)
Lemma duration_cap_is_soft_witness :
  let env := steady 1 in
  let w := run env (DoStart :: repeat DoWork 5) (recorder_Q (Some 30)) in
  0 < 30
  /\ seconds (length (captured w)) < 30 + (1 # 10)
  /\ exists audio,
       stop_recording env w = _save_audio_data audio (halt env w)
       /\ inject_Z (Z.of_nat (len audio)) < (30 + (1 # 10)) * inject_Z 16000.
Proof.
  intros env w.
  destruct (duration_cap_is_soft env (DoStart :: repeat DoWork 5) 16000 1
              (Some temp_store) 30 eq_refl) as (_ & Hsoft & _ & Hstop).
  split; [reflexivity|]. split; [exact Hsoft|].
  destruct (Hstop ltac:(vm_compute; reflexivity) ltac:(reflexivity)
              (steady_delivers 1) first_audio_file ltac:(vm_compute; reflexivity))
    as (audio & Hsave & Hbound & _).
  exists audio. split; assumption.
Defined.

(** C1 as stated fails: with a cap of a quarter of a second the thread
    appends while 0, 0.1 and 0.2 seconds are below the cap, in exact and
    in binary64 arithmetic alike, and the array [stop_recording] saves
    after the cap is reached holds 4800 samples at 16000 Hz, 0.3 seconds
    where the claim allows 0.25. *)
Lemma quarter_second_cap_overshoots :
  let env := steady 1 in
  let w := run env (DoStart :: repeat DoWork 9) (recorder_Q (Some (1 # 4))) in
  let w64 := run env (DoStart :: repeat DoWork 9) (recorder_b64 (Some 0.25%float)) in
  thread_done (recorder w)
  /\ length (captured w) = 3%nat
  /\ length (captured w64) = 3%nat
  /\ snd (stop_recording env w) = Some first_audio_file
  /\ saved_samples (fst (stop_recording env w)) first_audio_file = Some 4800%nat
  /\ ~ inject_Z 4800 <= (1 # 4) * inject_Z 16000.
Proof.
  intros env w w64.
  split; [vm_compute; reflexivity|].
  split; [vm_compute; reflexivity|].
  split; [vm_compute; reflexivity|].
  split; [vm_compute; reflexivity|].
  split; [vm_compute; reflexivity|].
  intros Hle. vm_compute in Hle. apply Hle. reflexivity.
Qed.

(** C3 at concrete inputs. The scenario of the specification: the first
    read raises; the stop that follows returns nothing and the next start
    succeeds. And a device that cannot be opened: the thread ends at once
    and the session is marked failed. *)
Lemma capture_failure_ends_session_witness :
  let env := breaks_at 0 1 in
  let w := run env [DoStart; DoWork; DoWork] (recorder_Q None) in
  let w' := worker_step env w in
  let u := run unplugged [DoStart] (recorder_Q None) in
  _recording_thread (recorder w) = Some (mkThread 0 PcRead 0)
  /\ is_ok (stream_read env 0 0 1600) = false
  /\ _is_recording (recorder w') = false
  /\ snd (stop_recording env w') = None
  /\ snd (start_recording env (fst (stop_recording env w'))) = true
  /\ _recording_thread (recorder u) = Some (mkThread 0 PcOpen 0)
  /\ _is_recording (recorder (worker_step unplugged u)) = false
  /\ thread_done (recorder (worker_step unplugged u)).
Proof.
  intros env w w' u.
  destruct (capture_failure_ends_session env w (mkThread 0 PcRead 0) 1600
              ltac:(vm_compute; reflexivity) ltac:(reflexivity)
              ltac:(right; split; reflexivity))
    as (_ & Hflag & _ & _ & Hstop & _ & Hstart).
  destruct (capture_failure_ends_session unplugged u (mkThread 0 PcOpen 0) 1600
              ltac:(vm_compute; reflexivity) ltac:(reflexivity)
              ltac:(left; split; reflexivity))
    as (Hdone & Hfailed & _).
  specialize (Hstart ltac:(reflexivity)).
  fold w' in Hflag, Hstop, Hstart.
  destruct (start_recording env (fst (stop_recording env w'))) as [w'' started].
  destruct Hstart as [-> _].
  repeat split; try assumption; reflexivity.
Defined.

(** C3 as stated fails: when the third read raises, two chunks are in the
    buffer, and the stop that follows returns [None], not the audio
    accumulated before the failure. *)
Lemma failure_discards_accumulated_audio :
  let env := breaks_at 2 1 in
  let w := run env (DoStart :: repeat DoWork 7) (recorder_Q None) in
  length (captured w) = 2%nat
  /\ thread_done (recorder w)
  /\ _is_recording (recorder w) = false
  /\ snd (stop_recording env w) = None
  /\ captured (fst (stop_recording env w)) = captured w.
Proof.
  intros env w.
  split; [vm_compute; reflexivity|].
  split; [vm_compute; reflexivity|].
  split; [vm_compute; reflexivity|].
  split; vm_compute; reflexivity.
Qed.

(** C6 at a concrete input: a cap of 0.3 seconds on a clock that advances
    by one chunk duration per reading. A first session was stopped after
    two chunks; in the second one the fourth slice finds the cap reached,
    and the last of its three reports is 1. *)
Lemma progress_reports_witness :
  let env := paced (steady 1) 0 (1 # 10) in
  let a0 := a_run env
              [ADoStart (Some quiet_callback); ADoSlice; ADoSlice;
               ADoStop; ADoSlice; ADoResume 0; ADoResume 0]
              (async_recorder_Q (Some (3 # 10))) in
  let a := a_run env (ADoStart (Some quiet_callback) :: repeat ADoSlice 4) a0 in
  let session_calls := map (report env (Some (3 # 10)) 3) (seq 1 3) in
  snd (start_recording_async env (Some quiet_callback) a0) = true
  /\ tasks_ended a0
  /\ no_restart (repeat (@ADoSlice Q) 4)
  /\ stop_returns a0 = [Some first_audio_file]
  /\ ended_by_cap a
  /\ progress_calls a = progress_calls a0 ++ session_calls
  /\ StronglySorted Qle session_calls
  /\ exists v, last (progress_calls a) = Some v /\ v == 1.
Proof.
  intros env a0 a session_calls.
  assert (snd (start_recording_async env (Some quiet_callback) a0) = true) as Hstarted
    by (vm_compute; reflexivity).
  assert (tasks_ended a0) as Hended.
  { split; [vm_compute; reflexivity|].
    assert (earlier_tasks a0 = []) as -> by (vm_compute; reflexivity). constructor. }
  assert (no_restart (repeat (@ADoSlice Q) 4)) as Hone by (repeat constructor).
  assert (ended_by_cap a) as Hcap.
  { split; [vm_compute; reflexivity|].
    eexists. split; vm_compute; reflexivity. }
  assert (max_duration (rec_of a0) = Some (3 # 10)) as Hmd by (vm_compute; reflexivity).
  assert (time_reads a0 = 3%nat) as Ht0 by (vm_compute; reflexivity).
  assert (length (captured (inherited a)) = 3%nat) as Hlen by (vm_compute; reflexivity).
  destruct (progress_reports env quiet_callback (repeat ADoSlice 4) a0 Hstarted Hended Hone)
    as (Hcalls & _ & _ & Hsorted & Hlast).
  fold a in Hcalls, Hsorted, Hlast.
  rewrite Hmd, Ht0, Hlen in Hcalls, Hsorted.
  rewrite Hmd, Ht0 in Hlast.
  split; [exact Hstarted|]. split; [exact Hended|]. split; [exact Hone|].
  split; [vm_compute; reflexivity|]. split; [exact Hcap|].
  split; [exact Hcalls|].
  split; [apply Hsorted, paced_monotonic; discriminate|].
  apply (Hlast (3 # 10) eq_refl eq_refl (paced_real_time (steady 1) 0 3) Hcap).
Defined.

(** C6 as stated fails: with the default cap of 30 seconds and a session
    stopped after three chunks, whose file is saved, the last value the
    callback receives is one hundredth, not 1 within 0.05. *)
Lemma early_stop_ends_below_one :
  let env := paced (steady 1) 0 (1 # 10) in
  let a := a_run env
             (ADoStart (Some quiet_callback)
              :: repeat ADoSlice 3 ++ [ADoStop; ADoSlice; ADoResume 0; ADoResume 0])
             (async_recorder_Q (Some 30)) in
  length (captured (inherited a)) = 3%nat
  /\ stop_returns a = [Some first_audio_file]
  /\ exists v, last (progress_calls a) = Some v /\ v == 1 # 100 /\ ~ (1 - (5 # 100) <= v).
Proof.
  intros env a.
  split; [vm_compute; reflexivity|].
  split; [vm_compute; reflexivity|].
  exists ((0 + inject_Z 3 * (1 # 10) - (0 + inject_Z 0 * (1 # 10))) / 30).
  split; [vm_compute; reflexivity|].
  split; [reflexivity|].
  intros Hle. vm_compute in Hle. apply Hle. reflexivity.
Qed.

(** C9 at concrete inputs: the rational zero and the binary64 zero are
    falsy; with a cap of zero the steady device is read for as long as
    the thread is given steps. *)
Lemma zero_cap_is_no_cap_witness :
  truthy (0 # 1) = false
  /\ truthy 0%float = false
  /\ (let w := run (steady 1) (DoStart :: repeat DoWork (1 + 2 * 25))
                 (recorder_Q (Some (0 # 1))) in
      length (captured w) = 25%nat /\ thread_alive (recorder w) = true)
  /\ (forall schedule,
        run (steady 1) schedule (recorder_b64 (Some 0%float))
        = recap (Some 0%float) (run (steady 1) schedule (recorder_b64 None))).
Proof.
  assert (truthy (0 # 1) = false) as HzQ by (vm_compute; reflexivity).
  assert (truthy 0%float = false) as Hz64 by (vm_compute; reflexivity).
  destruct (zero_cap_is_no_cap (F := TempStore) (0 # 1) HzQ) as (_ & Hruns & _ & _).
  destruct (zero_cap_is_no_cap (F := TempStore) 0%float Hz64) as (Hsame & _ & _ & _).
  split; [exact HzQ|]. split; [exact Hz64|]. split.
  - destruct (Hruns (steady 1) 16000%Z 1%Z (Some temp_store) 1600%Z 25%nat
                (steady_healthy 1) eq_refl) as (Hlen & Halive & _).
    split; assumption.
  - intros schedule. apply Hsame.
Defined.

(** C2 at the failing input: the controller is recording on a standard
    output with the ASCII encoding, and the model hears a word with an
    accent. The hotkey stops the capture, the audio is saved and
    transcribed, and the [print] of the text raises; the state is left at
    Processing, nothing is typed, and five more hotkeys change nothing.
    On a standard output that takes every text, with a model that hears
    plain words, the same hotkey ends in state Idle with the words
    typed. *)
Lemma raising_print_strands_processing_witness :
  state recording_abroad = RECORDING
  /\ (let (v', outcome) := _on_hotkey_pressed (steady 1) recording_abroad in
      outcome = Raise (OtherError "UnicodeEncodeError")
      /\ state v' = PROCESSING
      /\ state_writes v' = [IDLE; RECORDING; PROCESSING]
      /\ typed (services v') = ""
      /\ state (presses (steady 1) 5 v') = PROCESSING)
  /\ state recording_system = RECORDING
  /\ (let (v', outcome) := _on_hotkey_pressed (steady 1) recording_system in
      outcome = Ok tt
      /\ state v' = IDLE
      /\ state_writes v' = [IDLE; RECORDING; PROCESSING; IDLE]
      /\ typed (services v') = "hello world ").
Proof.
  assert (state recording_abroad = RECORDING) as Hrec by (vm_compute; reflexivity).
  assert (state recording_system = RECORDING) as Hrec' by (vm_compute; reflexivity).
  split; [exact Hrec|]. split; [|split; [exact Hrec'|]].
  - pose proof (raising_print_strands_processing (steady 1) recording_abroad Hrec) as H.
    assert (snd (_on_hotkey_pressed (steady 1) recording_abroad)
            = Raise (OtherError "UnicodeEncodeError")) as Hout by (vm_compute; reflexivity).
    assert (typed (services (fst (_on_hotkey_pressed (steady 1) recording_abroad))) = "")
      as Htyped by (vm_compute; reflexivity).
    destruct (_on_hotkey_pressed (steady 1) recording_abroad) as [v' outcome].
    cbn [fst snd] in Hout, Htyped. subst outcome.
    assert (is_ok (sys_stdout recording_abroad (stdout recording_abroad) "Processing...")
            = true) as Hfirst by (vm_compute; reflexivity).
    rewrite Hfirst in H. destruct H as (Hstate & Hwrites & Hstays).
    split; [reflexivity|]. split; [exact Hstate|].
    split; [rewrite Hwrites; vm_compute; reflexivity|].
    split; [exact Htyped|]. apply Hstays.
  - pose proof (raising_print_strands_processing (steady 1) recording_system Hrec') as H.
    assert (snd (_on_hotkey_pressed (steady 1) recording_system) = Ok tt) as Hout
      by (vm_compute; reflexivity).
    assert (typed (services (fst (_on_hotkey_pressed (steady 1) recording_system)))
            = "hello world ") as Htyped by (vm_compute; reflexivity).
    destruct (_on_hotkey_pressed (steady 1) recording_system) as [v' outcome].
    cbn [fst snd] in Hout, Htyped. subst outcome.
    destruct H as (Hstate & Hwrites).
    split; [reflexivity|]. split; [exact Hstate|].
    split; [rewrite Hwrites; vm_compute; reflexivity|]. exact Htyped.
Defined.

(** C4 at a concrete input: the combination struck twice, with nothing
    pressed while it is held, calls the callback twice, once per edge. *)
Lemma callback_per_press_while_down_witness :
  no_press_while_down struck_twice ∅ = true
  /\ invocations struck_twice = edges struck_twice ∅
  /\ edges struck_twice ∅ = 2%nat.
Proof.
  destruct (callback_per_press_while_down struck_twice) as (_ & _ & _ & Hquiet).
  split; [vm_compute; reflexivity|].
  split; [apply Hquiet; vm_compute; reflexivity|].
  vm_compute. reflexivity.
Defined.

(** C4 as stated fails: when Space repeats once while Ctrl, Shift and
    Space are held there is one edge and the callback is called twice. *)
Lemma held_key_calls_again :
  edges held_space ∅ = 1%nat /\ invocations held_space = 2%nat.
Proof. split; vm_compute; reflexivity. Qed.

(** C10 as stated fails: for the empty path, which does not exist and
    cannot be created, the call raises [FileNotFoundError], not
    [TypeError]; and for a directory that does not exist yet, the
    [TypeError] comes after the directory was created. *)
Lemma empty_directory_raises_another_error :
  snd (CustomDirFileManager "" laptop) = Raise FileNotFoundError
  /\ snd (CustomDirFileManager "" laptop) <> Raise TypeError
  /\ snd (CustomDirFileManager "/srv/audio" laptop) = Raise TypeError
  /\ path_exists "/srv/audio" laptop = false
  /\ path_exists "/srv/audio" (fst (CustomDirFileManager "/srv/audio" laptop)) = true.
Proof.
  split; [vm_compute; reflexivity|].
  split; [intros H; vm_compute in H; discriminate|].
  split; [vm_compute; reflexivity|].
  split; vm_compute; reflexivity.
Qed.

(** * Further properties of the code *)

(** ** The collaborators: transcription_handler.py, keyboard_controller.py *)

Import FileManagers Services.

Local Close Scope Q_scope.

Section Stripping.

Implicit Types (table : list (list ascii)) (s p w : list ascii).

Lemma drop_prefix_spec p s rest :
  drop_prefix p s = Some rest <-> s = p ++ rest.
Proof.
  revert s. induction p as [|c p IH]; intros s; cbn.
  - split; [intros [= ->]; reflexivity | intros ->; reflexivity].
  - destruct s as [|d s]; [split; discriminate|].
    destruct (Ascii.eqb_spec c d) as [->|Hne].
    + rewrite IH. split; [intros ->; reflexivity | intros [= ->]; reflexivity].
    + split; [discriminate | intros [= ? ?]; congruence].
Qed.

Lemma drop_one_Some table s rest :
  drop_one table s = Some rest -> exists w, In w table /\ s = w ++ rest.
Proof.
  induction table as [|w table IH]; cbn; [discriminate|].
  destruct (drop_prefix w s) as [r|] eqn:Hw.
  - intros [= <-]. apply drop_prefix_spec in Hw. eauto.
  - intros H. destruct (IH H) as (w' & Hin & Heq). eauto.
Qed.

Lemma drop_one_nil table :
  Forall (fun w => w <> []) table -> drop_one table [] = None.
Proof.
  induction 1 as [|w table Hw _ IH]; cbn; [reflexivity|].
  destruct w; [contradiction|]. exact IH.
Qed.

(** A text that starts with no character of the table still starts with
    none when it is cut short. *)
Lemma drop_one_app table s x :
  drop_one table (s ++ x) = None -> drop_one table s = None.
Proof.
  induction table as [|w table IH]; cbn; [reflexivity|].
  destruct (drop_prefix w s) as [r|] eqn:Hw.
  - apply drop_prefix_spec in Hw. subst s.
    assert (drop_prefix w ((w ++ r) ++ x) = Some (r ++ x)) as ->
      by (apply drop_prefix_spec; rewrite <- app_assoc; reflexivity).
    discriminate.
  - destruct (drop_prefix w (s ++ x)); [discriminate|]. exact IH.
Qed.

(** What [lstrip_with] returns is the end of its argument. *)
Lemma lstrip_with_suffix table fuel s :
  exists pre, s = pre ++ lstrip_with table fuel s.
Proof.
  revert s. induction fuel as [|fuel IH]; intros s; cbn; [exists []; reflexivity|].
  destruct (drop_one table s) as [rest|] eqn:Hd; [|exists []; reflexivity].
  destruct (drop_one_Some table s rest Hd) as (w & _ & ->).
  destruct (IH rest) as (pre & Hpre).
  exists (w ++ pre). rewrite <- app_assoc, <- Hpre. reflexivity.
Qed.

(** With the length of the text as fuel nothing of the table is left at
    the start. *)
Lemma lstrip_with_done table fuel s :
  Forall (fun w => w <> []) table ->
  (length s <= fuel)%nat ->
  drop_one table (lstrip_with table fuel s) = None.
Proof.
  intros Htable. revert s. induction fuel as [|fuel IH]; intros s Hlen; cbn.
  - destruct s; [|cbn in Hlen; lia]. apply drop_one_nil, Htable.
  - destruct (drop_one table s) as [rest|] eqn:Hd; [|exact Hd].
    apply IH.
    destruct (drop_one_Some table s rest Hd) as (w & Hin & ->).
    rewrite Forall_forall in Htable.
    assert (w <> []) as Hw by (apply Htable, list_elem_of_In, Hin).
    rewrite length_app in Hlen. destruct w; [contradiction|]. cbn in Hlen. lia.
Qed.

Lemma lstrip_with_fixed table fuel s :
  drop_one table s = None -> lstrip_with table fuel s = s.
Proof. intros H. destruct fuel; cbn; [reflexivity|]. rewrite H. reflexivity. Qed.

Lemma white_space_nonempty : Forall (fun w => w <> []) white_space.
Proof. vm_compute. repeat constructor; discriminate. Qed.

Lemma white_space_rev_nonempty : Forall (fun w => w <> []) (map (@rev ascii) white_space).
Proof. vm_compute. repeat constructor; discriminate. Qed.

(** A text with no white space at its start and none at its end. *)
Lemma strip_list_trimmed (l : list ascii) :
  let t := rstrip (lstrip l) in
  drop_one white_space t = None
  /\ drop_one (map (@rev ascii) white_space) (rev t) = None.
Proof.
  intros t. subst t. unfold rstrip.
  set (L := lstrip l).
  set (X := lstrip_with (map (@rev ascii) white_space) (length L) (rev L)).
  assert (drop_one white_space L = None) as HL
    by (apply lstrip_with_done; [apply white_space_nonempty | reflexivity]).
  assert (drop_one (map (@rev ascii) white_space) X = None) as HX
    by (apply lstrip_with_done;
        [apply white_space_rev_nonempty | rewrite length_rev; reflexivity]).
  split; [|rewrite rev_involutive; exact HX].
  destruct (lstrip_with_suffix (map (@rev ascii) white_space) (length L) (rev L))
    as (pre & Hpre).
  fold X in Hpre.
  assert (L = rev X ++ rev pre) as HLX
    by (rewrite <- rev_app_distr, <- Hpre, rev_involutive; reflexivity).
  rewrite HLX in HL. eapply drop_one_app, HL.
Qed.

Lemma strip_list_fixed (t : list ascii) :
  drop_one white_space t = None ->
  drop_one (map (@rev ascii) white_space) (rev t) = None ->
  rstrip (lstrip t) = t.
Proof.
  intros Hstart Hend. unfold lstrip, rstrip.
  rewrite (lstrip_with_fixed white_space _ t Hstart).
  rewrite (lstrip_with_fixed _ _ (rev t) Hend). apply rev_involutive.
Qed.

Lemma strip_idempotent (s : string) : strip (strip s) = strip s.
Proof.
  unfold strip. rewrite list_ascii_of_string_of_list_ascii.
  destruct (strip_list_trimmed (list_ascii_of_string s)) as [Hstart Hend].
  rewrite strip_list_fixed by assumption. reflexivity.
Qed.

Lemma strip_empty : strip "" = "".
Proof. reflexivity. Qed.

End Stripping.

Section Collaborating.

Implicit Types (s : Services) (h : Host) (path text : string).

Lemma delete_for_privacy_spec path h s :
  let (h', s') := delete_for_privacy path h s in
  dirs h' = dirs h
  /\ (forall other, other <> path -> disk h' !! other = disk h !! other)
  /\ disk h' !! path = match os_remove s path with
                       | Ok _ => None
                       | Raise _ => disk h !! path
                       end
  /\ match disk h !! path, os_remove s path with
     | Some _, Raise _ => last (slogs s') = Some (ERROR, "Failed to delete audio file")
     | Some _, Ok _ => last (slogs s') = Some (INFO, "Audio file deleted for privacy")
     | None, _ => True
     end
  /\ typed s' = typed s
  /\ model s' = model s.
Proof.
  unfold delete_for_privacy.
  destruct (path_exists path h) eqn:Hex.
  - destruct (disk h !! path) as [content|] eqn:Hfile.
    + destruct (os_remove s path) as [[]|e] eqn:Hrm; cbn.
      * repeat split; auto.
        -- intros other Hne. apply lookup_delete_ne. congruence.
        -- apply lookup_delete_eq.
        -- apply last_snoc.
      * rewrite Hfile. repeat split; auto. apply last_snoc.
    + cbn. rewrite Hfile.
      repeat split; auto. destruct (os_remove s path); reflexivity.
  - cbn. unfold path_exists in Hex. apply orb_false_iff in Hex as [_ Hno].
    apply bool_decide_eq_false in Hno.
    assert (disk h !! path = None) as Hnone.
    { destruct (disk h !! path) eqn:E; [|reflexivity]. exfalso. apply Hno. eauto. }
    rewrite Hnone. repeat split; auto. destruct (os_remove s path); reflexivity.
Qed.

(** X1. [transcribe_audio] removes the audio file whenever a model is
    loaded and the system lets the file be removed, whether the
    transcription succeeds, comes out empty or raises; when [os.remove]
    raises the file stays and the failure is logged. With no model loaded
    the method returns before its [try] and the file stays. No other
    file and no directory is touched, and nothing is typed. *)
Theorem transcribe_audio_deletes_file path h s :
  let '(h', s', text) := transcribe_audio_impl path h s in
  dirs h' = dirs h
  /\ (forall other, other <> path -> disk h' !! other = disk h !! other)
  /\ disk h' !! path = match model s, os_remove s path with
                       | Some _, Ok _ => None
                       | _, _ => disk h !! path
                       end
  /\ match model s, disk h !! path, os_remove s path with
     | Some _, Some _, Raise _ =>
         last (slogs s') = Some (ERROR, "Failed to delete audio file")
     | Some _, Some _, Ok _ =>
         last (slogs s') = Some (INFO, "Audio file deleted for privacy")
     | _, _, _ => True
     end
  /\ typed s' = typed s
  /\ model s' = model s
  /\ (model s = None -> text = None).
Proof.
  unfold transcribe_audio_impl.
  destruct (model s) as [whisper|] eqn:Hmodel; [|cbn; repeat split; auto].
  destruct (path_exists path h) eqn:Hex; cbn.
  - destruct (whisper path) as [raw|]; [destruct (str_truthy (strip raw))|]; cbn.
    all: match goal with
         | |- context [delete_for_privacy ?p ?hh ?q] =>
             pose proof (delete_for_privacy_spec p hh q) as H;
             destruct (delete_for_privacy p hh q) as [h' s'];
             cbn in H; rewrite ?Hmodel in H;
             destruct H as (H1 & H2 & H3 & H4 & H5 & H6)
         end.
    all: repeat split; auto; discriminate.
  - unfold path_exists in Hex. apply orb_false_iff in Hex as [_ Hno].
    apply bool_decide_eq_false in Hno.
    assert (disk h !! path = None) as Hnone.
    { destruct (disk h !! path) eqn:E; [|reflexivity]. exfalso. apply Hno. eauto. }
    rewrite Hnone. repeat split; auto; try discriminate.
    destruct (os_remove s path); reflexivity.
Qed.

Lemma transcribe_returns_stripped path h s text :
  snd (transcribe_audio_impl path h s) = Some text ->
  text <> ""
  /\ strip text = text
  /\ path_exists path h = true
  /\ exists whisper raw,
       model s = Some whisper /\ whisper path = Ok raw /\ text = strip raw.
Proof.
  unfold transcribe_audio_impl.
  destruct (model s) as [whisper|]; [|discriminate].
  destruct (path_exists path h) eqn:Hex; cbn; [|discriminate].
  destruct (whisper path) as [raw|] eqn:Hraw; [|discriminate].
  destruct (str_truthy (strip raw)) eqn:Hfull; cbn; [|discriminate].
  intros [= <-]. repeat split.
  - intros Hempty. rewrite Hempty in Hfull. discriminate.
  - apply strip_idempotent.
  - eauto.
Qed.

(** X2. A text returned by [transcribe_audio] is what the model heard in
    an existing file, stripped as [str.strip] does it, Unicode white
    space included; it is not empty, it neither starts nor ends with a
    white-space character, and stripping it again changes nothing. *)
Theorem transcribed_text_is_stripped path h s text :
  snd (transcribe_audio_impl path h s) = Some text ->
  text <> ""
  /\ strip text = text
  /\ drop_one white_space (list_ascii_of_string text) = None
  /\ drop_one (map (@rev ascii) white_space) (rev (list_ascii_of_string text)) = None
  /\ path_exists path h = true
  /\ exists whisper raw,
       model s = Some whisper /\ whisper path = Ok raw /\ text = strip raw.
Proof.
  intros Htext.
  destruct (transcribe_returns_stripped path h s text Htext)
    as (Hne & Hstrip & Hex & whisper & raw & Hmodel & Hraw & Heq).
  split; [exact Hne|]. split; [exact Hstrip|].
  assert (list_ascii_of_string text
          = rstrip (lstrip (list_ascii_of_string raw))) as Hlist
    by (rewrite Heq; unfold strip; apply list_ascii_of_string_of_list_ascii).
  destruct (strip_list_trimmed (list_ascii_of_string raw)) as [Hstart Hend].
  rewrite Hlist.
  split; [exact Hstart|]. split; [exact Hend|]. split; [exact Hex|]. eauto.
Qed.

Lemma append_assoc (a b c : string) : ((a ++ b) ++ c = a ++ (b ++ c))%string.
Proof.
  induction a as [|x a IH]; [reflexivity|].
  change (String x (((a ++ b) ++ c))%string = String x (a ++ (b ++ c))%string).
  rewrite IH. reflexivity.
Qed.

(** X3. [type_text] refuses a text that is empty once stripped without
    calling the keyboard. On success exactly the stripped text and one
    space were typed. When it returns [False] after a call to the
    keyboard, [Controller.type] raised on the text, or on the space that
    follows it, and what it had typed by then stays typed. The model is
    never touched. *)
Theorem type_text_effects text s :
  let (s', done) := type_text_impl text s in
  model s' = model s
  /\ (strip text = "" -> done = false /\ typed s' = typed s)
  /\ (done = true ->
      strip text <> ""
      /\ controller_type s (strip text) = AllTyped
      /\ controller_type s " " = AllTyped
      /\ typed s' = (typed s ++ strip text ++ " ")%string)
  /\ (done = false -> strip text <> "" ->
      (exists part, controller_type s (strip text) = RaisedAfter part
                    /\ typed s' = (typed s ++ part)%string)
      \/ (controller_type s (strip text) = AllTyped
          /\ exists part, controller_type s " " = RaisedAfter part
                          /\ typed s' = (typed s ++ strip text ++ part)%string)).
Proof.
  unfold type_text_impl.
  destruct (str_truthy text) eqn:Htext; cbn.
  - destruct (str_truthy (strip text)) eqn:Hstrip; cbn.
    + assert (strip text <> "") as Hne
        by (intros Hempty; rewrite Hempty in Hstrip; discriminate).
      destruct (controller_type s (strip text)) as [|part] eqn:Hfirst; cbn.
      * destruct (controller_type s " ") as [|part] eqn:Hspace; cbn.
        -- repeat split; auto; try contradiction; try discriminate.
           apply append_assoc.
        -- repeat split; auto; try contradiction; try discriminate.
           intros _ _. right. split; [reflexivity|]. exists part.
           split; [reflexivity|]. apply append_assoc.
      * repeat split; auto; try contradiction; try discriminate.
        intros _ _. left. eauto.
    + assert (strip text = "") as Hempty
        by (destruct (strip text); [reflexivity | discriminate]).
      repeat split; auto; try discriminate. intros _ Hne. contradiction.
  - destruct text; [|discriminate].
    repeat split; auto; try discriminate. intros _ Hne. contradiction.
Qed.

(** X4. The two collaborators compose: a text that [transcribe_audio]
    returned is never refused by [type_text] as empty, and what reaches
    the keyboard, when the keyboard works, is that very text followed by
    one space. *)
Theorem transcribed_text_is_typed_as_is path h s text (k : Services) :
  snd (transcribe_audio_impl path h s) = Some text ->
  controller_type k text = AllTyped ->
  controller_type k " " = AllTyped ->
  let (k', done) := type_text_impl text k in
  done = true /\ typed k' = (typed k ++ text ++ " ")%string.
Proof.
  intros Htext Hfirst Hspace.
  destruct (transcribe_returns_stripped path h s text Htext) as (Hne & Hstrip & _).
  unfold type_text_impl. rewrite Hstrip.
  assert (str_truthy text = true) as -> by (destruct text; [contradiction | reflexivity]).
  cbn. rewrite Hfirst. cbn. rewrite Hspace. cbn.
  split; [reflexivity|]. apply append_assoc.
Qed.

End Collaborating.

(** ** The recorder over its whole life *)

Import Lifetime.

Section RecorderLifetime.

Context {T : Type} {PF : PyFloat T} {F : Type} {FM : FileManager F}.

Implicit Types (env : Env) (w : World T F) (r : AudioRecorder T F).

(** *** Chunks in the order of capture *)

Lemma worker_step_in_order env w :
  in_order env (recorder w) -> in_order env (recorder (worker_step env w)).
Proof.
  destruct w as [[sr ch fm md rec th data stop] sessions lg].
  unfold in_order, worker_step, worker_failed, chunk_frames. cbn.
  destruct data as [data|]; [|intros ->; reflexivity].
  intros ([k pc reads] & -> & Hcount & Hdata). cbn in *.
  assert (pc <> PcDone -> reads = length data) as Hlive
    by (intros ?; destruct Hcount as [|[? _]]; [assumption|contradiction]).
  destruct pc; cbn.
  - eauto 6.
  - destruct (to_int _) in |- *; [destruct (stream_open _ _ _ _ _)|]; cbn;
      eexists; (split; [reflexivity|]); (split; [left; cbn; auto|exact Hdata]).
  - destruct stop; cbn;
      eexists; (split; [reflexivity|]); (split; [left; cbn; auto|exact Hdata]).
  - specialize (Hlive ltac:(discriminate)).
    destruct (to_int _) as [frames|] eqn:Hframes in |- *; cbn;
      [|eexists; (split; [reflexivity|]); (split; [left; cbn; auto|exact Hdata])].
    destruct (stream_read env k reads frames) as [[chunk overflowed]|] eqn:Hread;
      cbn; [|eexists; (split; [reflexivity|]); (split; [left; cbn; auto|exact Hdata])].
    destruct (cap_reached md data) eqn:Hcap.
    + destruct overflowed; cbn; eexists; (split; [reflexivity|]);
        (split; [right; cbn; auto | exact Hdata]).
    + destruct overflowed; cbn; eexists; (split; [reflexivity|]);
        (split; [left; cbn; rewrite length_app; cbn; lia|]);
        intros i c Hi;
        (destruct (decide (i < length data)%nat) as [Hlt|Hge];
         [rewrite lookup_app_l in Hi by exact Hlt; exact (Hdata i c Hi)|]);
        rewrite lookup_app_r in Hi by lia;
        (destruct (i - length data)%nat as [|j] eqn:Hj; [|destruct j; discriminate]);
        injection Hi as <-; assert (i = reads) as -> by lia; eauto.
  - eauto 6.
Qed.

Lemma run_worker_in_order fuel env w :
  in_order env (recorder w) -> in_order env (recorder (run_worker fuel env w)).
Proof.
  revert w. induction fuel as [|fuel IH]; intros w H; cbn; [exact H|].
  destruct (thread_alive (recorder w)); [|exact H].
  apply IH, worker_step_in_order, H.
Qed.

Lemma in_order_ext env r r' :
  _recording_thread r' = _recording_thread r ->
  _audio_data r' = _audio_data r ->
  sample_rate r' = sample_rate r ->
  in_order env r -> in_order env r'.
Proof.
  unfold in_order, chunk_frames. intros -> -> ->. auto.
Qed.

Lemma halt_in_order env w :
  in_order env (recorder w) -> in_order env (recorder (halt env w)).
Proof.
  intros H. unfold halt.
  set (w0 := with_recorder (set_is_recording false) _).
  assert (in_order env (recorder w0)) as H0
    by (revert H; apply in_order_ext; reflexivity).
  destruct (_recording_thread (recorder w0)); [apply run_worker_in_order, H0|exact H0].
Qed.

Lemma save_in_order env a w :
  in_order env (recorder w) -> in_order env (recorder (fst (_save_audio_data a w))).
Proof.
  destruct (save_keeps_recording a w) as (Hrate & _ & _ & _ & Hth & Hdata & _).
  apply in_order_ext; assumption.
Qed.

Lemma stop_recording_in_order env w :
  in_order env (recorder w) -> in_order env (recorder (fst (stop_recording env w))).
Proof.
  intros H. unfold stop_recording.
  destruct (negb _); [exact H|].
  pose proof (halt_in_order env w H) as Hh.
  destruct (_audio_data (recorder (halt env w))) as [[|c data]|] eqn:Hd; try exact Hh.
  destruct (assemble _ _); [apply save_in_order, Hh|exact Hh].
Qed.

Lemma start_recording_in_order env w :
  in_order env (recorder w) -> in_order env (recorder (fst (start_recording env w))).
Proof.
  intros H. unfold start_recording.
  destruct (_is_recording (recorder w)); [exact H|].
  destruct (thread_start env (session_no w)); cbn;
    unfold in_order; cbn; eexists; (split; [reflexivity|]);
    (split; [left; reflexivity|]); intros i c Hi; destruct i; discriminate.
Qed.

Lemma run_in_order env schedule w :
  in_order env (recorder w) -> in_order env (recorder (run env schedule w)).
Proof.
  revert w. unfold run.
  induction schedule as [|a schedule IH]; intros w H; cbn; [exact H|].
  apply IH. destruct a; cbn.
  - apply start_recording_in_order, H.
  - apply stop_recording_in_order, H.
  - apply worker_step_in_order, H.
Qed.

(** X5. Whatever the caller and the capture thread do, in whatever order,
    the buffer of the recorder holds the chunks the device delivered to
    the thread of the current session, each exactly once and in the order
    they were read: the chunk at index [i] is the answer to the [i]-th
    read of that session. The thread has read as many chunks as are
    kept, or one more (the chunk it held when it found the cap reached). *)
Theorem buffer_keeps_capture_order env schedule sample_rate channels
    (file_manager : option F) (max_duration : option T) :
  let w := run env schedule (boot (__init__ sample_rate channels file_manager max_duration)) in
  forall i chunk,
    captured w !! i = Some chunk ->
    exists th frames overflowed,
      _recording_thread (recorder w) = Some th
      /\ chunk_frames (recorder w) = Some frames
      /\ stream_read env (t_session th) i frames = Ok (chunk, overflowed)
      /\ (length (captured w) <= t_reads th <= S (length (captured w)))%nat.
Proof.
  intros w.
  assert (in_order env (recorder w)) as H
    by (apply run_in_order; reflexivity).
  unfold in_order, captured in *.
  destruct (_audio_data (recorder w)) as [data|]; [|intros i c Hi; discriminate].
  destruct H as (th & Hth & Hcount & Hdata).
  intros i c Hi. destruct (Hdata i c Hi) as (frames & overflowed & Hframes & Hread).
  exists th, frames, overflowed.
  split; [exact Hth|]. split; [exact Hframes|]. split; [exact Hread|].
  destruct Hcount as [->|[_ ->]]; lia.
Qed.

(** *** One capture thread at a time *)

Lemma worker_step_running env w :
  running_means_recording (recorder w) ->
  running_means_recording (recorder (worker_step env w)).
Proof.
  destruct w as [[sr ch fm md rec [[k pc reads]|] data stop] sessions lg];
    unfold running_means_recording, worker_step, worker_failed, thread_alive; cbn;
    [|auto].
  destruct pc; cbn; auto; intros H.
  - destruct (chunk_frames _); [destruct (stream_open _ _ _ _ _)|]; cbn;
      intros A; try discriminate A; apply H; reflexivity.
  - destruct stop; cbn; intros A; try discriminate A; apply H; reflexivity.
  - destruct (chunk_frames _); [|cbn; intros A; discriminate A].
    destruct (stream_read _ _ _ _) as [[c o]|]; [|cbn; intros A; discriminate A].
    destruct data as [data|]; [destruct (cap_reached md data)|]; destruct o; cbn;
      intros A; try discriminate A; apply H; reflexivity.
Qed.

Lemma worker_step_never_sets_flag env w :
  _is_recording (recorder (worker_step env w)) = true ->
  _is_recording (recorder w) = true.
Proof.
  unfold worker_step, worker_failed.
  repeat (case_match; cbn in *; auto; try discriminate).
Qed.

Lemma run_worker_clear fuel env w :
  _is_recording (recorder w) = false ->
  _is_recording (recorder (run_worker fuel env w)) = false.
Proof.
  revert w. induction fuel as [|fuel IH]; intros w H; cbn; [exact H|].
  destruct (thread_alive (recorder w)); [|exact H].
  apply IH. destruct (_is_recording (recorder (worker_step env w))) eqn:E; [|reflexivity].
  apply worker_step_never_sets_flag in E. congruence.
Qed.

Lemma halt_clears_flag env w :
  _is_recording (recorder (halt env w)) = false.
Proof.
  unfold halt. destruct (_recording_thread _); [|reflexivity].
  apply run_worker_clear. reflexivity.
Qed.

Lemma stop_recording_clears_flag env w :
  _is_recording (recorder (fst (stop_recording env w))) = false.
Proof.
  unfold stop_recording.
  destruct (_is_recording (recorder w)) eqn:E; cbn -[halt]; [|exact E].
  pose proof (halt_clears_flag env w) as Hh.
  destruct (_audio_data (recorder (halt env w))) as [[|c data]|]; try exact Hh.
  destruct (assemble _ _) as [audio|]; [|exact Hh].
  destruct (save_keeps_recording audio (halt env w)) as (_ & _ & _ & -> & _). exact Hh.
Qed.

Lemma stop_recording_joins env w :
  running_means_recording (recorder w) ->
  thread_alive (recorder (fst (stop_recording env w))) = false.
Proof.
  intros H. unfold stop_recording.
  destruct (_is_recording (recorder w)) eqn:E; cbn -[halt].
  - pose proof (halt_joins_thread env w) as Hh.
    destruct (_audio_data (recorder (halt env w))) as [[|c data]|]; try exact Hh.
    destruct (assemble _ _) as [audio|]; [|exact Hh].
    destruct (save_keeps_recording audio (halt env w)) as (_ & _ & _ & _ & Hth & _).
    unfold thread_alive in *. rewrite Hth. exact Hh.
  - destruct (thread_alive (recorder w)) eqn:A; [|reflexivity].
    destruct (H A). congruence.
Qed.

Lemma act_running env a w :
  running_means_recording (recorder w) ->
  running_means_recording (recorder (act env a w)).
Proof.
  intros H. destruct a; cbn -[stop_recording].
  - unfold start_recording.
    destruct (_is_recording (recorder w)) eqn:E; [exact H|].
    destruct (thread_start env (session_no w)); cbn.
    + intros _. auto.
    + intros A. discriminate A.
  - intros A. rewrite stop_recording_joins in A by exact H. discriminate.
  - apply worker_step_running, H.
Qed.

Lemma run_running env schedule w :
  running_means_recording (recorder w) ->
  running_means_recording (recorder (run env schedule w)).
Proof.
  revert w. unfold run.
  induction schedule as [|a schedule IH]; intros w H; cbn; [exact H|].
  apply IH, act_running, H.
Qed.

(** X6. A capture thread runs only while the recorder is recording and has
    not been asked to stop. So [start_recording], which goes on only when
    the recorder is not recording, never launches a second thread beside
    a running one, and when [stop_recording] returns no thread is left
    running: nothing appends to the buffer behind the caller's back. *)
Theorem capture_thread_only_while_recording env schedule sample_rate channels
    (file_manager : option F) (max_duration : option T) :
  let w := run env schedule (boot (__init__ sample_rate channels file_manager max_duration)) in
  (thread_alive (recorder w) = true ->
     _is_recording (recorder w) = true /\ _stop_event (recorder w) = false)
  /\ (snd (start_recording env w) = true -> thread_alive (recorder w) = false)
  /\ thread_alive (recorder (fst (stop_recording env w))) = false.
Proof.
  intros w.
  assert (running_means_recording (recorder w)) as H.
  { apply run_running. intros A. discriminate A. }
  split; [exact H|]. split; [|apply stop_recording_joins, H].
  unfold start_recording.
  destruct (_is_recording (recorder w)) eqn:E; cbn; [discriminate|].
  intros _. destruct (thread_alive (recorder w)) eqn:A; [|reflexivity].
  destruct (H A). congruence.
Qed.

(** X7. A session is handed out once. After [stop_recording] has returned,
    whatever it returned, the recorder is not recording, and a second
    [stop_recording] returns [None] and does nothing but log a warning:
    no second file is written from the same buffer. *)
Theorem second_stop_returns_nothing env w :
  let w1 := fst (stop_recording env w) in
  _is_recording (recorder w1) = false
  /\ stop_recording env w1 = (emit WARNING "No recording in progress" w1, None).
Proof.
  intros w1. pose proof (stop_recording_clears_flag env w) as H. fold w1 in H.
  split; [exact H|]. unfold stop_recording. rewrite H. reflexivity.
Qed.

(** *** Overflows *)

Lemma quiet_emit l msg w :
  is_overflow_warning (l, msg) = false ->
  without_overflow_warnings (emit l msg w) = emit l msg (without_overflow_warnings w).
Proof.
  intros H. unfold without_overflow_warnings, emit. cbn [recorder session_no logs].
  rewrite List.filter_app. cbn [List.filter]. rewrite H. reflexivity.
Qed.

Lemma quiet_overflow w :
  without_overflow_warnings (emit WARNING "Audio input overflow detected" w)
  = without_overflow_warnings w.
Proof.
  unfold without_overflow_warnings, emit. cbn [recorder session_no logs].
  rewrite List.filter_app. cbn. rewrite app_nil_r. reflexivity.
Qed.

Lemma quiet_with_recorder f w :
  without_overflow_warnings (with_recorder f w)
  = with_recorder f (without_overflow_warnings w).
Proof. reflexivity. Qed.

Lemma quiet_worker_failed th w :
  without_overflow_warnings (worker_failed th w)
  = worker_failed th (without_overflow_warnings w).
Proof.
  unfold worker_failed. rewrite !quiet_with_recorder, quiet_emit; reflexivity.
Qed.

Lemma quiet_worker_step env w :
  worker_step (without_overflow env) (without_overflow_warnings w)
  = without_overflow_warnings (worker_step env w).
Proof.
  unfold worker_step. cbn [without_overflow_warnings recorder without_overflow
                           stream_open stream_read].
  destruct (_recording_thread (recorder w)) as [th|]; [|reflexivity].
  destruct (t_pc th); try reflexivity.
  - destruct (chunk_frames (recorder w)); [|reflexivity].
    destruct (stream_open _ _ _ _ _); [reflexivity|].
    symmetry. apply quiet_worker_failed.
  - destruct (_stop_event (recorder w)); reflexivity.
  - destruct (chunk_frames (recorder w)); [|reflexivity].
    destruct (stream_read env _ _ _) as [[chunk overflowed]|];
      [|symmetry; apply quiet_worker_failed].
    assert (without_overflow_warnings
              (if overflowed then emit WARNING "Audio input overflow detected" w else w)
            = without_overflow_warnings w) as Hq
      by (destruct overflowed; [apply quiet_overflow|reflexivity]).
    destruct (_audio_data (recorder w)) as [data|].
    + destruct (cap_reached _ _).
      * rewrite quiet_with_recorder, quiet_emit, Hq; reflexivity.
      * rewrite !quiet_with_recorder, Hq. reflexivity.
    + rewrite quiet_worker_failed, Hq. reflexivity.
Qed.

Lemma quiet_run_worker fuel env w :
  run_worker fuel (without_overflow env) (without_overflow_warnings w)
  = without_overflow_warnings (run_worker fuel env w).
Proof.
  revert w. induction fuel as [|fuel IH]; intros w; cbn [run_worker]; [reflexivity|].
  change (recorder (without_overflow_warnings w)) with (recorder w).
  destruct (thread_alive (recorder w)); [|reflexivity].
  rewrite quiet_worker_step. apply IH.
Qed.

Lemma quiet_halt env w :
  halt (without_overflow env) (without_overflow_warnings w)
  = without_overflow_warnings (halt env w).
Proof.
  unfold halt, join.
  rewrite <- (quiet_emit INFO "Stopping recording" w) by reflexivity.
  rewrite <- !quiet_with_recorder.
  match goal with |- context [without_overflow_warnings ?w0] =>
    change (recorder (without_overflow_warnings w0)) with (recorder w0) end.
  destruct (_recording_thread _); [apply quiet_run_worker|reflexivity].
Qed.

Lemma quiet_save a w :
  _save_audio_data a (without_overflow_warnings w)
  = (without_overflow_warnings (fst (_save_audio_data a w)), snd (_save_audio_data a w)).
Proof.
  unfold _save_audio_data.
  change (recorder (without_overflow_warnings w)) with (recorder w).
  destruct (file_manager (recorder w)) as [fm|];
    [|cbn [fst snd]; rewrite quiet_emit; reflexivity].
  destruct (create_temp_file _ _ _) as [fm1 [path|]];
    [|cbn [fst snd]; rewrite quiet_emit, quiet_with_recorder; reflexivity].
  destruct (write_audio_data _ _ _ _ _) as [fm2 [[|]|]];
    cbn [fst snd]; rewrite quiet_emit, quiet_with_recorder; reflexivity.
Qed.

Lemma quiet_stop env w :
  stop_recording (without_overflow env) (without_overflow_warnings w)
  = (without_overflow_warnings (fst (stop_recording env w)), snd (stop_recording env w)).
Proof.
  unfold stop_recording.
  change (recorder (without_overflow_warnings w)) with (recorder w).
  destruct (negb _); [cbn [fst snd]; rewrite quiet_emit; reflexivity|].
  rewrite quiet_halt.
  change (recorder (without_overflow_warnings (halt env w))) with (recorder (halt env w)).
  destruct (_audio_data (recorder (halt env w))) as [[|c data]|];
    try (cbn [fst snd]; rewrite quiet_emit; reflexivity).
  destruct (assemble _ _); [apply quiet_save|].
  cbn [fst snd]; rewrite quiet_emit; reflexivity.
Qed.

Lemma quiet_start env w :
  start_recording (without_overflow env) (without_overflow_warnings w)
  = (without_overflow_warnings (fst (start_recording env w)), snd (start_recording env w)).
Proof.
  unfold start_recording.
  change (recorder (without_overflow_warnings w)) with (recorder w).
  change (session_no (without_overflow_warnings w)) with (session_no w).
  cbn [without_overflow thread_start].
  destruct (_is_recording (recorder w)); [cbn [fst snd]; rewrite quiet_emit; reflexivity|].
  rewrite <- (quiet_emit INFO "Starting recording" w) by reflexivity.
  destruct (thread_start env (session_no w)); cbn [fst snd].
  - reflexivity.
  - unfold without_overflow_warnings, emit, with_recorder, next_session.
    cbn [recorder session_no logs]. rewrite !List.filter_app. reflexivity.
Qed.

(** X8. An input overflow reported by the device costs no audio and changes
    nothing in the recorder: on a device that reports no overflow at all
    but is otherwise the same, every schedule leads to the same recorder,
    the same files and the same answers, and to the same log without its
    overflow warnings. *)
Theorem overflow_only_warns env schedule w :
  run (without_overflow env) schedule (without_overflow_warnings w)
  = without_overflow_warnings (run env schedule w).
Proof.
  revert w. unfold run.
  induction schedule as [|a schedule IH]; intros w; cbn [fold_left]; [reflexivity|].
  rewrite <- IH. f_equal. destruct a; cbn [act].
  - rewrite quiet_start. reflexivity.
  - rewrite quiet_stop. reflexivity.
  - apply quiet_worker_step.
Qed.

(** *** A recorder without a file manager *)

Lemma worker_step_file_manager env w :
  file_manager (recorder (worker_step env w)) = file_manager (recorder w).
Proof.
  unfold worker_step, worker_failed. repeat case_match; reflexivity.
Qed.

Lemma run_worker_file_manager fuel env w :
  file_manager (recorder (run_worker fuel env w)) = file_manager (recorder w).
Proof.
  revert w. induction fuel as [|fuel IH]; intros w; cbn; [reflexivity|].
  destruct (thread_alive _); [|reflexivity].
  rewrite IH. apply worker_step_file_manager.
Qed.

Lemma halt_file_manager env w :
  file_manager (recorder (halt env w)) = file_manager (recorder w).
Proof.
  unfold halt, join. destruct (_recording_thread _); [|reflexivity].
  rewrite run_worker_file_manager. reflexivity.
Qed.

Lemma stop_without_file_manager env w :
  file_manager (recorder w) = None ->
  snd (stop_recording env w) = None
  /\ file_manager (recorder (fst (stop_recording env w))) = None.
Proof.
  intros H. unfold stop_recording.
  destruct (negb _); [auto|].
  pose proof (halt_file_manager env w) as Hh. rewrite H in Hh.
  destruct (_audio_data (recorder (halt env w))) as [[|c data]|]; auto.
  destruct (assemble _ _); [|auto].
  unfold _save_audio_data. rewrite Hh. auto.
Qed.

Lemma run_without_file_manager env schedule w :
  file_manager (recorder w) = None ->
  file_manager (recorder (run env schedule w)) = None.
Proof.
  revert w. unfold run.
  induction schedule as [|a schedule IH]; intros w H; cbn [fold_left]; [exact H|].
  apply IH. destruct a; cbn [act].
  - unfold start_recording. repeat case_match; exact H.
  - apply stop_without_file_manager, H.
  - rewrite worker_step_file_manager. exact H.
Qed.

(** X9. [create_recorder] passes on its [file_manager] argument, whose
    default is [None], and no cap. A recorder so built without a file
    manager never hands out a file: whatever was captured, every
    [stop_recording] returns [None]. *)
Theorem recorder_without_file_manager_saves_nothing env schedule sample_rate channels :
  let w := run env schedule (boot (create_recorder sample_rate channels None)) in
  max_duration (recorder w) = None
  /\ file_manager (recorder w) = None
  /\ snd (stop_recording env w) = None.
Proof.
  intros w.
  assert (file_manager (recorder w) = None) as H
    by (apply run_without_file_manager; reflexivity).
  split; [|split; [exact H|apply stop_without_file_manager, H]].
  unfold w.
  destruct (evolves_config env _ _ (run_evolves env schedule
              (boot (create_recorder sample_rate channels None)))) as (_ & _ & ->).
  reflexivity.
Qed.

End RecorderLifetime.

(** ** Files *)

Import FileCleanup.

Section Files.

Context {T : Type} {PF : PyFloat T}.

Implicit Types (s : TempStore) (h : Host) (w : World T TempStore).

Lemma create_temp_file_spec suffix prefix s :
  let path := next_temp_path suffix prefix s in
  let (s', answer) := create_temp_file_impl suffix prefix s in
  manager s' = manager s
  /\ dirs (host s') = dirs (host s)
  /\ soundfile (host s') = soundfile (host s)
  /\ if bool_decide (temp_dir (manager s) ∈ dirs (host s))
     then answer = Ok path /\ disk (host s') = <[ path := EmptyFile ]> (disk (host s))
     else answer = Raise FileNotFoundError /\ s' = s.
Proof.
  unfold create_temp_file_impl, next_temp_path.
  destruct (bool_decide _); cbn; auto.
Qed.

(** X10. What [_save_audio_data] leaves on the disk of a [TempFileManager].
    The manager, its directories and every file but the new one stay. With
    [soundfile] the new file holds the array and the sample rate, and its
    path is returned; without [soundfile] the [wave] fallback writes it
    with the channel count. When the write raises, through [soundfile] or
    through the fallback, the answer is [None] and the file [mkstemp]
    made is left behind, empty or with what the write left in it; when
    the manager's directory is gone nothing is created. *)
Theorem save_audio_data_on_disk audio w store :
  file_manager (recorder w) = Some store ->
  let path := next_temp_path ".wav" "audio_" store in
  let (w', answer) := _save_audio_data audio w in
  exists store',
    file_manager (recorder w') = Some store'
    /\ manager store' = manager store
    /\ dirs (host store') = dirs (host store)
    /\ (forall other, other <> path ->
          disk (host store') !! other = disk (host store) !! other)
    /\ if bool_decide (temp_dir (manager store) ∈ dirs (host store)) then
         match soundfile (host store) with
         | SfWorks =>
             answer = Some path
             /\ disk (host store') !! path
                = Some (SoundfileWav audio (sample_rate (recorder w)))
         | SfMissing =>
             answer = Some path
             /\ disk (host store') !! path
                = Some (WaveInt16 audio (channels (recorder w)) (sample_rate (recorder w)))
         | SfFails leftover | SfMissingWaveFails leftover =>
             answer = None
             /\ disk (host store') !! path
                = Some (match leftover with Some content => content | None => EmptyFile end)
         end
       else answer = None /\ store' = store.
Proof.
  intros Hfm path. unfold _save_audio_data. rewrite Hfm.
  pose proof (create_temp_file_spec ".wav" "audio_" store) as Hc.
  cbn [create_temp_file temp_store_manager].
  cbn zeta in Hc. fold path in Hc.
  destruct (create_temp_file_impl ".wav" "audio_" store) as [s1 answer1].
  destruct Hc as (Hm & Hd & Hsf & Hc).
  destruct (bool_decide (temp_dir (manager store) ∈ dirs (host store))).
  - destruct Hc as [-> Hdisk].
    cbn [write_audio_data temp_store_manager]. unfold write_audio_data_impl.
    rewrite Hsf.
    destruct (soundfile (host store)); cbn.
    + eexists. split; [reflexivity|]. cbn. rewrite Hdisk.
      repeat split; try assumption.
      * intros other Ho. rewrite !lookup_insert_ne by congruence. reflexivity.
      * apply lookup_insert_eq.
    + eexists. split; [reflexivity|]. cbn. rewrite Hdisk.
      repeat split; try assumption.
      * intros other Ho. rewrite !lookup_insert_ne by congruence. reflexivity.
      * apply lookup_insert_eq.
    + eexists. split; [reflexivity|]. cbn. rewrite Hdisk.
      repeat split; try assumption.
      * intros other Ho. destruct leftover;
          rewrite ?lookup_insert_ne by congruence; reflexivity.
      * destruct leftover; apply lookup_insert_eq.
    + eexists. split; [reflexivity|]. cbn. rewrite Hdisk.
      repeat split; try assumption.
      * intros other Ho. destruct leftover;
          rewrite ?lookup_insert_ne by congruence; reflexivity.
      * destruct leftover; apply lookup_insert_eq.
  - destruct Hc as [-> ->]. cbn. exists store. auto 10.
Qed.

End Files.

Section Managers.

Implicit Types (s : TempStore) (h : Host).

(** X11. A manager that [TempFileManager()] has built can create its
    files, and what the test [test_create_temp_file] asserts holds for
    it: [create_temp_file] returns a path in the manager's directory that
    starts with the prefix and ends with the suffix, and the file exists,
    empty. The directory is [mic_to_keyboard_<hex>] under the system's
    temporary directory. *)
Theorem constructed_manager_creates_files h h' m suffix prefix :
  TempFileManager_new h = (h', Ok m) ->
  let s := mkTempStore m h' in
  (exists hex, temp_dir m = path_join (tempdir h) ("mic_to_keyboard_" ++ hex)%string)
  /\ temp_dir m ∈ dirs h'
  /\ exists name,
       let path := path_join (temp_dir m) (prefix ++ name ++ suffix)%string in
       snd (create_temp_file_impl suffix prefix s) = Ok path
       /\ disk (host (fst (create_temp_file_impl suffix prefix s))) !! path = Some EmptyFile
       /\ path_exists path (host (fst (create_temp_file_impl suffix prefix s))) = true.
Proof.
  unfold TempFileManager_new, TempFileManager__init__. cbn.
  set (dir := path_join (tempdir h) _).
  destruct (makedirs dir true _) as [h1|] eqn:Hmk; [|discriminate].
  intros [= <- <-]. cbn.
  assert (dir ∈ dirs h1) as Hdir.
  { unfold makedirs in Hmk.
    destruct (String.eqb dir ""); [discriminate|].
    destruct (path_exists dir _).
    - destruct (bool_decide (dir ∈ dirs _)) eqn:Hin; cbn in Hmk; [|discriminate].
      injection Hmk as <-. apply bool_decide_eq_true in Hin. exact Hin.
    - destruct (refuses _ dir); [discriminate|]. injection Hmk as <-.
      cbn. apply elem_of_union_l, elem_of_singleton. reflexivity. }
  split; [eexists; reflexivity|]. split; [exact Hdir|].
  unfold create_temp_file_impl. cbn.
  rewrite bool_decide_eq_true_2 by exact Hdir. cbn.
  eexists. split; [reflexivity|].
  unfold path_exists. cbn. rewrite lookup_insert_eq.
  split; [reflexivity|].
  rewrite (bool_decide_eq_true_2 (is_Some _)) by eauto. apply orb_true_r.
Qed.


End Managers.

(** ** The hotkey test *)

Section HotkeyTest.

Context {A : Type}.

(** X15. Of the three tests of [_is_hotkey_pressed] the first two never
    decide: with the key sets [__init__] gives, the answer is that of
    [_mixed_modifier_combination] alone, for any set of pressed keys. *)
Theorem subset_tests_are_redundant (l : HotkeyListener A) :
  targets_set l ->
  _is_hotkey_pressed l = _mixed_modifier_combination l.
Proof.
  intros Hset. rewrite is_hotkey_pressed_spec by exact Hset.
  unfold combination_down, _mixed_modifier_combination.
  destruct (decide (ctrl_l ∈ pressed_keys l)), (decide (ctrl_r ∈ pressed_keys l)),
    (decide (shift_l ∈ pressed_keys l)), (decide (shift_r ∈ pressed_keys l)),
    (decide (space ∈ pressed_keys l)).
  all: repeat (first [rewrite (bool_decide_eq_true_2 (_ ∈ _)) by assumption
                     |rewrite (bool_decide_eq_false_2 (_ ∈ _)) by assumption]).
  all: cbn; first [apply bool_decide_eq_true_2; tauto | apply bool_decide_eq_false_2; tauto].
Qed.

End HotkeyTest.

(** ** The listener and the controller together *)

Import Lifetime Together.

Section SystemAtRest.

Context {T : Type} {PF : PyFloat T} {F : Type} {FM : FileManager F}
        {C : Type} {CO : Collaborators F C}.

Implicit Types (env : Env) (v : VoiceInputSystem T F C)
  (w : HWorld (VoiceInputSystem T F C))
  (console : list string -> string -> result unit).

Lemma cycles_succ n : cycles n ++ [RECORDING; PROCESSING; IDLE] = cycles (S n).
Proof.
  unfold cycles. induction n as [|n IH]; [reflexivity|].
  cbn [replicate concat]. rewrite <- app_assoc, IH. reflexivity.
Qed.

Lemma start_recording_refused env (w0 : World T F) :
  snd (start_recording env w0) = false ->
  _is_recording (recorder w0) = false ->
  _is_recording (recorder (fst (start_recording env w0))) = false.
Proof.
  intros Hno Hrec. revert Hno. unfold start_recording. rewrite Hrec.
  destruct (thread_start env _); cbn; [discriminate|reflexivity].
Qed.

(** [at_rest] reads these parts of the controller only. *)
Lemma at_rest_ext console v v' :
  sys_stdout v' = sys_stdout v ->
  state v' = state v ->
  state_writes v' = state_writes v ->
  audio_recorder v' = audio_recorder v ->
  at_rest console v -> at_rest console v'.
Proof. unfold at_rest. intros -> -> -> ->. auto. Qed.

Lemma start_at_rest env console v :
  state v = IDLE -> at_rest console v -> at_rest console (fst (_start_recording env v)).
Proof.
  intros Hs Hrest. unfold _start_recording. cbn [block always].
  unfold print at 1. cbn [vlog stdout sys_stdout].
  destruct (sys_stdout v (stdout v) "Recording started...") as [[]|e];
    [|revert Hrest; apply at_rest_ext; reflexivity].
  destruct Hrest as (Hout & Hidle & Hrun & Hnever & n & Hh).
  pose proof (act_running env DoStart (audio_recorder v) Hrun) as Hrun'.
  pose proof (start_recording_refused env (audio_recorder v)) as Hno.
  cbn in Hrun'. cbn -[start_recording print].
  destruct (start_recording env (audio_recorder v)) as [w0 started]. cbn in Hrun', Hno.
  destruct started; cbn.
  - unfold at_rest. cbn.
    split; [exact Hout|]. split; [intros A; contradiction|]. split; [exact Hrun'|].
    split; [intros _; discriminate|].
    exists n. rewrite Hh, Hs. unfold history. cbn. rewrite app_nil_r. reflexivity.
  - assert (Hidle' : _is_recording (recorder w0) = false)
      by (apply Hno; [reflexivity | apply Hidle; rewrite Hs; discriminate]).
    unfold print.
    cbn [vlog stdout sys_stdout set_audio_recorder].
    destruct (sys_stdout v _ "Failed to start recording") as [[]|e]; cbn.
    all: unfold at_rest; cbn.
    all: split; [exact Hout|]; split; [intros _; exact Hidle'|]; split; [exact Hrun'|].
    all: split; [exact Hnever|]; exists n; exact Hh.
Qed.

Lemma stop_at_rest env console v :
  state v = RECORDING -> at_rest console v ->
  at_rest console (fst (_stop_recording_and_process env v)).
Proof.
  intros Hs Hrest. unfold _stop_recording_and_process. cbn [block always].
  unfold print at 1. cbn [vlog stdout sys_stdout].
  destruct (sys_stdout v (stdout v) "Processing...") as [[]|e];
    [|revert Hrest; apply at_rest_ext; reflexivity].
  destruct Hrest as (Hout & Hidle & Hrun & Hnever & n & Hh).
  set (v1 := assign_state PROCESSING _).
  pose proof (after_processing_assigned env v1) as Hrest.
  cbn [block always] in *. cbv zeta in Hrest.
  pose proof (stop_recording_clears_flag env (audio_recorder v1)) as Hflag.
  pose proof (stop_recording_joins env (audio_recorder v1) Hrun) as Hjoin.
  match type of Hrest with
  | (let (_, _) := ?rest in _) => destruct rest as [v' outcome]
  end.
  destruct Hrest as (Hout' & Hrec & Hthread & Hevent & Hend).
  assert (thread_alive (recorder (audio_recorder v')) = false) as Hjoin'
    by (unfold thread_alive in *; rewrite Hthread; exact Hjoin).
  assert (at_rest console v') as Hgoal.
  { unfold at_rest.
    split; [rewrite Hout'; exact Hout|].
    split; [intros _; rewrite Hrec; exact Hflag|].
    split; [intros A; rewrite Hjoin' in A; discriminate|].
    destruct outcome as [[]|e].
    - destruct Hend as [Hstate Hwrites]. rewrite Hstate, Hwrites.
      split; [intros _; discriminate|].
      exists (S n). subst v1. cbn. rewrite Hh, Hs. unfold history. cbn.
      rewrite <- !app_assoc. cbn. rewrite cycles_succ, app_nil_r. reflexivity.
    - destruct Hend as (Hstate & Hwrites & out & msg & Hraise).
      rewrite Hstate, Hwrites. subst v1. cbn in Hraise |- *.
      split.
      + intros Hquiet. rewrite Hout, Hquiet in Hraise. discriminate.
      + exists n. rewrite Hh, Hs. unfold history. cbn.
        rewrite <- !app_assoc. reflexivity. }
  destruct outcome as [[]|e]; exact Hgoal.
Qed.

Lemma on_hotkey_pressed_at_rest env console v :
  at_rest console v -> at_rest console (fst (_on_hotkey_pressed env v)).
Proof.
  intros Hrest. unfold _on_hotkey_pressed. destruct (state v) eqn:Hs.
  - apply start_at_rest; assumption.
  - apply stop_at_rest; assumption.
  - revert Hrest. apply at_rest_ext; reflexivity.
Qed.

Lemma capture_step_at_rest env console v :
  at_rest console v -> at_rest console (capture_step env v).
Proof.
  intros (Hout & Hidle & Hrun & Hnever & n & Hh). unfold at_rest, capture_step. cbn.
  split; [exact Hout|].
  split; [|split; [apply (worker_step_running env (audio_recorder v)); exact Hrun|eauto]].
  intros Hs. specialize (Hidle Hs).
  destruct (_is_recording (recorder (worker_step env (audio_recorder v)))) eqn:E;
    [|reflexivity].
  apply worker_step_never_sets_flag in E. congruence.
Qed.

Lemma happen_at_rest env console x w :
  targets_set (listener w) ->
  hotkey_callback (listener w) = system_callback env ->
  at_rest console (app w) ->
  targets_set (listener (happen env x w))
  /\ hotkey_callback (listener (happen env x w)) = system_callback env
  /\ at_rest console (app (happen env x w))
  /\ (state (app w) = PROCESSING -> state (app (happen env x w)) = PROCESSING).
Proof.
  intros Hset Hcb Hrest. destruct x as [e|]; cbn [happen].
  - destruct (deliver_keys e w) as (_ & Ht & Ha & Hc).
    split; [destruct Hset; split; congruence|]. split; [congruence|].
    rewrite (deliver_app e w Hset), Hcb.
    destruct e as [k|k]; [|split; [exact Hrest | auto]].
    destruct (combination_down _); [|split; [exact Hrest | auto]].
    split; [apply on_hotkey_pressed_at_rest, Hrest|].
    intros Hs. unfold system_callback, _on_hotkey_pressed. rewrite Hs. exact Hs.
  - cbn. split; [exact Hset|]. split; [exact Hcb|].
    split; [apply capture_step_at_rest, Hrest | auto].
Qed.

Lemma live_at_rest env console happenings w :
  targets_set (listener w) ->
  hotkey_callback (listener w) = system_callback env ->
  at_rest console (app w) ->
  targets_set (listener (live env happenings w))
  /\ hotkey_callback (listener (live env happenings w)) = system_callback env
  /\ at_rest console (app (live env happenings w))
  /\ (state (app w) = PROCESSING -> state (app (live env happenings w)) = PROCESSING).
Proof.
  revert w. unfold live.
  induction happenings as [|x happenings IH]; intros w Hset Hcb Hrest;
    cbn [fold_left];
    [split; [exact Hset|]; split; [exact Hcb|]; split; [exact Hrest|]; auto|].
  destruct (happen_at_rest env console x w Hset Hcb Hrest) as (Hset' & Hcb' & Hrest' & Hp).
  destruct (IH _ Hset' Hcb' Hrest') as (H1 & H2 & H3 & H4).
  split; [exact H1|]. split; [exact H2|]. split; [exact H3|].
  intros Hs. apply H4, Hp, Hs.
Qed.

(** X16. The controller behind its listener, over any sequence of key
    events and steps of the capture thread. Between two handlers, when
    the state is not Recording the recorder is not recording and no
    capture thread runs. The values the state has taken are Idle followed
    by whole sessions Recording, Processing, Idle, with a last Recording
    when a session is open and a last Recording, Processing when a
    [print] raised in the middle of a session: no state is skipped and
    none is entered twice in a row. On a standard output that takes
    every text the state is never Processing between two handlers; but
    once it is, it stays so whatever happens. *)
Theorem controller_between_handlers env happenings max_recording_duration
    (file_manager : F) (services : C) console :
  let w := live env happenings
             (power_on env max_recording_duration file_manager services console) in
  let v := app w in
  (state v <> RECORDING ->
     _is_recording (recorder (audio_recorder v)) = false
     /\ thread_alive (recorder (audio_recorder v)) = false)
  /\ (exists n, state_writes v = history n (state v))
  /\ (never_raises console -> state v <> PROCESSING)
  /\ (forall more, state v = PROCESSING -> state (app (live env more w)) = PROCESSING).
Proof.
  intros w v.
  set (w0 := power_on env max_recording_duration file_manager services console) in *.
  assert (targets_set (listener w0) /\ hotkey_callback (listener w0) = system_callback env
          /\ at_rest console (app w0)) as (Hset0 & Hcb0 & Hrest0).
  { split; [split; reflexivity|]. split; [reflexivity|].
    unfold at_rest. cbn. split; [reflexivity|]. split; [reflexivity|].
    split; [intros A; discriminate A|]. split; [discriminate|].
    exists 0%nat. reflexivity. }
  destruct (live_at_rest env console happenings w0 Hset0 Hcb0 Hrest0)
    as (Hset & Hcb & (Hout & Hidle & Hrun & Hnever & Hh) & _).
  fold w in Hset, Hcb, Hout, Hidle, Hrun, Hnever, Hh. fold v in Hout, Hidle, Hrun, Hnever, Hh.
  split.
  { intros Hs. split; [exact (Hidle Hs)|].
    destruct (thread_alive _) eqn:A; [|reflexivity].
    destruct (Hrun A) as [Hrec _]. rewrite (Hidle Hs) in Hrec. discriminate. }
  split; [exact Hh|]. split; [exact Hnever|].
  intros more.
  assert (at_rest console (app w)) as Hrest
    by (unfold at_rest; fold v; auto).
  destruct (live_at_rest env console more w Hset Hcb Hrest) as (_ & _ & _ & Hstays).
  exact Hstays.
Qed.

End SystemAtRest.

(** ** The recorders of dummy_audio_recorder.py *)

Import Dummy.

Section DummyRecorders.

Context {T : Type} {PF : PyFloat T} {F : Type} {FM : FileManager F}.

Variable synth : T -> T -> nat -> sample.

Implicit Types (w : World T F) (a : AWorld T F).

Lemma generate_test_audio_length (r : AudioRecorder T F) frequency duration :
  match generate_test_audio synth r frequency duration with
  | Ok audio =>
      exists samples,
        audio = A1 samples
        /\ to_int (fmul (of_int (sample_rate r)) duration) = Some (Z.of_nat (length samples))
  | Raise _ =>
      match to_int (fmul (of_int (sample_rate r)) duration) with
      | Some n => n < 0
      | None => True
      end
  end.
Proof.
  unfold generate_test_audio.
  destruct (to_int _) as [n|]; [|exact I].
  destruct (n <? 0) eqn:Hn; [apply Z.ltb_lt, Hn|].
  apply Z.ltb_ge in Hn.
  eexists. split; [reflexivity|].
  rewrite length_map, length_seq, Z2Nat.id by exact Hn. reflexivity.
Qed.

(** X17. [record_test_audio] saves an array of exactly
    [int(sample_rate * duration)] samples through [_save_audio_data] and
    leaves the session alone: the recording flag, the capture thread, the
    buffer and the stop event are as they were, so it can be called
    during a recording. It raises, saving nothing, exactly when that
    number of samples is negative or not a number. *)
Theorem record_test_audio_saves_generated frequency duration w :
  match record_test_audio synth frequency duration w with
  | Ok (w', path) =>
      exists samples,
        to_int (fmul (of_int (sample_rate (recorder w))) duration)
          = Some (Z.of_nat (length samples))
        /\ (w', path) = _save_audio_data (A1 samples) w
        /\ _is_recording (recorder w') = _is_recording (recorder w)
        /\ _recording_thread (recorder w') = _recording_thread (recorder w)
        /\ _audio_data (recorder w') = _audio_data (recorder w)
        /\ _stop_event (recorder w') = _stop_event (recorder w)
  | Raise _ =>
      match to_int (fmul (of_int (sample_rate (recorder w))) duration) with
      | Some n => n < 0
      | None => True
      end
  end.
Proof.
  unfold record_test_audio.
  pose proof (generate_test_audio_length (recorder w) frequency duration) as H.
  destruct (generate_test_audio synth (recorder w) frequency duration) as [audio|];
    [|exact H].
  destruct H as (samples & -> & Hn).
  destruct (save_keeps_recording (A1 samples) w) as (_ & _ & _ & Hr & Ht & Hd & He).
  destruct (_save_audio_data (A1 samples) w) as [w' path] eqn:Hsave.
  exists samples. cbn in *. auto 10.
Qed.

Lemma simulate_progress_spec (callback : T -> result unit) (indices : list nat) a :
  let values := map (fun i => fdiv (of_int (Z.of_nat i)) (of_int 10)) indices in
  let (a', simulated) := simulate_progress callback 10 indices a in
  inherited a' = inherited a
  /\ match List.find (fun i => negb (is_ok (callback
                        (fdiv (of_int (Z.of_nat i)) (of_int 10))))) indices with
     | None => is_ok simulated = true /\ progress_calls a' = progress_calls a ++ values
     | Some j =>
         is_ok simulated = false
         /\ exists before after,
              indices = before ++ j :: after
              /\ progress_calls a'
                 = progress_calls a
                   ++ map (fun i => fdiv (of_int (Z.of_nat i)) (of_int 10)) (before ++ [j])
     end.
Proof.
  revert a. induction indices as [|i rest IH]; intros a; cbn.
  - split; [reflexivity|]. split; [reflexivity|]. rewrite app_nil_r. reflexivity.
  - destruct (callback (fdiv (of_int (Z.of_nat i)) (of_int 10))) as [[]|e] eqn:Hcall; cbn.
    + specialize (IH (called_with (fdiv (of_int (Z.of_nat i)) (of_int 10)) a)).
      cbn zeta in IH.
      destruct (simulate_progress callback 10 rest _) as [a' simulated].
      destruct IH as [Hin IH]. split; [exact Hin|].
      destruct (List.find _ rest) as [j|].
      * destruct IH as (Hno & before & after & -> & Hcalls).
        split; [exact Hno|]. exists (i :: before), after.
        split; [reflexivity|]. rewrite Hcalls. cbn. rewrite <- app_assoc. reflexivity.
      * destruct IH as [Hyes Hcalls]. split; [exact Hyes|].
        rewrite Hcalls. cbn. rewrite <- app_assoc. reflexivity.
    + split; [reflexivity|]. split; [reflexivity|].
      exists [], rest. split; reflexivity.
Qed.

(** X18. [record_test_audio_async] with a progress callback, when the
    audio can be generated. If the callback accepts the eleven values
    [0/10, 1/10, ..., 10/10] it is called with exactly these, in this
    order, and then the audio is saved through [_save_audio_data], whose
    answer is returned. If it rejects one, it has been called with the
    values up to that one and no further, nothing is saved, the recorder
    is as before but for one error in the log, and the answer is
    [None]. *)
Theorem test_audio_progress frequency duration (callback : T -> result unit) a audio :
  generate_test_audio synth (rec_of a) frequency duration = Ok audio ->
  let (a', answer) := record_test_audio_async synth frequency duration (Some callback) a in
  match first_rejected callback with
  | None =>
      progress_calls a' = progress_calls a ++ progress_steps 11
      /\ (inherited a', answer) = _save_audio_data audio (inherited a)
  | Some j =>
      progress_calls a' = progress_calls a ++ progress_steps (S j)
      /\ (j < 11)%nat
      /\ answer = None
      /\ inherited a' = emit ERROR "Failed to record test audio async" (inherited a)
  end.
Proof.
  intros Hgen. unfold record_test_audio_async. rewrite Hgen.
  pose proof (simulate_progress_spec callback (seq 0 11) a) as H. cbn zeta in H.
  destruct (simulate_progress callback 10 (seq 0 11) a) as [a1 simulated].
  destruct H as [Hin H]. unfold first_rejected.
  destruct (List.find _ (seq 0 11)) as [j|] eqn:Hfind.
  - destruct H as (Hno & before & after & Hsplit & Hcalls).
    destruct simulated; [discriminate|]. cbn.
    assert (before = seq 0 j /\ (j < 11)%nat) as [-> Hj].
    { assert (length before < 11)%nat as Hlen.
      { apply (f_equal (@length nat)) in Hsplit.
        rewrite length_seq, length_app in Hsplit. cbn in Hsplit. lia. }
      assert (j = length before) as ->.
      { pose proof (list_lookup_middle before after j (length before) eq_refl) as Hj.
        rewrite <- Hsplit in Hj. apply lookup_seq in Hj as [-> _]. reflexivity. }
      split; [|exact Hlen].
      transitivity (take (length before) (seq 0 11)).
      - rewrite Hsplit, take_app_length. reflexivity.
      - rewrite take_seq. f_equal. lia. }
    split.
    + rewrite Hcalls. f_equal.
      change (map (fun i => fdiv (of_int (Z.of_nat i)) (of_int 10)) (seq 0 j ++ [j])
              = progress_steps (S j)).
      unfold progress_steps. rewrite seq_S. reflexivity.
    + split; [exact Hj|]. split; [reflexivity|]. rewrite Hin. reflexivity.
  - destruct H as [Hyes Hcalls]. destruct simulated; [|discriminate]. rewrite Hin.
    destruct (_save_audio_data audio (inherited a)) as [w path]. cbn.
    split; [exact Hcalls|reflexivity].
Qed.

End DummyRecorders.

(** ** Emptying the temporary directories *)

Import Housekeeping.

Section Paths.

Lemma strip_prefix_spec (p s r : string) :
  strip_prefix p s = Some r <-> s = (p ++ r)%string.
Proof.
  revert s. induction p as [|c p IH]; intros s; cbn.
  - split; [intros [= ->]; reflexivity|intros ->; reflexivity].
  - destruct s as [|d s]; [split; discriminate|].
    destruct (Ascii.eqb_spec c d) as [->|Hne].
    + rewrite IH. split; [intros ->; reflexivity|intros [= ->]; reflexivity].
    + split; [discriminate|intros [= ? ?]; congruence].
Qed.

Lemma append_cons (x : ascii) (a b : string) :
  (String x a ++ b)%string = String x (a ++ b).
Proof. reflexivity. Qed.

Lemma string_app_assoc (a b c : string) : ((a ++ b) ++ c = a ++ (b ++ c))%string.
Proof.
  induction a as [|x a IH]; [reflexivity|]. rewrite !append_cons, IH. reflexivity.
Qed.

Lemma string_app_length (a b : string) :
  String.length (a ++ b) = (String.length a + String.length b)%nat.
Proof.
  induction a as [|x a IH]; [reflexivity|]. rewrite append_cons. cbn. rewrite IH.
  reflexivity.
Qed.

Lemma startswith_spec (p s : string) :
  startswith p s = true <-> exists r, s = (p ++ r)%string.
Proof.
  unfold startswith. destruct (strip_prefix p s) as [r|] eqn:H.
  - apply strip_prefix_spec in H. split; eauto.
  - split; [discriminate|]. intros [r Hr]. apply strip_prefix_spec in Hr. congruence.
Qed.

Lemma under_join (dir name : string) : under dir (path_join dir name) = true.
Proof.
  unfold under, path_join. apply startswith_spec. exists name.
  rewrite string_app_assoc. reflexivity.
Qed.

Lemma under_trans (dir name path : string) :
  under (path_join dir name) path = true -> under dir path = true.
Proof.
  unfold under, path_join. rewrite !startswith_spec. intros [r ->].
  exists (name ++ "/" ++ r)%string. rewrite !string_app_assoc. reflexivity.
Qed.

Lemma within_under (dir name path : string) :
  within (path_join dir name) path = true -> under dir path = true.
Proof.
  unfold within. intros [Heq|Hu]%orb_true_iff.
  - apply String.eqb_eq in Heq as ->. apply under_join.
  - eapply under_trans, Hu.
Qed.

Lemma within_self (item : string) : within item item = true.
Proof. unfold within. rewrite String.eqb_refl. reflexivity. Qed.

Lemma not_under_self (dir : string) : under dir dir = false.
Proof.
  unfold under. destruct (startswith (dir ++ "/") dir) eqn:H; [|reflexivity].
  apply startswith_spec in H as [r Hr].
  apply (f_equal String.length) in Hr. rewrite !string_app_length in Hr. cbn in Hr. lia.
Qed.

Lemma string_app_inv_head (a b c : string) : (a ++ b = a ++ c)%string -> b = c.
Proof. apply String.app_inj. Qed.

Lemma child_name_spec (dir path name : string) :
  child_name dir path = Some name
  <-> path = path_join dir name /\ name <> "" /\ has_slash name = false.
Proof.
  unfold child_name, path_join.
  destruct (strip_prefix (dir ++ "/") path) as [r|] eqn:H.
  - apply strip_prefix_spec in H. rewrite string_app_assoc in H. subst path.
    destruct (String.eqb_spec r "") as [->|Hne]; cbn.
    + split; [discriminate|]. intros (Hp & Hn & _).
      apply string_app_inv_head, string_app_inv_head in Hp. congruence.
    + destruct (has_slash r) eqn:Hs.
      * split; [discriminate|]. intros (Hp & _ & Hno).
        apply string_app_inv_head, string_app_inv_head in Hp. congruence.
      * split; [intros [= <-]; auto|].
        intros (Hp & _). apply string_app_inv_head, string_app_inv_head in Hp.
        congruence.
  - split; [discriminate|]. intros (-> & _).
    assert (strip_prefix (dir ++ "/") (dir ++ "/" ++ name) = Some name) as H'
      by (apply strip_prefix_spec; rewrite string_app_assoc; reflexivity).
    congruence.
Qed.

Lemma has_slash_app (a b : string) :
  has_slash (a ++ b) = has_slash a || has_slash b.
Proof.
  induction a as [|x a IH]; [reflexivity|]. rewrite append_cons. cbn. rewrite IH.
  apply orb_assoc.
Qed.

Lemma under_under (dir item path : string) :
  under dir item = true -> under item path = true -> under dir path = true.
Proof.
  unfold under. rewrite !startswith_spec. intros [r' ->] [r ->].
  exists (r' ++ "/" ++ r)%string. rewrite !string_app_assoc. reflexivity.
Qed.

(** Two entries of a directory: neither lies within the other. *)
Lemma within_sibling (dir name name' : string) :
  has_slash name' = false ->
  within (path_join dir name) (path_join dir name') = true -> name' = name.
Proof.
  unfold within, path_join. intros Hslash [Heq|Hu]%orb_true_iff.
  - apply String.eqb_eq in Heq.
    apply string_app_inv_head, string_app_inv_head in Heq. exact Heq.
  - unfold under in Hu. apply startswith_spec in Hu as [r Hr].
    rewrite !string_app_assoc in Hr.
    apply string_app_inv_head, string_app_inv_head in Hr. subst name'.
    rewrite !has_slash_app in Hslash. cbn in Hslash.
    rewrite orb_true_r in Hslash. discriminate.
Qed.

End Paths.

Section Removing.

Implicit Types (h : Host) (s : TempStore).

Lemma rmtree_dirs item h path :
  path ∈ dirs (rmtree item h) <-> path ∈ dirs h /\ within item path = false.
Proof.
  unfold rmtree. cbn. rewrite elem_of_filter.
  destruct (within item path); cbn; intuition discriminate.
Qed.

Lemma rmtree_disk item h path :
  disk (rmtree item h) !! path = if within item path then None else disk h !! path.
Proof.
  unfold rmtree. cbn.
  destruct (within item path) eqn:Hw.
  - apply map_lookup_filter_None. right. intros content _. cbn. rewrite Hw. auto.
  - destruct (disk h !! path) as [content|] eqn:Hd.
    + apply map_lookup_filter_Some. split; [exact Hd|]. cbn. rewrite Hw. exact I.
    + apply map_lookup_filter_None. left. exact Hd.
Qed.

Lemma only_removals_refl h : only_removals h h.
Proof. split; auto. Qed.

Lemma only_removals_trans h1 h2 h3 :
  only_removals h1 h2 -> only_removals h2 h3 -> only_removals h1 h3.
Proof. intros [Hd Hf] [Hd' Hf']. split; auto. Qed.

Lemma outside_kept_refl dir h : outside_kept dir h h.
Proof. intros path _. split; reflexivity. Qed.

Lemma outside_kept_trans dir h1 h2 h3 :
  outside_kept dir h1 h2 -> outside_kept dir h2 h3 -> outside_kept dir h1 h3.
Proof.
  intros H12 H23 path Hout.
  destruct (H12 path Hout) as [Hd Hf], (H23 path Hout) as [Hd' Hf'].
  split; [rewrite Hd', Hd; reflexivity|congruence].
Qed.

Lemma only_removals_gone h h' path :
  only_removals h h' -> path_exists path h = false -> path_exists path h' = false.
Proof.
  intros [Hd Hf]. unfold path_exists.
  rewrite !orb_false_iff, !bool_decide_eq_false.
  intros [Hnd Hnf]. split; [auto|].
  intros [content Hc]. apply Hnf. eauto.
Qed.

Lemma rmtree_removes item h :
  only_removals h (rmtree item h)
  /\ path_exists item (rmtree item h) = false
  /\ forall dir, under dir item = true -> outside_kept dir h (rmtree item h).
Proof.
  split; [|split].
  - split.
    + intros path Hp. apply rmtree_dirs in Hp. tauto.
    + intros path content. rewrite rmtree_disk. destruct (within item path); [discriminate|auto].
  - unfold path_exists. apply orb_false_iff.
    rewrite !bool_decide_eq_false, rmtree_dirs, rmtree_disk, within_self.
    split; [intros [_ H]; discriminate|intros [? ?]; discriminate].
  - intros dir Hitem path Hout.
    assert (within item path = false) as Hw.
    { destruct (within item path) eqn:Hw; [|reflexivity].
      unfold within in Hw. apply orb_true_iff in Hw as [Heq|Hu].
      - apply String.eqb_eq in Heq as ->. congruence.
      - unfold under in *. apply startswith_spec in Hu as [r ->].
        apply startswith_spec in Hitem as [r' ->].
        assert (startswith (dir ++ "/") ((((dir ++ "/") ++ r') ++ "/") ++ r) = true) as Hin
          by (apply startswith_spec; exists (r' ++ "/" ++ r)%string;
              rewrite !string_app_assoc; reflexivity).
        congruence. }
    rewrite rmtree_dirs, rmtree_disk, Hw. tauto.
Qed.

Lemma tidy_after h h' : tidy h -> only_removals h h' -> tidy h'.
Proof.
  intros Ht [Hd Hf] path Hp.
  destruct (disk h' !! path) as [content|] eqn:Hc; [|reflexivity].
  apply Hf in Hc. rewrite (Ht path (Hd path Hp)) in Hc. discriminate.
Qed.

Lemma remove_file_removes item h :
  tidy h -> is_Some (disk h !! item) ->
  let h1 := set_disk (delete item (disk h)) h in
  only_removals h h1
  /\ path_exists item h1 = false
  /\ forall dir, under dir item = true -> outside_kept dir h h1.
Proof.
  intros Ht [content Hc] h1. subst h1. split; [|split].
  - split; [auto|]. cbn. intros path c Hp.
    apply lookup_delete_Some in Hp. tauto.
  - unfold path_exists. cbn. apply orb_false_iff. rewrite !bool_decide_eq_false.
    split.
    + intros Hd. rewrite (Ht item Hd) in Hc. discriminate.
    + rewrite lookup_delete_eq. intros [? ?]; discriminate.
  - intros dir Hitem path Hout. cbn. split; [reflexivity|].
    apply lookup_delete_ne. intros ->. congruence.
Qed.

Lemma rmtree_partly_dirs gone item h path :
  path ∈ dirs (rmtree_partly gone item h)
  <-> path ∈ dirs h /\ under item path && gone path = false.
Proof.
  unfold rmtree_partly. cbn. rewrite elem_of_filter.
  destruct (under item path && gone path); cbn; intuition discriminate.
Qed.

Lemma rmtree_partly_disk gone item h path :
  disk (rmtree_partly gone item h) !! path
  = if under item path && gone path then None else disk h !! path.
Proof.
  unfold rmtree_partly. cbn.
  destruct (under item path && gone path) eqn:Hw.
  - apply map_lookup_filter_None. right. intros content _. cbn. rewrite Hw. auto.
  - destruct (disk h !! path) as [content|] eqn:Hd.
    + apply map_lookup_filter_Some. split; [exact Hd|]. cbn. rewrite Hw. exact I.
    + apply map_lookup_filter_None. left. exact Hd.
Qed.

Lemma rmtree_partly_removes gone item h :
  only_removals h (rmtree_partly gone item h)
  /\ forall path, under item path = false ->
       (path ∈ dirs (rmtree_partly gone item h) <-> path ∈ dirs h)
       /\ disk (rmtree_partly gone item h) !! path = disk h !! path.
Proof.
  split.
  - split.
    + intros path Hp. apply rmtree_partly_dirs in Hp. tauto.
    + intros path content. rewrite rmtree_partly_disk.
      destruct (under item path && gone path); [discriminate|auto].
  - intros path Hout. rewrite rmtree_partly_dirs, rmtree_partly_disk, Hout. cbn. tauto.
Qed.

Lemma within_false_under item path : within item path = false -> under item path = false.
Proof. unfold within. intros H. apply orb_false_iff in H as [_ H]. exact H. Qed.

Lemma under_outside (dir item path : string) :
  under dir item = true -> under dir path = false -> within item path = false.
Proof.
  intros Hitem Hout. destruct (within item path) eqn:Hw; [|reflexivity].
  unfold within in Hw. apply orb_true_iff in Hw as [Heq|Hu].
  - apply String.eqb_eq in Heq as ->. congruence.
  - rewrite (under_under dir item path Hitem Hu) in Hout. discriminate.
Qed.

(** The two file systems agree at [path]. *)
Lemma agree_path_exists h h' path :
  (path ∈ dirs h' <-> path ∈ dirs h) ->
  disk h' !! path = disk h !! path ->
  path_exists path h' = path_exists path h.
Proof.
  intros Hd Hf. unfold path_exists. rewrite Hf.
  rewrite (bool_decide_ext _ _ Hd). reflexivity.
Qed.

(** One turn of the loop of [cleanup_temp_files]. *)
Lemma cleanup_items_step removal dir name rest h count :
  tidy h ->
  let item := path_join dir name in
  exists h1 count1,
    cleanup_items removal dir (name :: rest) h count
    = cleanup_items removal dir rest h1 count1
    /\ only_removals h h1
    /\ (forall path, within item path = false ->
          (path ∈ dirs h1 <-> path ∈ dirs h) /\ disk h1 !! path = disk h !! path)
    /\ (removal item = None -> path_exists item h1 = false)
    /\ (is_Some (disk h !! item) -> removal item <> None -> h1 = h)
    /\ count1 = (count + match removal item with
                         | None => 1
                         | Some _ => if path_exists item h then 0 else 1
                         end)%nat.
Proof.
  intros Ht item. cbn [cleanup_items]. fold item.
  assert (forall path, (path ∈ dirs h <-> path ∈ dirs h) /\ disk h !! path = disk h !! path)
    as Hsame by (intros path; split; reflexivity).
  destruct (bool_decide (is_Some (disk h !! item))) eqn:Hfile.
  - apply bool_decide_eq_true in Hfile.
    assert (path_exists item h = true) as Hex.
    { unfold path_exists. rewrite (bool_decide_eq_true_2 (is_Some _)) by exact Hfile.
      apply orb_true_r. }
    destruct (removal item) as [gone|] eqn:Hrm.
    + exists h, count. rewrite Hex.
      split; [reflexivity|]. split; [apply only_removals_refl|].
      split; [auto|]. split; [discriminate|]. split; [auto | lia].
    + destruct (remove_file_removes item h Ht Hfile) as (H1 & H2 & H3).
      eexists _, _. split; [reflexivity|]. split; [exact H1|].
      split; [|split; [auto|split; [intros _ A; contradiction|lia]]].
      intros path Hw. cbn. split; [reflexivity|].
      apply lookup_delete_ne. intros ->. rewrite within_self in Hw. discriminate.
  - assert (~ is_Some (disk h !! item)) as Hnofile
      by (apply bool_decide_eq_false in Hfile; exact Hfile).
    destruct (bool_decide (item ∈ dirs h)) eqn:Hdir.
    + assert (path_exists item h = true) as Hex
        by (unfold path_exists; rewrite Hdir; reflexivity).
      destruct (removal item) as [gone|] eqn:Hrm.
      * destruct (rmtree_partly_removes gone item h) as (H1 & H2).
        exists (rmtree_partly gone item h), count. rewrite Hex.
        split; [reflexivity|]. split; [exact H1|].
        split; [intros path Hw; apply H2, within_false_under, Hw|].
        split; [discriminate|]. split; [intros A; contradiction | lia].
      * destruct (rmtree_removes item h) as (H1 & H2 & H3).
        eexists _, _. split; [reflexivity|]. split; [exact H1|].
        split; [|split; [auto|split; [intros A; contradiction|lia]]].
        intros path Hw. rewrite rmtree_dirs, rmtree_disk, Hw. tauto.
    + assert (path_exists item h = false) as Hex
        by (unfold path_exists; rewrite Hdir, Hfile; reflexivity).
      exists h, (S count). rewrite Hex.
      split; [reflexivity|]. split; [apply only_removals_refl|].
      split; [auto|]. split; [auto|]. split; [intros A; contradiction|].
      destruct (removal item); lia.
Qed.

Lemma cleanup_items_spec removal dir names h count :
  tidy h ->
  NoDup names ->
  Forall (fun name => has_slash name = false) names ->
  let (h', count') := cleanup_items removal dir names h count in
  count' = (count + length (List.filter
                              (fun name =>
                                 match removal (path_join dir name) with
                                 | None => true
                                 | Some _ => negb (path_exists (path_join dir name) h)
                                 end) names))%nat
  /\ only_removals h h'
  /\ outside_kept dir h h'
  /\ Forall (fun name => removal (path_join dir name) = None ->
                         path_exists (path_join dir name) h' = false) names
  /\ (forall name, has_slash name = false ->
        is_Some (disk h !! path_join dir name) ->
        removal (path_join dir name) <> None ->
        disk h' !! path_join dir name = disk h !! path_join dir name).
Proof.
  revert h count. induction names as [|name rest IH]; intros h count Ht Hnd Hslash.
  - cbn. split; [lia|]. split; [apply only_removals_refl|].
    split; [apply outside_kept_refl|]. split; [constructor|auto].
  - apply NoDup_cons in Hnd as [Hfresh Hnd].
    apply Forall_cons in Hslash as [Hname Hslash].
    destruct (cleanup_items_step removal dir name rest h count Ht)
      as (h1 & count1 & Hstep & Hrem & Hagree & Hgone & Hkept & Hcount).
    rewrite Hstep.
    specialize (IH h1 count1 (tidy_after h h1 Ht Hrem) Hnd Hslash).
    destruct (cleanup_items removal dir rest h1 count1) as [h' count'].
    destruct IH as (Hc & Hrem' & Hout' & Hall & Hstay).
    assert (forall name', name' ∈ rest -> has_slash name' = false ->
              within (path_join dir name) (path_join dir name') = false) as Hsib.
    { intros name' Hin Hs.
      destruct (within (path_join dir name) (path_join dir name')) eqn:Hw; [|reflexivity].
      apply within_sibling in Hw; [|exact Hs]. subst name'. contradiction. }
    assert (List.filter
              (fun name' =>
                 match removal (path_join dir name') with
                 | None => true
                 | Some _ => negb (path_exists (path_join dir name') h1)
                 end) rest
            = List.filter
                (fun name' =>
                   match removal (path_join dir name') with
                   | None => true
                   | Some _ => negb (path_exists (path_join dir name') h)
                   end) rest) as Hfilter.
    { apply List.filter_ext_in. intros name' Hin%list_elem_of_In.
      rewrite Forall_forall in Hslash.
      destruct (Hagree _ (Hsib name' Hin (Hslash name' Hin))) as [Hd Hf].
      rewrite (agree_path_exists h h1 _ Hd Hf). reflexivity. }
    split.
    { rewrite Hc, Hfilter, Hcount. cbn [List.filter].
      destruct (removal (path_join dir name)); [|cbn [length]; lia].
      destruct (path_exists (path_join dir name) h); cbn [negb length]; lia. }
    split; [eapply only_removals_trans; eassumption|].
    split.
    { eapply outside_kept_trans; [|exact Hout'].
      intros path Hpath. apply Hagree, (under_outside dir); [apply under_join|exact Hpath]. }
    split.
    { constructor; [|exact Hall].
      intros Hnone. eapply only_removals_gone; [exact Hrem'|]. apply Hgone, Hnone. }
    intros name0 Hs0 Hfile0 Hrefused.
    destruct (String.eqb_spec name0 name) as [->|Hne].
    + rewrite (Hkept Hfile0 Hrefused) in *. apply Hstay; assumption.
    + assert (within (path_join dir name) (path_join dir name0) = false) as Hw.
      { destruct (within (path_join dir name) (path_join dir name0)) eqn:Hw; [|reflexivity].
        apply within_sibling in Hw; [contradiction | exact Hs0]. }
      destruct (Hagree _ Hw) as [_ Hf]. rewrite <- Hf.
      apply Hstay; [exact Hs0 | rewrite Hf; exact Hfile0 | exact Hrefused].
Qed.

Lemma listdir_complete dir h names name :
  listdir dir h = Ok names ->
  name <> "" -> has_slash name = false ->
  path_exists (path_join dir name) h = true ->
  name ∈ names.
Proof.
  unfold listdir. destruct (bool_decide (dir ∈ dirs h)); [|discriminate].
  intros [= <-] Hne Hslash Hex.
  apply elem_of_remove_dups, list_elem_of_omap.
  exists (path_join dir name). split; [|apply child_name_spec; auto].
  apply elem_of_app. unfold path_exists in Hex. apply orb_true_iff in Hex as [Hd|Hf].
  - left. apply elem_of_elements. apply bool_decide_eq_true in Hd. exact Hd.
  - right. apply elem_of_elements, elem_of_dom. apply bool_decide_eq_true in Hf. exact Hf.
Qed.

(** What [os.listdir] gives: each entry once, and entries only. *)
Lemma listdir_sound dir h names :
  listdir dir h = Ok names ->
  NoDup names
  /\ Forall (fun name => has_slash name = false) names
  /\ Forall (fun name => path_exists (path_join dir name) h = true) names.
Proof.
  unfold listdir. destruct (bool_decide (dir ∈ dirs h)); [|discriminate].
  intros [= <-]. split; [apply NoDup_remove_dups|].
  assert (forall name,
            name ∈ remove_dups (omap (child_name dir)
                                  (elements (dirs h) ++ elements (dom (disk h)))) ->
            has_slash name = false /\ path_exists (path_join dir name) h = true) as H.
  { intros name Hin. apply elem_of_remove_dups, list_elem_of_omap in Hin.
    destruct Hin as (path & Hpath & Hchild).
    apply child_name_spec in Hchild as (-> & _ & Hslash). split; [exact Hslash|].
    unfold path_exists. apply orb_true_iff.
    apply elem_of_app in Hpath as [Hd|Hf].
    - left. apply bool_decide_eq_true, elem_of_elements, Hd.
    - right. apply bool_decide_eq_true, elem_of_dom, elem_of_elements, Hf. }
  split; apply Forall_forall; intros name Hin; apply H, Hin.
Qed.


Lemma listdir_none dir h : dir ∉ dirs h -> listdir dir h = Raise FileNotFoundError.
Proof. intros H. unfold listdir. rewrite bool_decide_eq_false_2 by exact H. reflexivity. Qed.

(** X19. [cleanup_temp_files] empties the manager's directory of all the
    system lets it remove, and touches nothing else. On a file system
    where no path is both a file and a directory: nothing is created;
    the directory itself and every path that is not below it are as
    before; no entry whose removal the system allows is left, file or
    directory; a file whose removal raises stays as it was; and the count
    returned is the number of entries [os.listdir] gave whose removal
    did not raise. When the directory does not exist the count is 0 and
    nothing changes. *)
Theorem cleanup_temp_files_empties removal s :
  tidy (host s) ->
  let dir := temp_dir (manager s) in
  let (s', count) := cleanup_temp_files_impl removal s in
  manager s' = manager s
  /\ only_removals (host s) (host s')
  /\ outside_kept dir (host s) (host s')
  /\ (dir ∈ dirs (host s') <-> dir ∈ dirs (host s))
  /\ match listdir dir (host s) with
     | Ok names =>
         count = length (removable removal dir names)
         /\ (forall name, name <> "" -> has_slash name = false ->
               removal (path_join dir name) = None ->
               path_exists (path_join dir name) (host s') = false)
         /\ (forall name, has_slash name = false ->
               is_Some (disk (host s) !! path_join dir name) ->
               removal (path_join dir name) <> None ->
               disk (host s') !! path_join dir name
               = disk (host s) !! path_join dir name)
     | Raise _ => count = 0%nat /\ s' = s
     end.
Proof.
  intros Ht dir. unfold cleanup_temp_files_impl. fold dir.
  destruct (listdir dir (host s)) as [names|] eqn:Hls.
  - destruct (listdir_sound dir (host s) names Hls) as (Hnd & Hslash & Hexist).
    pose proof (cleanup_items_spec removal dir names (host s) 0 Ht Hnd Hslash) as H.
    destruct (cleanup_items removal dir names (host s) 0) as [h' count].
    destruct H as (Hc & Hrem & Hout & Hall & Hstay). cbn.
    split; [reflexivity|]. split; [exact Hrem|]. split; [exact Hout|].
    split; [apply Hout, not_under_self|]. split; [|split; [|exact Hstay]].
    + rewrite Hc. cbn. unfold removable. f_equal.
      apply List.filter_ext_in. intros name Hin%list_elem_of_In.
      rewrite Forall_forall in Hexist. rewrite (Hexist name Hin).
      destruct (removal (path_join dir name)); reflexivity.
    + intros name Hne Hs Hnone.
      destruct (path_exists (path_join dir name) (host s)) eqn:Hex.
      * pose proof (listdir_complete dir (host s) names name Hls Hne Hs Hex) as Hin.
        rewrite Forall_forall in Hall. apply Hall; assumption.
      * eapply only_removals_gone; eassumption.
  - split; [reflexivity|]. split; [apply only_removals_refl|].
    split; [apply outside_kept_refl|]. split; [reflexivity|]. auto.
Qed.





End Removing.

(** ** Single keys *)

Import SingleKeys.

Section SendingKeys.

Context {K : Type} `{Countable K}.

(** X21. [send_key] returns [True] exactly when both the press and the
    release went through, and the key is then up. When the press raises
    nothing was pressed; when the release raises the answer is [False]
    and the key is left down. No other key changes. *)
Theorem send_key_effects (key : K) (c : Controller K) :
  let (c', sent) := send_key key c in
  (forall other, other <> key -> (other ∈ held c' <-> other ∈ held c))
  /\ match press c key, release c key with
     | Ok _, Ok _ => sent = true /\ ~ key ∈ held c'
     | Ok _, Raise _ => sent = false /\ key ∈ held c'
     | Raise _, _ => sent = false /\ held c' = held c
     end.
Proof.
  unfold send_key.
  destruct (press c key) as [[]|e]; cbn; [|split; [reflexivity|auto]].
  destruct (release c key) as [[]|e]; cbn.
  - split.
    + intros other Hne. rewrite elem_of_difference, elem_of_union, !elem_of_singleton.
      tauto.
    + split; [reflexivity|]. rewrite elem_of_difference, elem_of_singleton. tauto.
  - split.
    + intros other Hne. rewrite elem_of_union, elem_of_singleton. tauto.
    + split; [reflexivity|]. apply elem_of_union_l, elem_of_singleton. reflexivity.
Qed.

End SendingKeys.

(** ** Getting ready: the model and the listener thread *)

Import Application.

Section LoadingTheModel.

Implicit Types (s : Services).

(** X22. [load_model] returns whether [whisper.load_model] went through;
    it has no access to the file system and leaves the keyboard and what
    was typed alone; after [True] the model is loaded, after [False] the
    model is what it was. As long as no model is loaded
    [transcribe_audio] returns [None] for every path and leaves every
    file system as it is. *)
Theorem load_model_effects (loaded : result (string -> result string)) s :
  let (s', ok) := load_model_impl loaded s in
  ok = is_ok loaded
  /\ os_remove s' = os_remove s
  /\ controller_type s' = controller_type s
  /\ typed s' = typed s
  /\ (ok = true -> is_model_loaded s' = true)
  /\ (ok = false -> model s' = model s)
  /\ (is_model_loaded s' = false ->
      forall path h,
        snd (transcribe_audio_impl path h s') = None
        /\ fst (fst (transcribe_audio_impl path h s')) = h).
Proof.
  unfold load_model_impl, is_model_loaded.
  destruct loaded as [whisper|e]; cbn.
  - repeat split; auto; discriminate.
  - repeat split; auto; try discriminate.
    all: unfold transcribe_audio_impl; cbn; destruct (model s); [discriminate|reflexivity].
Qed.

End LoadingTheModel.

Section ListenerThread.

Context {A : Type}.

Implicit Types (l : Listening A).

Lemma filter_fresh (n : nat) (ks : list nat) :
  Forall (fun k => (k < n)%nat) ks ->
  List.filter (fun k => negb (k =? n)%nat) ks = ks.
Proof.
  induction 1 as [|k ks Hk _ IH]; cbn; [reflexivity|].
  rewrite (proj2 (Nat.eqb_neq k n)) by lia. cbn. rewrite IH. reflexivity.
Qed.

(** X23. [start_listening] followed by [stop_listening] leaves no
    listener behind, whether or not the listener could be constructed or
    started: the listeners that run are those that ran before, the
    object holds none, the callbacks and the application are untouched,
    and a second [stop_listening] does nothing. After [True] the new
    listener runs and is the one the object holds. *)
Theorem listening_round_trip (env : Pynput) l :
  keyboard_listener l = None ->
  Forall (fun k => (k < made l)%nat) (started l) ->
  let (l1, ok) := start_listening env l in
  let l2 := stop_listening l1 in
  (ok = true -> keyboard_listener l1 = Some (made l)
                /\ started l1 = started l ++ [made l])
  /\ (ok = false -> started l1 = started l)
  /\ keyboard_listener l2 = None
  /\ started l2 = started l
  /\ listener (hworld l2) = listener (hworld l)
  /\ app (hworld l2) = app (hworld l)
  /\ stop_listening l2 = l2.
Proof.
  intros Hnone Hfresh. unfold start_listening.
  destruct (listener_new env (made l)) as [[]|e]; cbn.
  - destruct (listener_start env (made l)) as [[]|e]; cbn.
    + unfold stop_listening. cbn.
      rewrite List.filter_app, (filter_fresh _ _ Hfresh). cbn.
      rewrite Nat.eqb_refl. cbn. rewrite app_nil_r.
      repeat split; auto; discriminate.
    + unfold stop_listening. cbn. rewrite (filter_fresh _ _ Hfresh).
      repeat split; auto; discriminate.
  - unfold stop_listening. cbn. rewrite Hnone. cbn. rewrite Hnone.
    repeat split; auto; discriminate.
Qed.

End ListenerThread.

(** ** The further properties at concrete inputs *)

Import Samples.

Local Open Scope Q_scope.

(** X2 at a concrete input: the model hears ["hello world"] between a
    no-break space and an ideographic space in the first audio file. *)
Lemma transcribed_text_is_stripped_witness :
  snd (transcribe_audio_impl first_audio_file (host stocked) breathy) = Some "hello world"
  /\ strip "hello world" = "hello world"
  /\ path_exists first_audio_file (host stocked) = true.
Proof.
  assert (snd (transcribe_audio_impl first_audio_file (host stocked) breathy)
          = Some "hello world") as H by (vm_compute; reflexivity).
  destruct (transcribed_text_is_stripped first_audio_file (host stocked) breathy
              "hello world" H) as (_ & Hstrip & _ & _ & Hin & _).
  split; [exact H|]. split; [exact Hstrip|exact Hin].
Defined.

(** X4 at a concrete input: the text heard in the first audio file is
    typed as it is, followed by a space. *)
Lemma transcribed_text_is_typed_as_is_witness :
  snd (transcribe_audio_impl first_audio_file (host stocked) attentive) = Some "hello world"
  /\ (let (k', done) := type_text_impl "hello world" attentive in
      done = true /\ typed k' = "hello world ").
Proof.
  split; [vm_compute; reflexivity|].
  apply (transcribed_text_is_typed_as_is first_audio_file (host stocked) attentive
           "hello world" attentive);
    vm_compute; reflexivity.
Defined.

(** X10 at a concrete input: the recorder of the program saves a tenth of
    a second of silence in the first audio file. *)
Lemma save_audio_data_on_disk_witness :
  file_manager (recorder (recorder_Q None)) = Some temp_store
  /\ next_temp_path ".wav" "audio_" temp_store = first_audio_file
  /\ soundfile (host temp_store) = SfWorks
  /\ (let path := next_temp_path ".wav" "audio_" temp_store in
      let (w', answer) := _save_audio_data short_silence (recorder_Q None) in
      exists store',
        file_manager (recorder w') = Some store'
        /\ manager store' = manager temp_store
        /\ dirs (host store') = dirs (host temp_store)
        /\ (forall other, other <> path ->
              disk (host store') !! other = disk (host temp_store) !! other)
        /\ if bool_decide (temp_dir (manager temp_store) ∈ dirs (host temp_store)) then
             match soundfile (host temp_store) with
             | SfWorks =>
                 answer = Some path
                 /\ disk (host store') !! path
                    = Some (SoundfileWav short_silence (sample_rate (recorder (recorder_Q None))))
             | SfMissing =>
                 answer = Some path
                 /\ disk (host store') !! path
                    = Some (WaveInt16 short_silence (channels (recorder (recorder_Q None)))
                              (sample_rate (recorder (recorder_Q None))))
             | SfFails leftover | SfMissingWaveFails leftover =>
                 answer = None
                 /\ disk (host store') !! path
                    = Some (match leftover with
                            | Some content => content
                            | None => EmptyFile
                            end)
             end
           else answer = None /\ store' = temp_store).
Proof.
  split; [reflexivity|]. split; [vm_compute; reflexivity|]. split; [reflexivity|].
  apply (save_audio_data_on_disk (T := Q) short_silence (recorder_Q None) temp_store).
  reflexivity.
Defined.

(** X11 at a concrete input: [TempFileManager()] on the laptop. *)
Lemma constructed_manager_creates_files_witness :
  TempFileManager_new laptop = (host temp_store, Ok (manager temp_store))
  /\ temp_dir (manager temp_store) ∈ dirs (host temp_store)
  /\ snd (create_temp_file_impl ".wav" "test_" temp_store)
     = Ok "/tmp/mic_to_keyboard_0/test_1.wav".
Proof.
  assert (TempFileManager_new laptop = (host temp_store, Ok (manager temp_store))) as H
    by (vm_compute; reflexivity).
  destruct (constructed_manager_creates_files laptop (host temp_store)
              (manager temp_store) ".wav" "test_" H) as (_ & Hdir & _).
  split; [exact H|]. split; [exact Hdir|]. vm_compute. reflexivity.
Defined.


(** X15 at a concrete input: right Ctrl, left Shift and Space. Neither
    key set is held in full, and the hotkey is detected. *)
Lemma subset_tests_are_redundant_witness :
  targets_set mixed_modifiers
  /\ _is_hotkey_pressed mixed_modifiers = _mixed_modifier_combination mixed_modifiers
  /\ _mixed_modifier_combination mixed_modifiers = true.
Proof.
  assert (targets_set mixed_modifiers) as H by (split; reflexivity).
  split; [exact H|]. split; [exact (subset_tests_are_redundant mixed_modifiers H)|].
  vm_compute. reflexivity.
Defined.

(** X5 at a concrete input: the first chunk of a session on the steady
    device is the answer to the first read. *)
Lemma buffer_keeps_capture_order_witness :
  let w := run (steady 1) first_chunk (recorder_Q (Some (30 # 1))) in
  captured w !! 0%nat = Some (silence 1600 1)
  /\ exists th frames overflowed,
       _recording_thread (recorder w) = Some th
       /\ chunk_frames (recorder w) = Some frames
       /\ stream_read (steady 1) (t_session th) 0 frames = Ok (silence 1600 1, overflowed)
       /\ (length (captured w) <= t_reads th <= S (length (captured w)))%nat.
Proof.
  intros w.
  assert (captured w !! 0%nat = Some (silence 1600 1)) as H by (vm_compute; reflexivity).
  split; [exact H|].
  exact (buffer_keeps_capture_order (steady 1) first_chunk 16000 1 (Some temp_store)
           (Some (30 # 1)) 0%nat (silence 1600 1) H).
Defined.

(** X18 at a concrete input: sixteen samples of test audio and a callback
    that accepts every value. *)
Lemma test_audio_progress_witness :
  generate_test_audio flat_synth (rec_of (async_recorder_Q None)) (440 # 1) (1 # 1000)
  = Ok (A1 (repeat 0%float 16))
  /\ first_rejected quiet_callback = None
  /\ progress_calls (fst (record_test_audio_async flat_synth (440 # 1) (1 # 1000)
                            (Some quiet_callback) (async_recorder_Q None)))
     = progress_steps 11.
Proof.
  assert (generate_test_audio flat_synth (rec_of (async_recorder_Q None)) (440 # 1) (1 # 1000)
          = Ok (A1 (repeat 0%float 16))) as H by (vm_compute; reflexivity).
  assert (first_rejected quiet_callback = None) as Hnone by reflexivity.
  split; [exact H|]. split; [exact Hnone|].
  pose proof (test_audio_progress flat_synth (440 # 1) (1 # 1000) quiet_callback
                (async_recorder_Q None) (A1 (repeat 0%float 16)) H) as Hp.
  destruct (record_test_audio_async flat_synth (440 # 1) (1 # 1000)
              (Some quiet_callback) (async_recorder_Q None)) as [a' answer].
  rewrite Hnone in Hp. destruct Hp as [Hcalls _]. exact Hcalls.
Defined.

(** X19 at a concrete input: the laptop's manager with two files, on a
    system that refuses to remove the first. One entry is counted, the
    second file is gone and the first is still there. *)
Lemma cleanup_temp_files_empties_witness :
  tidy (host restocked)
  /\ snd (cleanup_temp_files_impl holds_first restocked) = 1%nat
  /\ manager (fst (cleanup_temp_files_impl holds_first restocked)) = manager restocked
  /\ path_exists second_audio_file (host restocked) = true
  /\ path_exists second_audio_file
       (host (fst (cleanup_temp_files_impl holds_first restocked))) = false
  /\ path_exists first_audio_file
       (host (fst (cleanup_temp_files_impl holds_first restocked))) = true.
Proof.
  assert (tidy (host restocked)) as Ht.
  { intros path Hin. apply elem_of_elements in Hin. vm_compute in Hin.
    repeat (apply elem_of_cons in Hin as [->|Hin]; [vm_compute; reflexivity|]).
    apply elem_of_nil in Hin. contradiction. }
  split; [exact Ht|]. split; [vm_compute; reflexivity|].
  split; [|split; [|split]; vm_compute; reflexivity].
  pose proof (cleanup_temp_files_empties holds_first restocked Ht) as H. cbn zeta in H.
  destruct (cleanup_temp_files_impl holds_first restocked) as [s' count].
  destruct H as (Hm & _). exact Hm.
Defined.


(** X23 at a concrete input: a listener object started and stopped
    once. *)
Lemma listening_round_trip_witness :
  keyboard_listener never_started = None
  /\ snd (start_listening willing never_started) = true
  /\ started (fst (start_listening willing never_started)) = [0%nat]
  /\ started (stop_listening (fst (start_listening willing never_started))) = [].
Proof.
  split; [reflexivity|]. split; [reflexivity|]. split; [reflexivity|].
  pose proof (listening_round_trip willing never_started eq_refl
                (List.Forall_nil _)) as H.
  destruct (start_listening willing never_started) as [l1 ok].
  cbn zeta in H. destruct H as (_ & _ & _ & Hstarted & _). exact Hstarted.
Defined.
